(** * EdgeMesh coordinator: scheduler core, repository, in-memory state

    A shallow embedding of the coordinator's decision logic
    ([scheduler/core.py]), its persistent store ([db/repository.py]),
    the process-local state ([api/state.py]) and the node-policy route
    ([api/routers/nodes.py]), with the properties the design document
    states about them; and of the job and simulation routes
    ([api/routers/jobs.py], [api/routers/simulate.py]), the agent services
    ([api/services.py]) and the loop of the agent
    ([agent_service/main.py]), with further properties of the code.

    Conventions of the embedding:
    - Python [int] is [Z].  A [float] field of a model is given by the
      number it holds, a rational ([Q]): every finite double is one, and
      Python compares a float with an int exactly.
    - The score of the scheduler is embedded twice.  Module [scheduler]
      takes the sums, products and quotients of [score_node] in exact
      arithmetic: that is the score the ranking properties are stated
      over, and they use nothing of it but its order.  Module [binary64]
      has [_headroom] and [score_node] as the interpreter computes them,
      in IEEE 754 double precision, with [float(int)], [max], [min] and
      [round] as CPython defines them.
    - A [datetime] is an instant on the UTC time line, counted in
      microseconds ([Z]); [timedelta(seconds=s)] is [s * 1000000].  The
      readings of the clock are such instants.  A [datetime] that a caller
      hands in carries a zone of its own ([zoned]): its instant and the
      offset of its zone.  A [DateTime] column of the SQLite store keeps
      the digits of date and time without the zone, and [_as_utc] reads
      them back as UTC.
    - A table with a primary key is a [gmap] from the key to its row.  An
      INTEGER column holds a signed 64-bit number.
    - A raised exception is the [Err] case of [result]; a transaction
      that raises leaves the store as it was.
    - A [str] is the sequence of its characters; primary keys are ordered
      character by character.  What [str.strip], [str.lower] and
      [str.upper] make of a text is not fixed here: the functions that
      call them take them as arguments.
    - Every reading of the clock and every random id is an argument of
      the function that takes it. *)

From Stdlib Require Import QArith Qround Qminmax Qabs SpecFloat.
From stdpp Require Import gmap strings list fin_maps.

Local Open Scope Z_scope.

(** ** models *)

Module models.

Inductive TaskType := INFERENCE | EMBEDDINGS | INDEX | TOKENIZE | PREPROCESS.
Inductive JobStatus := QUEUED | RUNNING | COMPLETED | FAILED | CANCELLED.
Inductive NodeStatus := UNKNOWN | ONLINE | OFFLINE.
Inductive RolePreference :=
  AUTO | PREFER_INFERENCE | PREFER_EMBEDDINGS | PREFER_PREPROCESS.

#[export] Instance TaskType_eq_dec : EqDecision TaskType.
Proof. solve_decision. Defined.
#[export] Instance JobStatus_eq_dec : EqDecision JobStatus.
Proof. solve_decision. Defined.
#[export] Instance NodeStatus_eq_dec : EqDecision NodeStatus.
Proof. solve_decision. Defined.
#[export] Instance RolePreference_eq_dec : EqDecision RolePreference.
Proof. solve_decision. Defined.

(** [list(TaskType)]: the members in declaration order. *)
Definition all_task_types : list TaskType :=
  [INFERENCE; EMBEDDINGS; INDEX; TOKENIZE; PREPROCESS].

(** Instants in microseconds since the epoch, UTC. *)
Definition datetime := Z.

Definition timedelta_seconds (s : Z) : Z := s * 1000000.

(** [datetime.min] and [datetime.max] read in UTC: the first microsecond
    of the year 1 and the last of the year 9999.  A [timedelta] spans less
    than a thousand million days, which is more than lies between the
    two.  [datetime - timedelta] raises [OverflowError] when the result is
    not a date of these years. *)
Definition datetime_min : datetime := -62135596800 * 1000000.
Definition datetime_max : datetime := 253402300799 * 1000000 + 999999.

Definition representable (t : datetime) : Prop :=
  datetime_min ≤ t ≤ datetime_max.

(** A [datetime] that a caller hands in has a zone of its own: [instant]
    is the point of the UTC time line it names, [utcoffset] the offset of
    its zone from UTC in microseconds, and the digits of date and time it
    shows are those of [instant + utcoffset].  A value without a zone is
    read as UTC by [_as_utc]: it is the value of offset 0 here. *)
Record zoned := {
  instant : datetime;
  utcoffset : Z
}.

(** [datetime.now(timezone.utc)] and what [astimezone(timezone.utc)]
    gives. *)
Definition utc (t : datetime) : zoned := {| instant := t; utcoffset := 0 |}.

(** The digits of date and time of a value, read as a time in UTC. *)
Definition wall_clock (t : zoned) : datetime := instant t + utcoffset t.

(** Modelled from the spec: the [NodeIdentity] model ([models/node.py] is
    not among the sources); section 3, "Identity". *)
Record NodeIdentity := {
  node_id : string;
  display_name : string;
  ip : string;
  port : Z
}.

(** Modelled from the spec: the [NodeCapabilities] model; section 3,
    "Capabilities".  [has_gpu] is a stored field, set by the caller. *)
Record NodeCapabilities := {
  cpu_cores : option Z;
  cpu_threads : option Z;
  ram_total_gb : option Q;
  gpu_name : option string;
  vram_total_gb : option Q;
  os : option string;
  arch : option string;
  task_types : list TaskType;
  labels : list string;
  has_gpu : bool
}.

(** Modelled from the spec: the [NodeMetrics] model; section 3, "Metrics".
    [extra] is the opaque key-value record of the raw submission, and
    [heartbeat_ts] a [datetime] of the caller, in whatever zone it has. *)
Record NodeMetrics := {
  cpu_percent : Q;
  ram_used_gb : Q;
  ram_percent : Q;
  gpu_percent : option Q;
  vram_used_gb : option Q;
  running_jobs : Z;
  heartbeat_ts : zoned;
  extra : list (string * string)
}.

(** Modelled from the spec: the [NodePolicy] model; section 3, "Policy". *)
Record NodePolicy := {
  enabled : bool;
  cpu_cap_percent : Z;
  gpu_cap_percent : option Z;
  ram_cap_percent : Z;
  task_allowlist : list TaskType;
  role_preference : RolePreference
}.

(** Modelled from the spec: the [Node] composite; section 3, "Node". *)
Record Node := {
  identity : NodeIdentity;
  capabilities : NodeCapabilities;
  metrics : NodeMetrics;
  policy : NodePolicy;
  status : NodeStatus;
  last_seen : datetime;
  created_at : datetime;
  updated_at : datetime
}.

(** [models/job.py], class [Job]. *)
Record Job := {
  id : string;
  type : TaskType;
  job_status : JobStatus;
  payload_ref : option string;
  assigned_node_id : option string;
  attempts : Z;
  job_created_at : datetime;
  job_updated_at : datetime;
  started_at : option datetime;
  completed_at : option datetime;
  error : option string
}.

End models.
Export models.

(** ** Python built-ins used by the sources *)

Module py.

(** [a > b] on numbers. *)
Definition gt (a b : Q) : bool := negb (Qle_bool a b).

(** [max(a, b)]: the first argument unless the second is greater. *)
Definition max (a b : Q) : Q := if gt b a then b else a.

(** [min(a, b)]: the first argument unless the second is smaller. *)
Definition min (a b : Q) : Q := if gt a b then b else a.

(** Round half to even, to an integer. *)
Definition round_half_even (q : Q) : Z :=
  let f := Qfloor q in
  let r := (q - inject_Z f)%Q in
  if gt (1 # 2) r then f
  else if gt r (1 # 2) then f + 1
  else if Z.even f then f else f + 1.

(** [round(x, 3)]: the nearest multiple of 1/1000, ties to even. *)
Definition round3 (q : Q) : Q :=
  (inject_Z (round_half_even (q * 1000)) / 1000)%Q.

(** Truthiness of [str | None]: [None] and the empty string are false. *)
Definition truthy (s : option string) : bool :=
  match s with
  | Some s => negb (String.eqb s "")
  | None => false
  end.

(** [a or b] on [str | None]. *)
Definition or_else (a b : option string) : option string :=
  if truthy a then a else b.

(** [items[start:]]: a negative [start] counts from the end, and both ends
    are clamped to the list. *)
Definition slice_from {A} (start : Z) (items : list A) : list A :=
  if start <? 0
  then drop (Z.to_nat (Z.max 0 (Z.of_nat (length items) + start))) items
  else drop (Z.to_nat start) items.

(** A stable sort: [x] goes in front of the first item that does not sort
    strictly before it, so items that compare equal keep the order they
    came in.  [list.sort] and [sorted] are stable, with [reverse=True] as
    well; the rows of an ORDER BY on a key that no two rows share come out
    in this order too. *)
Fixpoint insert_by {A} (before : A → A → bool) (x : A) (l : list A)
  : list A :=
  match l with
  | [] => [x]
  | y :: rest =>
      if before y x then y :: insert_by before x rest else x :: y :: rest
  end.

Definition sorted_by {A} (before : A → A → bool) (l : list A) : list A :=
  foldr (insert_by before) [] l.

(** [(e1, s1) < (e2, s2)] on tuples of a [bool] and a number: the first
    components decide unless they are equal, and [False < True]. *)
Definition tuple_lt (a b : bool * Q) : bool :=
  if bool_decide (a.1 = b.1) then gt b.2 a.2 else negb a.1 && b.1.

(** The order of [sort(key=..., reverse=True)]: the larger key first. *)
Definition descending {A} (key : A → bool * Q) (a b : A) : bool :=
  tuple_lt (key b) (key a).

End py.

(** ** scheduler/core.py *)

Module scheduler.

(** Scoring weights for schedule simulation. *)
Definition _SCORE_WEIGHTS : list (string * Q) :=
  [ ("cpu_headroom", 45%Q);
    ("ram_headroom", 35%Q);
    ("gpu_headroom", 20%Q);
    ("infer_gpu_bonus", 22%Q);
    ("cpu_task_cpu_node_bonus", 12%Q);
    ("role_match_bonus", 14%Q);
    ("role_mismatch_penalty", 10%Q);
    ("running_jobs_penalty", 2%Q) ].

(** [_SCORE_WEIGHTS[key]]; every key the module uses is in the table. *)
Definition weight (key : string) : Q :=
  match List.find (fun kv => String.eqb (fst kv) key) _SCORE_WEIGHTS with
  | Some kv => snd kv
  | None => 0%Q
  end.

Definition _task_requires_gpu (task_type : TaskType) : bool :=
  bool_decide (task_type = INFERENCE).

Definition _task_prefers_cpu (task_type : TaskType) : bool :=
  bool_decide (task_type ∈ [EMBEDDINGS; INDEX; TOKENIZE; PREPROCESS]).

Definition _infer_role_match (role : RolePreference) : bool :=
  bool_decide (role ∈ [AUTO; PREFER_INFERENCE]).

Definition _cpu_role_match (role : RolePreference) : bool :=
  bool_decide (role ∈ [AUTO; PREFER_EMBEDDINGS; PREFER_PREPROCESS]).

(** [policy.gpu_cap_percent if policy.gpu_cap_percent is not None else 100] *)
Definition gpu_cap_or_100 (p : NodePolicy) : Z :=
  match gpu_cap_percent p with
  | Some c => c
  | None => 100
  end.

Definition evaluate_node_eligibility (node : Node) (task_type : TaskType)
  : bool * list string :=
  let reasons : list string := [] in
  let reasons :=
    if negb (enabled (policy node))
    then reasons ++ ["policy_disabled"] else reasons in
  let reasons :=
    if negb (bool_decide (status node = ONLINE))
    then reasons ++ ["node_not_online"] else reasons in
  let reasons :=
    if negb (bool_decide (task_type ∈ task_allowlist (policy node)))
    then reasons ++ ["task_not_allowed"] else reasons in
  let reasons :=
    if py.gt (cpu_percent (metrics node))
             (inject_Z (cpu_cap_percent (policy node)))
    then reasons ++ ["cpu_over_cap"] else reasons in
  let reasons :=
    if py.gt (ram_percent (metrics node))
             (inject_Z (ram_cap_percent (policy node)))
    then reasons ++ ["ram_over_cap"] else reasons in
  let reasons :=
    if _task_requires_gpu task_type then
      if negb (has_gpu (capabilities node))
      then reasons ++ ["gpu_required"]
      else
        match gpu_percent (metrics node) with
        | Some g =>
            let gpu_cap := gpu_cap_or_100 (policy node) in
            if py.gt g (inject_Z gpu_cap)
            then reasons ++ ["gpu_over_cap"] else reasons
        | None => reasons
        end
    else reasons in
  (bool_decide (length reasons = 0%nat), reasons).

Definition is_node_eligible (node : Node) (task_type : TaskType) : bool :=
  fst (evaluate_node_eligibility node task_type).

Local Open Scope Q_scope.

Definition _headroom (percent : Q) (cap_percent : Z) : Q :=
  let cap := py.max (inject_Z cap_percent) 1 in
  let utilization_ratio := py.min (percent / cap) 2 in
  py.max 0 (1 - utilization_ratio).

Definition score_node (node : Node) (task_type : TaskType) : Q :=
  let score : Q := 0 in
  let score :=
    score + _headroom (cpu_percent (metrics node))
                      (cpu_cap_percent (policy node))
            * weight "cpu_headroom" in
  let score :=
    score + _headroom (ram_percent (metrics node))
                      (ram_cap_percent (policy node))
            * weight "ram_headroom" in
  let score :=
    if _task_requires_gpu task_type then
      let score :=
        if has_gpu (capabilities node)
        then score + weight "infer_gpu_bonus" else score in
      let score :=
        match gpu_percent (metrics node) with
        | Some g =>
            let gpu_cap := gpu_cap_or_100 (policy node) in
            score + _headroom g gpu_cap * weight "gpu_headroom"
        | None => score
        end in
      if _infer_role_match (role_preference (policy node))
      then score + weight "role_match_bonus"
      else score - weight "role_mismatch_penalty"
    else score in
  let score :=
    if _task_prefers_cpu task_type then
      let score :=
        if negb (has_gpu (capabilities node))
        then score + weight "cpu_task_cpu_node_bonus" else score in
      if _cpu_role_match (role_preference (policy node))
      then score + weight "role_match_bonus"
      else score - weight "role_mismatch_penalty"
    else score in
  let score :=
    score - inject_Z (running_jobs (metrics node))
            * weight "running_jobs_penalty" in
  py.round3 score.

End scheduler.

(** The scoring rule in the words of the design document, section 4.F. *)

Module scoring_rule.

Local Open Scope Q_scope.

Definition W_cpu : Q := 45.
Definition W_ram : Q := 35.
Definition W_gpu : Q := 20.
Definition infer_gpu_bonus : Q := 22.
Definition cpu_task_cpu_node_bonus : Q := 12.
Definition role_match_bonus : Q := 14.
Definition role_mismatch_penalty : Q := 10.
Definition W_runjobs : Q := 2.

(** headroom(percent, cap) = max(0, 1 − min(percent / max(cap,1), 2)) *)
Definition headroom (percent cap : Q) : Q :=
  Qmax 0 (1 - Qmin (percent / Qmax cap 1) 2).

Definition inference_terms (node : Node) : Q :=
  (if has_gpu (capabilities node) then infer_gpu_bonus else 0)
  + match gpu_percent (metrics node) with
    | Some g =>
        headroom g (inject_Z (default 100%Z (gpu_cap_percent (policy node))))
        * W_gpu
    | None => 0
    end
  + match role_preference (policy node) with
    | AUTO | PREFER_INFERENCE => role_match_bonus
    | _ => - role_mismatch_penalty
    end.

Definition cpu_task_terms (node : Node) : Q :=
  (if has_gpu (capabilities node) then 0 else cpu_task_cpu_node_bonus)
  + match role_preference (policy node) with
    | AUTO | PREFER_EMBEDDINGS | PREFER_PREPROCESS => role_match_bonus
    | _ => - role_mismatch_penalty
    end.

Definition weighted_sum (node : Node) (task : TaskType) : Q :=
  headroom (cpu_percent (metrics node))
           (inject_Z (cpu_cap_percent (policy node))) * W_cpu
  + headroom (ram_percent (metrics node))
             (inject_Z (ram_cap_percent (policy node))) * W_ram
  + match task with
    | INFERENCE => inference_terms node
    | EMBEDDINGS | INDEX | TOKENIZE | PREPROCESS => cpu_task_terms node
    end
  - inject_Z (running_jobs (metrics node)) * W_runjobs.

End scoring_rule.

(** ** scheduler/core.py in double precision

    The [float] of CPython is the IEEE 754 binary64 number, and its
    arithmetic rounds to the nearest, ties to the even mantissa:
    [SpecFloat] with a precision of 53 bits and the exponents of binary64.
    An overflow of [+], [-], [*] and [/] gives an infinity and raises
    nothing.  [None] is a raised exception. *)

Module binary64.

Definition prec : Z := 53.
Definition emax : Z := 1024.

Definition float := spec_float.

(** The number a float holds; the infinities and NaN hold none. *)
Definition value (x : float) : option Q :=
  match x with
  | S754_zero _ => Some 0%Q
  | S754_finite s m e =>
      let magnitude := (inject_Z (Zpos m) * Qpower 2 e)%Q in
      Some (if s then (- magnitude)%Q else magnitude)
  | _ => None
  end.

(** The double nearest to a number, ties to the even mantissa: what a
    float literal of the source and a number of a JSON text become, and
    what [float] makes of a decimal text.  A double is its own nearest
    double. *)
Definition of_number (q : Q) : float :=
  match Qnum q with
  | Z0 => S754_zero false
  | Zpos p =>
      SFdiv prec emax (S754_finite false p 0) (S754_finite false (Qden q) 0)
  | Zneg p =>
      SFdiv prec emax (S754_finite true p 0) (S754_finite false (Qden q) 0)
  end.

(** [float(n)] of an [int], which is also what [n * 2.0] makes of [n]
    first: the nearest double, or the [OverflowError] of an [int] that is
    too large for one. *)
Definition of_int (n : Z) : option float :=
  match binary_normalize prec emax n 0 false with
  | S754_infinity _ => None
  | x => Some x
  end.

Definition add : float → float → float := SFadd prec emax.
Definition sub : float → float → float := SFsub prec emax.
Definition mul : float → float → float := SFmul prec emax.

(** [a / b], with the [ZeroDivisionError] of a zero divisor. *)
Definition truediv (a b : float) : option float :=
  match b with
  | S754_zero _ => None
  | _ => Some (SFdiv prec emax a b)
  end.

(** [a > b] and [a < b]: false when one of the two is NaN. *)
Definition gt (a b : float) : bool := SFltb b a.
Definition lt (a b : float) : bool := SFltb a b.

(** [max(a, b)]: the first argument unless the second is greater. *)
Definition max (a b : float) : float := if gt b a then b else a.

(** [min(a, b)]: the first argument unless the second is smaller. *)
Definition min (a b : float) : float := if lt b a then b else a.

(** [round(x, 3)]: the decimal with three places nearest to the number
    the float holds, ties to the even last place, and then the double
    nearest to that decimal; a result of zero keeps the sign of [x], and
    infinities and NaN are returned as they are. *)
Definition round3 (x : float) : float :=
  match x, value x with
  | S754_finite s _ _, Some v =>
      let n := py.round_half_even (v * 1000) in
      if n =? 0 then S754_zero s else of_number (inject_Z n / 1000)
  | _, _ => x
  end.

(** [_SCORE_WEIGHTS[key]]: the weights are float literals. *)
Definition weight (key : string) : float := of_number (scheduler.weight key).

Definition _headroom (percent : float) (cap_percent : Z) : option float :=
  as_float ← of_int cap_percent;
  let cap := max as_float (of_number 1) in
  ratio ← truediv percent cap;
  let utilization_ratio := min ratio (of_number 2) in
  Some (max (of_number 0) (sub (of_number 1) utilization_ratio)).

(** The float fields of the metrics hold doubles: the record gives the
    number, and [of_number] takes it to the double that holds it. *)
Definition score_node (node : Node) (task_type : TaskType) : option float :=
  let score := of_number 0 in
  headroom ←
    _headroom (of_number (cpu_percent (metrics node)))
              (cpu_cap_percent (policy node));
  let score := add score (mul headroom (weight "cpu_headroom")) in
  headroom ←
    _headroom (of_number (ram_percent (metrics node)))
              (ram_cap_percent (policy node));
  let score := add score (mul headroom (weight "ram_headroom")) in
  score ←
    (if scheduler._task_requires_gpu task_type then
       let score :=
         if has_gpu (capabilities node)
         then add score (weight "infer_gpu_bonus") else score in
       score ←
         match gpu_percent (metrics node) with
         | Some g =>
             let gpu_cap := scheduler.gpu_cap_or_100 (policy node) in
             headroom ← _headroom (of_number g) gpu_cap;
             Some (add score (mul headroom (weight "gpu_headroom")))
         | None => Some score
         end;
       Some (if scheduler._infer_role_match (role_preference (policy node))
             then add score (weight "role_match_bonus")
             else sub score (weight "role_mismatch_penalty"))
     else Some score);
  let score :=
    if scheduler._task_prefers_cpu task_type then
      let score :=
        if negb (has_gpu (capabilities node))
        then add score (weight "cpu_task_cpu_node_bonus") else score in
      if scheduler._cpu_role_match (role_preference (policy node))
      then add score (weight "role_match_bonus")
      else sub score (weight "role_mismatch_penalty")
    else score in
  running_jobs ← of_int (running_jobs (metrics node));
  let score := sub score (mul running_jobs (weight "running_jobs_penalty")) in
  Some (round3 score).

End binary64.

(** The scoring rule of section 4.F in double precision: its terms in the
    order in which the section lists them, added from the left. *)

Module float_rule.

Import binary64.

(** headroom(percent, cap) = max(0, 1 − min(percent / max(cap,1), 2)) *)
Definition headroom (percent : float) (cap : Z) : option float :=
  cap ← of_int cap;
  ratio ← truediv percent (max cap (of_number 1));
  Some (max (of_number 0) (sub (of_number 1) (min ratio (of_number 2)))).

(** A headroom times its weight. *)
Definition weighted (percent : Q) (cap : Z) (w : Q) : option float :=
  h ← headroom (of_number percent) cap;
  Some (mul h (of_number w)).

Definition inference_terms (node : Node) : list (option float) :=
  (if has_gpu (capabilities node) then [Some (of_number 22)] else [])
  ++ match gpu_percent (metrics node) with
     | Some g =>
         [weighted g (default 100 (gpu_cap_percent (policy node))) 20]
     | None => []
     end
  ++ [Some match role_preference (policy node) with
           | AUTO | PREFER_INFERENCE => of_number 14
           | _ => of_number (-10)
           end].

Definition cpu_task_terms (node : Node) : list (option float) :=
  (if has_gpu (capabilities node) then [] else [Some (of_number 12)])
  ++ [Some match role_preference (policy node) with
           | AUTO | PREFER_EMBEDDINGS | PREFER_PREPROCESS => of_number 14
           | _ => of_number (-10)
           end].

(** Minus 2 for each running job. *)
Definition running_jobs_term (node : Node) : option float :=
  jobs ← of_int (running_jobs (metrics node));
  Some (SFopp (mul jobs (of_number 2))).

Definition terms (node : Node) (task : TaskType) : list (option float) :=
  [ weighted (cpu_percent (metrics node)) (cpu_cap_percent (policy node)) 45;
    weighted (ram_percent (metrics node)) (ram_cap_percent (policy node)) 35 ]
  ++ match task with
     | INFERENCE => inference_terms node
     | EMBEDDINGS | INDEX | TOKENIZE | PREPROCESS => cpu_task_terms node
     end
  ++ [running_jobs_term node].

(** The sum of the terms from the left, starting from 0.0; a term that
    raises makes the sum raise. *)
Definition weighted_sum (node : Node) (task : TaskType) : option float :=
  foldl (λ sum term, sum ← sum; term ← term; Some (add sum term))
        (Some (of_number 0)) (terms node task).

End float_rule.

(** ** db/orm.py

    The three JSON text columns of a node row hold the value they encode:
    [_encode_json] after [model_dump] and [model_validate] after
    [json.loads] are inverse to each other on validated models; the text
    of a [datetime] has its offset in it.  The [status] and [type] columns
    hold the enum member whose [.value] the table stores.  A [DateTime]
    column holds the instant that [_as_utc] makes of the digits it
    keeps. *)

Module orm.

Module NodeRecord.
Record t := mk {
  node_id : string;
  display_name : string;
  ip : string;
  port : Z;
  status : NodeStatus;
  capabilities_json : NodeCapabilities;
  metrics_json : NodeMetrics;
  policy_json : NodePolicy;
  last_seen : datetime;
  created_at : datetime;
  updated_at : datetime
}.

Definition set_display_name (v : string) (r : t) : t :=
  mk (node_id r) v (ip r) (port r) (status r) (capabilities_json r)
     (metrics_json r) (policy_json r) (last_seen r) (created_at r)
     (updated_at r).
Definition set_ip (v : string) (r : t) : t :=
  mk (node_id r) (display_name r) v (port r) (status r) (capabilities_json r)
     (metrics_json r) (policy_json r) (last_seen r) (created_at r)
     (updated_at r).
Definition set_port (v : Z) (r : t) : t :=
  mk (node_id r) (display_name r) (ip r) v (status r) (capabilities_json r)
     (metrics_json r) (policy_json r) (last_seen r) (created_at r)
     (updated_at r).
Definition set_status (v : NodeStatus) (r : t) : t :=
  mk (node_id r) (display_name r) (ip r) (port r) v (capabilities_json r)
     (metrics_json r) (policy_json r) (last_seen r) (created_at r)
     (updated_at r).
Definition set_capabilities_json (v : NodeCapabilities) (r : t) : t :=
  mk (node_id r) (display_name r) (ip r) (port r) (status r) v
     (metrics_json r) (policy_json r) (last_seen r) (created_at r)
     (updated_at r).
Definition set_metrics_json (v : NodeMetrics) (r : t) : t :=
  mk (node_id r) (display_name r) (ip r) (port r) (status r)
     (capabilities_json r) v (policy_json r) (last_seen r) (created_at r)
     (updated_at r).
Definition set_policy_json (v : NodePolicy) (r : t) : t :=
  mk (node_id r) (display_name r) (ip r) (port r) (status r)
     (capabilities_json r) (metrics_json r) v (last_seen r) (created_at r)
     (updated_at r).
Definition set_last_seen (v : datetime) (r : t) : t :=
  mk (node_id r) (display_name r) (ip r) (port r) (status r)
     (capabilities_json r) (metrics_json r) (policy_json r) v (created_at r)
     (updated_at r).
Definition set_updated_at (v : datetime) (r : t) : t :=
  mk (node_id r) (display_name r) (ip r) (port r) (status r)
     (capabilities_json r) (metrics_json r) (policy_json r) (last_seen r)
     (created_at r) v.
End NodeRecord.

Module JobRecord.
Record t := mk {
  id : string;
  type : TaskType;
  status : JobStatus;
  payload_ref : option string;
  assigned_node_id : option string;
  attempts : Z;
  created_at : datetime;
  updated_at : datetime;
  started_at : option datetime;
  completed_at : option datetime;
  error : option string
}.

Definition set_status (v : JobStatus) (r : t) : t :=
  mk (id r) (type r) v (payload_ref r) (assigned_node_id r) (attempts r)
     (created_at r) (updated_at r) (started_at r) (completed_at r) (error r).
Definition set_assigned_node_id (v : option string) (r : t) : t :=
  mk (id r) (type r) (status r) (payload_ref r) v (attempts r)
     (created_at r) (updated_at r) (started_at r) (completed_at r) (error r).
Definition set_attempts (v : Z) (r : t) : t :=
  mk (id r) (type r) (status r) (payload_ref r) (assigned_node_id r) v
     (created_at r) (updated_at r) (started_at r) (completed_at r) (error r).
Definition set_updated_at (v : datetime) (r : t) : t :=
  mk (id r) (type r) (status r) (payload_ref r) (assigned_node_id r)
     (attempts r) (created_at r) v (started_at r) (completed_at r) (error r).
Definition set_started_at (v : option datetime) (r : t) : t :=
  mk (id r) (type r) (status r) (payload_ref r) (assigned_node_id r)
     (attempts r) (created_at r) (updated_at r) v (completed_at r) (error r).
Definition set_completed_at (v : option datetime) (r : t) : t :=
  mk (id r) (type r) (status r) (payload_ref r) (assigned_node_id r)
     (attempts r) (created_at r) (updated_at r) (started_at r) v (error r).
Definition set_error (v : option string) (r : t) : t :=
  mk (id r) (type r) (status r) (payload_ref r) (assigned_node_id r)
     (attempts r) (created_at r) (updated_at r) (started_at r)
     (completed_at r) v.
End JobRecord.

End orm.
Export orm.

(** ** db/repository.py

    Every operation takes the readings of the clock it makes as arguments:
    [now] is the [_utc_now()] at the head of the operation, [now'] the one
    [_ensure_node] makes when it has to create the row.  An operation
    returns the store it leaves behind next to its result; an operation
    that raises inside its transaction returns the store it was given. *)

Module repository.

Inductive exn :=
| KeyError (key : string)
| ValueError (message : string)
| IntegrityError (key : string)
| OverflowError (message : string).

Inductive result (A : Type) :=
| Ok (a : A)
| Err (e : exn).
Arguments Ok {A} a.
Arguments Err {A} e.

Definition JobStatus_value (s : JobStatus) : string :=
  match s with
  | QUEUED => "QUEUED"
  | RUNNING => "RUNNING"
  | COMPLETED => "COMPLETED"
  | FAILED => "FAILED"
  | CANCELLED => "CANCELLED"
  end.

Definition _ALLOWED_JOB_TRANSITIONS (s : JobStatus) : list JobStatus :=
  match s with
  | QUEUED => [RUNNING]
  | RUNNING => [COMPLETED; FAILED]
  | COMPLETED => []
  | FAILED => []
  | CANCELLED => []
  end.

(** Modelled from the spec: what [NodeCapabilities()], [NodeMetrics()] and
    [NodePolicy()] build when called without arguments ([models/node.py] is
    not among the sources).  The operations are stated for any such
    defaults. *)
Class ModelDefaults := {
  NodeCapabilities_default : NodeCapabilities;
  NodeMetrics_default : NodeMetrics;
  NodePolicy_default : NodePolicy
}.

(** Modelled from the spec: section 3 gives the default policy (enabled,
    all caps 100, all task types allowed, AUTO) and the default task types
    of the capabilities (all of them); the remaining capability fields are
    unset and the default metrics report no load. *)
Definition documented_defaults : ModelDefaults := {|
  NodeCapabilities_default := {|
    cpu_cores := None; cpu_threads := None; ram_total_gb := None;
    gpu_name := None; vram_total_gb := None; os := None; arch := None;
    task_types := all_task_types; labels := []; has_gpu := false |};
  NodeMetrics_default := {|
    cpu_percent := 0%Q; ram_used_gb := 0%Q; ram_percent := 0%Q;
    gpu_percent := None; vram_used_gb := None; running_jobs := 0;
    heartbeat_ts := utc 0; extra := [] |};
  NodePolicy_default := {|
    enabled := true; cpu_cap_percent := 100; gpu_cap_percent := Some 100;
    ram_cap_percent := 100; task_allowlist := all_task_types;
    role_preference := AUTO |}
|}.

(** The two tables. *)
Record CoordinatorRepository := {
  nodes : gmap string NodeRecord.t;
  jobs : gmap string JobRecord.t
}.

Definition with_nodes (ns : gmap string NodeRecord.t)
  (repo : CoordinatorRepository) : CoordinatorRepository :=
  {| nodes := ns; jobs := jobs repo |}.

Definition with_jobs (js : gmap string JobRecord.t)
  (repo : CoordinatorRepository) : CoordinatorRepository :=
  {| nodes := nodes repo; jobs := js |}.

Definition empty_repository : CoordinatorRepository :=
  {| nodes := ∅; jobs := ∅ |}.

Definition _to_node (row : NodeRecord.t) : Node := {|
  identity := {|
    node_id := NodeRecord.node_id row;
    display_name := NodeRecord.display_name row;
    ip := NodeRecord.ip row;
    port := NodeRecord.port row |};
  capabilities := NodeRecord.capabilities_json row;
  metrics := NodeRecord.metrics_json row;
  policy := NodeRecord.policy_json row;
  status := NodeRecord.status row;
  last_seen := NodeRecord.last_seen row;
  created_at := NodeRecord.created_at row;
  updated_at := NodeRecord.updated_at row
|}.

(** [Job(...)] validates what it is given ([models/job.py]): a text that
    is longer than its field allows raises pydantic's [ValidationError],
    which is a [ValueError]; its message starts with this line and goes on
    with the field, the bound and the value.  Every row of the table has
    passed this validation when it was written, so [_to_job] can only
    refuse a field that the operation calling it has just set. *)
Definition max_length (bound : nat) (text : option string) : bool :=
  match text with
  | Some text => (String.length text <=? bound)%nat
  | None => true
  end.

Definition ValidationError : exn := ValueError "1 validation error for Job".

(** An INTEGER column takes a signed 64-bit number; the driver raises
    [OverflowError] on any other when it is written. *)
Definition fits_INTEGER (n : Z) : bool := (- 2 ^ 63 <=? n) && (n <? 2 ^ 63).

Definition INTEGER_overflow : exn :=
  OverflowError "Python int too large to convert to SQLite INTEGER".

Definition _to_job (row : JobRecord.t) : Job := {|
  id := JobRecord.id row;
  type := JobRecord.type row;
  job_status := JobRecord.status row;
  payload_ref := JobRecord.payload_ref row;
  assigned_node_id := JobRecord.assigned_node_id row;
  attempts := JobRecord.attempts row;
  job_created_at := JobRecord.created_at row;
  job_updated_at := JobRecord.updated_at row;
  started_at := JobRecord.started_at row;
  completed_at := JobRecord.completed_at row;
  error := JobRecord.error row
|}.

Section operations.
Context `{ModelDefaults}.

Definition _ensure_node (session : gmap string NodeRecord.t)
  (now : datetime) (node_id : string)
  : gmap string NodeRecord.t * NodeRecord.t :=
  match session !! node_id with
  | Some node => (session, node)
  | None =>
      let node :=
        NodeRecord.mk node_id node_id "0.0.0.0" 0 UNKNOWN
          NodeCapabilities_default NodeMetrics_default NodePolicy_default
          now now now in
      (<[node_id := node]> session, node)
  end.

Definition upsert_node_identity (repo : CoordinatorRepository)
  (now now' : datetime) (node_id display_name ip : string) (port : Z)
  : CoordinatorRepository * Node :=
  let '(session, node) := _ensure_node (nodes repo) now' node_id in
  let node := NodeRecord.set_display_name display_name node in
  let node := NodeRecord.set_ip ip node in
  let node := NodeRecord.set_port port node in
  let node := NodeRecord.set_updated_at now node in
  (with_nodes (<[node_id := node]> session) repo, _to_node node).

Definition upsert_node_capabilities (repo : CoordinatorRepository)
  (now now' : datetime) (node_id : string) (capabilities : NodeCapabilities)
  : CoordinatorRepository * Node :=
  let payload := capabilities in
  let '(session, node) := _ensure_node (nodes repo) now' node_id in
  let node := NodeRecord.set_capabilities_json payload node in
  let node := NodeRecord.set_updated_at now node in
  (with_nodes (<[node_id := node]> session) repo, _to_node node).

(** [node.last_seen = payload.heartbeat_ts] puts the value with its zone
    into the object of the session, and that object is what [_to_node]
    reads for the node returned; the row that [flush] writes keeps the
    digits of the value. *)
Definition update_node_metrics (repo : CoordinatorRepository)
  (now now' : datetime) (node_id : string) (metrics : NodeMetrics)
  : CoordinatorRepository * Node :=
  let payload := metrics in
  let '(session, node) := _ensure_node (nodes repo) now' node_id in
  let node := NodeRecord.set_metrics_json payload node in
  let node := NodeRecord.set_status ONLINE node in
  let node :=
    NodeRecord.set_last_seen (instant (heartbeat_ts payload)) node in
  let node := NodeRecord.set_updated_at now node in
  let flushed :=
    NodeRecord.set_last_seen (wall_clock (heartbeat_ts payload)) node in
  (with_nodes (<[node_id := flushed]> session) repo, _to_node node).

Definition get_node (repo : CoordinatorRepository) (node_id : string)
  : option Node :=
  match nodes repo !! node_id with
  | None => None
  | Some row => Some (_to_node row)
  end.

Definition update_node_policy (repo : CoordinatorRepository)
  (now now' : datetime) (node_id : string) (policy : NodePolicy)
  : CoordinatorRepository * Node :=
  let payload := policy in
  let '(session, node) := _ensure_node (nodes repo) now' node_id in
  let node := NodeRecord.set_policy_json payload node in
  let node := NodeRecord.set_updated_at now node in
  (with_nodes (<[node_id := node]> session) repo, _to_node node).

End operations.

(** The condition of the sweep on one row:
    [last_seen < cutoff and status != OFFLINE]. *)
Definition is_stale (cutoff : datetime) (node : NodeRecord.t) : bool :=
  bool_decide (NodeRecord.last_seen node < cutoff)
  && negb (bool_decide (NodeRecord.status node = OFFLINE)).

(** What the sweep does to a row that meets the condition. *)
Definition demote (now : datetime) (node : NodeRecord.t) : NodeRecord.t :=
  let node := NodeRecord.set_status OFFLINE node in
  let node := NodeRecord.set_updated_at now node in
  node.

(** The body of the sweep's loop: one row, the table and the list of
    changed nodes so far. *)
Definition sweep_row (now cutoff : datetime)
  (acc : gmap string NodeRecord.t * list Node)
  (entry : string * NodeRecord.t)
  : gmap string NodeRecord.t * list Node :=
  let '(session, updated_nodes) := acc in
  let '(key, node) := entry in
  if is_stale cutoff node
  then
    let node := demote now node in
    (<[key := node]> session, updated_nodes ++ [_to_node node])
  else (session, updated_nodes).

(** [select(NodeRecord)] has no ORDER BY: the rows come in the order of
    the table, which is not fixed here, so the list returned is the list
    of the code up to the order of its items.  The cutoff is taken to be a
    date that [datetime] can hold ([representable]); the code raises
    [OverflowError] before it reads the table when it is not. *)
Definition mark_offline_if_stale_nodes (repo : CoordinatorRepository)
  (now : datetime) (stale_seconds : Z) : CoordinatorRepository * list Node :=
  let cutoff := now - timedelta_seconds stale_seconds in
  let rows := map_to_list (nodes repo) in
  let '(session, updated_nodes) :=
    foldl (sweep_row now cutoff) (nodes repo, []) rows in
  (with_nodes session repo, updated_nodes).

Definition mark_offline_if_stale (repo : CoordinatorRepository)
  (now : datetime) (stale_seconds : Z) : CoordinatorRepository * Z :=
  let '(repo, changed) := mark_offline_if_stale_nodes repo now stale_seconds in
  (repo, Z.of_nat (length changed)).

(** The job given is a [Job], validated when it was made.  The INSERT
    binds the values of the row before it runs, so a number of attempts
    that the column cannot take is refused before the id is looked at.
    The timestamps of the job are taken in UTC. *)
Definition create_job (repo : CoordinatorRepository) (job : Job)
  : CoordinatorRepository * result Job :=
  let payload := job in
  if negb (fits_INTEGER (attempts payload)) then (repo, Err INTEGER_overflow)
  else
    match jobs repo !! id payload with
    | Some _ => (repo, Err (IntegrityError (id payload)))
    | None =>
        let row :=
          JobRecord.mk (id payload) (type payload) (job_status payload)
            (payload_ref payload) (assigned_node_id payload)
            (attempts payload) (job_created_at payload)
            (job_updated_at payload) (started_at payload)
            (completed_at payload) (error payload) in
        (with_jobs (<[id payload := row]> (jobs repo)) repo, Ok (_to_job row))
    end.

Definition get_job (repo : CoordinatorRepository) (job_id : string)
  : option Job :=
  match jobs repo !! job_id with
  | None => None
  | Some row => Some (_to_job row)
  end.

Definition assign_job (repo : CoordinatorRepository) (now : datetime)
  (job_id : string) (node_id : option string)
  : CoordinatorRepository * result Job :=
  match jobs repo !! job_id with
  | None => (repo, Err (KeyError job_id))
  | Some row =>
      let row := JobRecord.set_assigned_node_id node_id row in
      let row := JobRecord.set_updated_at now row in
      if max_length 128 (JobRecord.assigned_node_id row)
      then (with_jobs (<[job_id := row]> (jobs repo)) repo, Ok (_to_job row))
      else (repo, Err ValidationError)
  end.

(** The part of [transition_job_status] after the status change has been
    admitted: [row.status], [row.updated_at] and the fields that go with
    the new status. *)
Definition enter_status (now : datetime) (new_status : JobStatus)
  (error : option string) (row : JobRecord.t) : JobRecord.t :=
  let row := JobRecord.set_status new_status row in
  let row := JobRecord.set_updated_at now row in
  match new_status with
  | RUNNING =>
      let row :=
        JobRecord.set_started_at
          (Some (default now (JobRecord.started_at row))) row in
      let row :=
        JobRecord.set_attempts
          ((if JobRecord.attempts row =? 0 then 0 else JobRecord.attempts row)
           + 1) row in
      JobRecord.set_error None row
  | COMPLETED =>
      let row := JobRecord.set_completed_at (Some now) row in
      JobRecord.set_error None row
  | FAILED =>
      let row := JobRecord.set_completed_at (Some now) row in
      JobRecord.set_error
        (py.or_else (py.or_else error (JobRecord.error row))
                    (Some "Job failed")) row
  | _ => row
  end.

(** [session.flush()] writes the columns that have changed, and [_to_job]
    then validates the row: the first can refuse the number of attempts,
    which changes when RUNNING is entered, the second the error text. *)
Definition transition_job_status (repo : CoordinatorRepository)
  (now : datetime) (job_id : string) (new_status : JobStatus)
  (error : option string) : CoordinatorRepository * result Job :=
  match jobs repo !! job_id with
  | None => (repo, Err (KeyError job_id))
  | Some row =>
      let current_status := JobRecord.status row in
      if bool_decide (current_status = new_status) then
        match error with
        | Some _ =>
            let row := JobRecord.set_error error row in
            let row := JobRecord.set_updated_at now row in
            if max_length 2048 (JobRecord.error row)
            then (with_jobs (<[job_id := row]> (jobs repo)) repo,
                  Ok (_to_job row))
            else (repo, Err ValidationError)
        | None => (repo, Ok (_to_job row))
        end
      else if negb (bool_decide
                      (new_status ∈ _ALLOWED_JOB_TRANSITIONS current_status))
      then
        (repo,
         Err (ValueError
                ("Invalid transition from " +:+ JobStatus_value current_status
                 +:+ " to " +:+ JobStatus_value new_status)))
      else
        let row := enter_status now new_status error row in
        if bool_decide (new_status = RUNNING)
           && negb (fits_INTEGER (JobRecord.attempts row))
        then (repo, Err INTEGER_overflow)
        else if max_length 2048 (JobRecord.error row)
        then (with_jobs (<[job_id := row]> (jobs repo)) repo, Ok (_to_job row))
        else (repo, Err ValidationError)
  end.

(** [select(NodeRecord).order_by(NodeRecord.node_id.asc())]: the rows by
    ascending primary key, text compared byte by byte. *)
Definition node_before (a b : string * NodeRecord.t) : bool :=
  String.ltb (NodeRecord.node_id a.2) (NodeRecord.node_id b.2).

Definition get_nodes (repo : CoordinatorRepository) : list Node :=
  let rows := py.sorted_by node_before (map_to_list (nodes repo)) in
  (λ entry, _to_node entry.2) <$> rows.

(** [order_by(JobRecord.created_at.desc(), JobRecord.id.asc())]. *)
Definition job_before (a b : JobRecord.t) : bool :=
  (JobRecord.created_at b <? JobRecord.created_at a)
  || ((JobRecord.created_at a =? JobRecord.created_at b)
      && String.ltb (JobRecord.id a) (JobRecord.id b)).

Definition list_jobs (repo : CoordinatorRepository)
  (status : option JobStatus) (task_type : option TaskType)
  (node_id : option string) : list Job :=
  let stmt := (map_to_list (jobs repo)).*2 in
  let stmt :=
    match status with
    | Some status => filter (λ row, JobRecord.status row = status) stmt
    | None => stmt
    end in
  let stmt :=
    match task_type with
    | Some task_type => filter (λ row, JobRecord.type row = task_type) stmt
    | None => stmt
    end in
  let stmt :=
    match node_id with
    | Some node_id =>
        filter (λ row, JobRecord.assigned_node_id row = Some node_id) stmt
    | None => stmt
    end in
  let rows := py.sorted_by job_before stmt in
  _to_job <$> rows.

End repository.

(** ** api/state.py *)

Module state.

(** Modelled from the spec: the [NodeUpdateEvent] model, section 4.D,
    [NodeUpdate{node_id, status, metrics, updated_at}]. *)
Record NodeUpdateEvent := {
  event_node_id : string;
  event_status : NodeStatus;
  event_metrics : NodeMetrics;
  event_updated_at : datetime
}.

(** [asyncio.Queue(maxsize)]: the pending items, oldest first.  A
    [maxsize] of zero or less makes the queue unbounded. *)
Record Queue := {
  maxsize : Z;
  pending : list NodeUpdateEvent
}.

Definition qsize (q : Queue) : Z := Z.of_nat (length (pending q)).

Definition full (q : Queue) : bool :=
  if maxsize q <=? 0 then false else maxsize q <=? qsize q.

(** [None] is [QueueEmpty]. *)
Definition get_nowait (q : Queue) : option (NodeUpdateEvent * Queue) :=
  match pending q with
  | [] => None
  | item :: rest => Some (item, {| maxsize := maxsize q; pending := rest |})
  end.

(** [None] is [QueueFull]. *)
Definition put_nowait (item : NodeUpdateEvent) (q : Queue) : option Queue :=
  if full q then None
  else Some {| maxsize := maxsize q; pending := pending q ++ [item] |}.

(** The subscriber set holds queue objects; a queue object is its
    identity (a number no other queue of the bus has had) and its current
    content.  [_allocated] counts the queues made so far. *)
Record NodeEventBus := {
  _queue_size : Z;
  _subscribers : gmap nat Queue;
  _allocated : nat
}.

Definition new_NodeEventBus (queue_size : Z) : NodeEventBus :=
  {| _queue_size := queue_size; _subscribers := ∅; _allocated := 0 |}.

Definition subscribe (bus : NodeEventBus) : NodeEventBus * nat :=
  let queue := {| maxsize := _queue_size bus; pending := [] |} in
  let ident := _allocated bus in
  ({| _queue_size := _queue_size bus;
      _subscribers := <[ident := queue]> (_subscribers bus);
      _allocated := S ident |}, ident).


Inductive bus_exn := QueueFull.

(** The body of the loop of [publish] for one queue of the snapshot:
    the queue as the loop leaves it, and whether [put_nowait] raised. *)
Definition deliver (event : NodeUpdateEvent) (queue : Queue)
  : Queue * option bus_exn :=
  let queue :=
    if full queue then
      match get_nowait queue with
      | Some (_, queue) => queue
      | None => queue
      end
    else queue in
  match put_nowait event queue with
  | Some queue => (queue, None)
  | None => (queue, Some QueueFull)
  end.

(** The loop of [publish] over the snapshot; an exception ends it and
    leaves the queues served so far as they are. *)
Fixpoint publish_loop (event : NodeUpdateEvent)
  (subscribers : list (nat * Queue)) (live : gmap nat Queue)
  : gmap nat Queue * option bus_exn :=
  match subscribers with
  | [] => (live, None)
  | (ident, queue) :: rest =>
      match deliver event queue with
      | (queue, None) => publish_loop event rest (<[ident := queue]> live)
      | (queue, Some e) => (<[ident := queue]> live, Some e)
      end
  end.

Definition publish (bus : NodeEventBus) (event : NodeUpdateEvent)
  : NodeEventBus * option bus_exn :=
  let subscribers := map_to_list (_subscribers bus) in
  let '(live, raised) := publish_loop event subscribers (_subscribers bus) in
  ({| _queue_size := _queue_size bus;
      _subscribers := live;
      _allocated := _allocated bus |}, raised).

(** [collections.deque.append] with [maxlen = Some m]: the item goes to the
    right end, and the left end is dropped when the deque has grown past
    [m]. *)
Definition deque_append {A} (maxlen : Z) (x : A) (items : list A) : list A :=
  let items := items ++ [x] in
  if maxlen <? Z.of_nat (length items) then drop 1 items else items.

Record MetricsHistoryBuffer := {
  _max_samples : Z;
  _samples : gmap string (list NodeMetrics)
}.

Definition new_MetricsHistoryBuffer (max_samples : Z) : MetricsHistoryBuffer :=
  {| _max_samples := max_samples; _samples := ∅ |}.

(** [self._samples[node_id].append(metrics)].  The [defaultdict] makes the
    deque of a node on first use, and [deque(maxlen=n)] raises [ValueError]
    for a negative [n]: that is the [None] case, and the buffer is as it
    was. *)
Definition append (buf : MetricsHistoryBuffer) (node_id : string)
  (metrics : NodeMetrics) : option MetricsHistoryBuffer :=
  match _samples buf !! node_id with
  | Some items =>
      Some {| _max_samples := _max_samples buf;
              _samples := <[node_id := deque_append (_max_samples buf)
                                         metrics items]> (_samples buf) |}
  | None =>
      if _max_samples buf <? 0 then None
      else
        Some {| _max_samples := _max_samples buf;
                _samples := <[node_id := deque_append (_max_samples buf)
                                           metrics []]> (_samples buf) |}
  end.

Definition get (buf : MetricsHistoryBuffer) (node_id : string) (limit : Z)
  : list NodeMetrics :=
  match _samples buf !! node_id with
  | None => []
  | Some samples =>
      match samples with
      | [] => []
      | _ =>
          let items := samples in
          py.slice_from (- limit) items
      end
  end.

(** The two objects the module makes on import, with the constructors'
    default sizes. *)
Definition node_event_bus : NodeEventBus := new_NodeEventBus 256.
Definition metrics_history_buffer : MetricsHistoryBuffer :=
  new_MetricsHistoryBuffer 256.

End state.

(** ** api/routers/nodes.py *)

Module routers.

Import repository state.

(** What the framework sends back: the route's return value under its
    success status, or the [HTTPException] it raised. *)
Inductive response (A : Type) :=
| Response (status_code : Z) (body : A)
| HTTPException (status_code : Z) (detail : string).
Arguments Response {A} status_code body.
Arguments HTTPException {A} status_code detail.

Definition status_code {A} (r : response A) : Z :=
  match r with
  | Response c _ => c
  | HTTPException c _ => c
  end.

(** Modelled from the spec: the [NodeDetail] model, section 6,
    [{node, metrics_history?}]. *)
Record NodeDetail := {
  node : Node;
  metrics_history : option (list NodeMetrics)
}.

(** [history_limit] is declared [Query(default=20, ge=1, le=500)]: the
    framework answers 422 to a value outside the range and does not call
    the route. *)
Definition get_node_detail (repo : CoordinatorRepository)
  (history : MetricsHistoryBuffer) (node_id : string)
  (include_metrics_history : bool) (history_limit : Z)
  : response NodeDetail :=
  if (history_limit <? 1) || (500 <? history_limit)
  then HTTPException 422 "history_limit"
  else
    match get_node repo node_id with
    | None =>
        HTTPException 404 ("Node '" +:+ node_id +:+ "' not found")
    | Some node =>
        let history :=
          if include_metrics_history
          then Some (get history node_id history_limit)
          else None in
        Response 200 {| node := node; metrics_history := history |}
    end.

Definition put_node_policy `{ModelDefaults} (repo : CoordinatorRepository)
  (now now' : datetime) (node_id : string) (policy : NodePolicy)
  : CoordinatorRepository * response Node :=
  let '(repo, node) := update_node_policy repo now now' node_id policy in
  (repo, Response 200 node).

(** [api/routers/jobs.py], [transition_job_status_route]: [KeyError] is
    answered with 404, [ValueError] with 409; any other exception is the
    framework's 500. *)
Definition transition_job_status_route (repo : CoordinatorRepository)
  (now : datetime) (job_id : string) (payload_status : JobStatus)
  (payload_error : option string) : CoordinatorRepository * response Job :=
  match transition_job_status repo now job_id payload_status payload_error with
  | (repo, Ok job) => (repo, Response 200 job)
  | (repo, Err (KeyError _)) =>
      (repo, HTTPException 404 ("Job '" +:+ job_id +:+ "' not found"))
  | (repo, Err (ValueError message)) => (repo, HTTPException 409 message)
  | (repo, Err (IntegrityError _)) | (repo, Err (OverflowError _)) =>
      (repo, HTTPException 500 "Internal Server Error")
  end.

End routers.

(** ** Sequences of calls

    The properties below that speak of "every sequence" of calls are stated
    over these runs of the operations above. *)

Module runs.

Import repository state.

(** The last [k] items of a list, oldest first (all of them when there are
    fewer). *)
Definition lastn {A} (k : nat) (l : list A) : list A :=
  drop (length l - k) l.

(** One call [transition_job_status(job_id, new_status, error)] made at
    time [now]. *)
Record transition_request := {
  at_time : datetime;
  new_status : JobStatus;
  with_error : option string
}.

(** A sequence of status updates of one job; [None] as soon as one of them
    raises (the sequence has left the state machine). *)
Fixpoint run_transitions (repo : CoordinatorRepository) (job_id : string)
  (requests : list transition_request) : option CoordinatorRepository :=
  match requests with
  | [] => Some repo
  | r :: rest =>
      match transition_job_status repo (at_time r) job_id (new_status r)
              (with_error r) with
      | (repo, Ok _) => run_transitions repo job_id rest
      | (_, Err _) => None
      end
  end.

(** A sequence of [append] calls on the history buffer; [None] when one of
    them raises. *)
Fixpoint run_appends (buf : MetricsHistoryBuffer)
  (calls : list (string * NodeMetrics)) : option MetricsHistoryBuffer :=
  match calls with
  | [] => Some buf
  | (node_id, metrics) :: rest =>
      match append buf node_id metrics with
      | Some buf => run_appends buf rest
      | None => None
      end
  end.

(** The samples a sequence of [append] calls offered for one node, in call
    order. *)
Definition appended_for (node_id : string)
  (calls : list (string * NodeMetrics)) : list NodeMetrics :=
  snd <$> filter (λ call, call.1 = node_id) calls.





End runs.

(** ** Vocabulary of the statements *)

Module statements.

Import scheduler.

(** One reason, present or not. *)
Definition when (b : bool) (r : string) : list string :=
  if b then [r] else [].

Definition reason_names : list string :=
  ["policy_disabled"; "node_not_online"; "task_not_allowed";
   "cpu_over_cap"; "ram_over_cap"; "gpu_required"; "gpu_over_cap"].

Definition gpu_over_cap (node : Node) : bool :=
  match gpu_percent (metrics node) with
  | Some g => py.gt g (inject_Z (gpu_cap_or_100 (policy node)))
  | None => false
  end.

(** The zero [round] gives when it rounds [x] to nothing: that of the
    sign of [x]. *)
Definition signed_zero (x : binary64.float) : binary64.float :=
  match x with
  | S754_finite s _ _ => S754_zero s
  | _ => x
  end.

(** The allowed job transitions in the words of the design document,
    section 3: QUEUED→RUNNING; RUNNING→{COMPLETED, FAILED}. *)
Definition allowed_successor (current new_status : JobStatus) : Prop :=
  (current = QUEUED ∧ new_status = RUNNING)
  ∨ (current = RUNNING ∧ (new_status = COMPLETED ∨ new_status = FAILED)).

(** A status update enters [s]: it asks for [s] and the job is not in [s]
    yet. *)
Definition enters (s : JobStatus) (row : JobRecord.t)
  (r : runs.transition_request) : Prop :=
  runs.new_status r = s ∧ JobRecord.status row ≠ s.

(** A queue of a bus made with [queue_size]: it has that [maxsize] and,
    when bounded, holds no more than that. *)
Definition queue_ok (queue_size : Z) (q : state.Queue) : Prop :=
  state.maxsize q = queue_size
  ∧ (0 < queue_size → Z.of_nat (length (state.pending q)) ≤ queue_size).

(** Every queue of the bus is such a queue, and was made by the bus. *)
Definition bus_ok (bus : state.NodeEventBus) : Prop :=
  ∀ ident q,
    state._subscribers bus !! ident = Some q →
    queue_ok (state._queue_size bus) q
    ∧ (ident < state._allocated bus)%nat.

(** What [publish] is to leave in a queue: the oldest pending event gone
    when the queue was full, the new event at the end. *)
Definition delivered (event : state.NodeUpdateEvent) (q : state.Queue)
  : state.Queue :=
  {| state.maxsize := state.maxsize q;
     state.pending :=
       (if state.full q then drop 1 (state.pending q) else state.pending q)
       ++ [event] |}.


End statements.

(** ** Concrete stores and calls *)

Module examples.

Import repository state runs.

Definition queued_job : JobRecord.t :=
  JobRecord.mk "job-1" EMBEDDINGS QUEUED (Some "demo://payload/1") None 0
    1000 1000 None None None.

Definition running_job : JobRecord.t :=
  JobRecord.mk "job-1" EMBEDDINGS RUNNING (Some "demo://payload/1") None 1
    1000 3000 (Some 2000) None (Some "disk full").

Definition failed_job : JobRecord.t :=
  JobRecord.mk "job-1" EMBEDDINGS FAILED (Some "demo://payload/1") None 1
    1000 4000 (Some 2000) (Some 4000) (Some "disk full").

Definition one_job_repository (row : JobRecord.t) : CoordinatorRepository :=
  {| nodes := ∅; jobs := {[ "job-1" := row ]} |}.

(** The queued job after as many attempts as the column can count. *)
Definition worn_job : JobRecord.t :=
  JobRecord.mk "job-1" EMBEDDINGS QUEUED (Some "demo://payload/1") None
    (2 ^ 63 - 1) 1000 1000 None None None.

(** A text of [n] characters. *)
Fixpoint text_of_length (n : nat) : string :=
  match n with
  | O => ""
  | S n => "x" +:+ text_of_length n
  end.

(** POST status=RUNNING; POST status=RUNNING with an error; POST
    status=FAILED without one. *)
Definition start_request : transition_request :=
  {| at_time := 2000; new_status := RUNNING; with_error := None |}.
Definition note_request : transition_request :=
  {| at_time := 3000; new_status := RUNNING;
     with_error := Some "disk full" |}.
Definition fail_request : transition_request :=
  {| at_time := 4000; new_status := FAILED; with_error := None |}.

(** The error of job-1 after a sequence of status updates of the queued
    job. *)
Definition error_after (requests : list transition_request)
  : option (option string) :=
  match run_transitions (one_job_repository queued_job) "job-1" requests with
  | Some repo => error <$> get_job repo "job-1"
  | None => None
  end.

(** The policy of the example request of [put_node_policy]. *)
Definition inference_policy : NodePolicy := {|
  enabled := true; cpu_cap_percent := 85; gpu_cap_percent := Some 90;
  ram_cap_percent := 80; task_allowlist := [INFERENCE; EMBEDDINGS];
  role_preference := PREFER_INFERENCE |}.

(** The heartbeat sample taken at [ts], and the buffer that holds just one
    sample. *)
Definition sample (ts : datetime) : NodeMetrics := {|
  cpu_percent := 0%Q; ram_used_gb := 0%Q; ram_percent := 0%Q;
  gpu_percent := None; vram_used_gb := None; running_jobs := 0;
  heartbeat_ts := utc ts; extra := [] |}.

Definition idle_metrics : NodeMetrics := sample 1000.

(** A heartbeat stamped 2026-01-01T05:00:00+05:00, which is midnight in
    UTC: [NodeMetrics(cpu_percent=45, ram_percent=65, running_jobs=2,
    heartbeat_ts=datetime(2026, 1, 1, 5, tzinfo=timezone(timedelta(hours=5))))]. *)
Definition zoned_sample : NodeMetrics := {|
  cpu_percent := 45%Q; ram_used_gb := 0%Q; ram_percent := 65%Q;
  gpu_percent := None; vram_used_gb := None; running_jobs := 2;
  heartbeat_ts := {| instant := 1767225600000000;
                     utcoffset := 18000000000 |};
  extra := [] |}.

Definition one_sample_buffer : MetricsHistoryBuffer :=
  {| _max_samples := 256; _samples := {[ "node-1" := [idle_metrics] ]} |}.

(** The update of node-1 published at time [ts]. *)
Definition event (ts : datetime) : NodeUpdateEvent :=
  {| event_node_id := "node-1"; event_status := ONLINE;
     event_metrics := sample ts; event_updated_at := ts |}.

(** The node of [tests/test_scheduler.py], [_build_node]. *)
Definition test_node (with_gpu : bool) (role : RolePreference) : Node := {|
  identity := {| node_id := "n1"; display_name := "Node 1";
                 ip := "127.0.0.1"; port := 9100 |};
  capabilities := {|
    cpu_cores := Some 8; cpu_threads := Some 16;
    ram_total_gb := Some 32%Q;
    gpu_name := if with_gpu then Some "NVIDIA" else None;
    vram_total_gb := if with_gpu then Some 24%Q else None;
    os := Some "linux"; arch := Some "x86_64";
    task_types := [INFERENCE; EMBEDDINGS; INDEX; TOKENIZE];
    labels := if with_gpu then ["gpu"] else ["cpu"];
    has_gpu := with_gpu |};
  metrics := {|
    cpu_percent := 20%Q; ram_used_gb := 10%Q; ram_percent := 30%Q;
    gpu_percent := if with_gpu then Some 40%Q else None;
    vram_used_gb := if with_gpu then Some 5%Q else None;
    running_jobs := 1; heartbeat_ts := utc 1000; extra := [] |};
  policy := {|
    enabled := true; cpu_cap_percent := 50; gpu_cap_percent := Some 75;
    ram_cap_percent := 80;
    task_allowlist := [INFERENCE; EMBEDDINGS; INDEX; TOKENIZE];
    role_preference := role |};
  status := ONLINE; last_seen := 1000; created_at := 1000;
  updated_at := 1000
|}.

(** A node without GPU under the default policy, at 6.25 percent CPU and
    2 percent RAM: its EMBEDDINGS score is 42.1875 + 34.3 + 12 + 14. *)
Definition lightly_loaded_node : Node := {|
  identity := {| node_id := "n2"; display_name := "Node 2";
                 ip := "127.0.0.1"; port := 9100 |};
  capabilities := NodeCapabilities_default (ModelDefaults := documented_defaults);
  metrics := {|
    cpu_percent := (625 # 100)%Q; ram_used_gb := 1%Q; ram_percent := 2%Q;
    gpu_percent := None; vram_used_gb := None;
    running_jobs := 0; heartbeat_ts := utc 1000; extra := [] |};
  policy := NodePolicy_default (ModelDefaults := documented_defaults);
  status := ONLINE; last_seen := 1000; created_at := 1000;
  updated_at := 1000
|}.

(** The same node reporting 60 percent CPU, over its cap of 50. *)
Definition busy_test_node : Node :=
  let n := test_node true AUTO in
  {| identity := identity n; capabilities := capabilities n;
     metrics := {|
       cpu_percent := 60%Q; ram_used_gb := 10%Q; ram_percent := 30%Q;
       gpu_percent := Some 40%Q; vram_used_gb := Some 5%Q;
       running_jobs := 1; heartbeat_ts := utc 1000; extra := [] |};
     policy := policy n; status := status n; last_seen := last_seen n;
     created_at := created_at n; updated_at := updated_at n |}.

(** Scenario "stale demotion": node-1 was last seen 120 s before the
    sweep, node-2 10 s before it; the sweep runs at 500 s with
    [stale_seconds = 60]. *)
Definition seen_row (node_id : string) (status : NodeStatus)
  (last_seen : datetime) : NodeRecord.t :=
  NodeRecord.mk node_id node_id "127.0.0.1" 9100 status
    (NodeCapabilities_default (ModelDefaults := documented_defaults))
    (sample last_seen) (NodePolicy_default (ModelDefaults := documented_defaults))
    last_seen 1000 last_seen.

Definition two_node_repository : CoordinatorRepository :=
  {| nodes := {[ "node-1" := seen_row "node-1" ONLINE 380000000;
                 "node-2" := seen_row "node-2" ONLINE 490000000 ]};
     jobs := ∅ |}.

End examples.

(** ** Vocabulary of the further properties *)

Module vocabulary.

(** In the order of a sort: [a] may stand in front of [b], because [b]
    does not sort strictly before it. *)
Definition in_order {A} (before : A → A → bool) (a b : A) : Prop :=
  before b a = false.

(** What a job says, its timestamps apart. *)
Definition content (job : Job)
  : string * TaskType * JobStatus * option string * option string * Z
    * option string :=
  (id job, type job, job_status job, payload_ref job, assigned_node_id job,
   attempts job, error job).

(** The job as [assign_job] returns it. *)
Definition reassigned (node_id : option string) (now : datetime) (job : Job)
  : Job :=
  {| id := id job; type := type job; job_status := job_status job;
     payload_ref := payload_ref job; assigned_node_id := node_id;
     attempts := attempts job; job_created_at := job_created_at job;
     job_updated_at := now; started_at := started_at job;
     completed_at := completed_at job; error := error job |}.

(** COMPLETED, FAILED and CANCELLED. *)
Definition terminal (s : JobStatus) : Prop :=
  s = COMPLETED ∨ s = FAILED ∨ s = CANCELLED.

(** How far a job has moved from [row] to [row']: it is counted as started
    once when it has left QUEUED, it never comes back to QUEUED, and what
    was there when it reached a terminal status stays. *)
Definition job_progress (row row' : JobRecord.t) : Prop :=
  JobRecord.attempts row'
  = JobRecord.attempts row
    + (if bool_decide (JobRecord.status row = QUEUED
                       ∧ JobRecord.status row' ≠ QUEUED) then 1 else 0)
  ∧ (JobRecord.status row' = QUEUED → JobRecord.status row = QUEUED)
  ∧ (JobRecord.status row = RUNNING →
       JobRecord.status row' = RUNNING ∨ terminal (JobRecord.status row'))
  ∧ (terminal (JobRecord.status row) →
       JobRecord.status row' = JobRecord.status row
       ∧ JobRecord.started_at row' = JobRecord.started_at row
       ∧ JobRecord.completed_at row' = JobRecord.completed_at row).

(** Every row sits under its own primary key. *)
Definition store_keyed (repo : repository.CoordinatorRepository) : Prop :=
  (∀ key row, repository.nodes repo !! key = Some row →
              NodeRecord.node_id row = key)
  ∧ (∀ key row, repository.jobs repo !! key = Some row →
                JobRecord.id row = key).

(** What the staleness sweep makes of a row. *)
Definition swept (now cutoff : datetime) (row : NodeRecord.t)
  : NodeRecord.t :=
  if repository.is_stale cutoff row then repository.demote now row else row.

End vocabulary.

From stdpp Require Import pretty.

Local Open Scope Z_scope.

(** ** api/routers/jobs.py: parsing, node choice, job creation *)

Module jobs.

Import scheduler repository routers.

(** What the framework answers when the route raises something that is
    not an [HTTPException]. *)
Definition internal_server_error {A} : response A :=
  HTTPException 500 "Internal Server Error".

(** [api/schemas.py], [JobCreateRequest]. *)
Record JobCreateRequest := {
  task_type : string;
  payload_ref : option string
}.

Section parsing.

(** [raw.strip()] and [raw.upper()] follow the Unicode tables; they are
    taken as they are. *)
Variables (strip upper : string → string).

(** The right case is the [HTTPException] raised: status code and
    detail. *)
Definition _parse_task_type (raw : string) : TaskType + Z * string :=
  let normalized := upper (strip raw) in
  let mapping : list (string * TaskType) :=
    [ ("INFER", INFERENCE);
      ("INFERENCE", INFERENCE);
      ("EMBED", EMBEDDINGS);
      ("EMBEDDING", EMBEDDINGS);
      ("EMBEDDINGS", EMBEDDINGS);
      ("INDEX", INDEX);
      ("TOKENIZE", TOKENIZE);
      ("PREPROCESS", PREPROCESS);
      ("PREPROCESSING", PREPROCESS) ] in
  match (list_to_map mapping : gmap string TaskType) !! normalized with
  | None => inr (422, "Unsupported task_type '" +:+ raw +:+ "'")
  | Some task_type => inl task_type
  end.

Definition _parse_job_status (raw : string) : JobStatus + Z * string :=
  let normalized := upper (strip raw) in
  let mapping : list (string * JobStatus) :=
    [ ("QUEUED", QUEUED);
      ("RUNNING", RUNNING);
      ("COMPLETED", COMPLETED);
      ("FAILED", FAILED);
      ("CANCELLED", CANCELLED) ] in
  match (list_to_map mapping : gmap string JobStatus) !! normalized with
  | None => inr (422, "Unsupported status '" +:+ raw +:+ "'")
  | Some parsed => inl parsed
  end.

(** A candidate is [(node_id, eligible, score)]. *)
Definition _pick_node_for_task (repo : CoordinatorRepository)
  (task_type : TaskType) : option string :=
  let candidates :=
    (λ node,
       let '(eligible, _) := evaluate_node_eligibility node task_type in
       let score := score_node node task_type in
       (node_id (identity node), eligible, score)) <$> get_nodes repo in
  let candidates :=
    py.sorted_by (py.descending (λ item, (item.1.2, item.2))) candidates in
  let chosen := List.find (λ candidate, candidate.1.2) candidates in
  match chosen with
  | Some chosen => Some chosen.1.1
  | None => None
  end.

(** [hex] is [uuid.uuid4().hex[:12]]; [now] and [now'] are the clock
    readings of the two [default_factory] calls of [Job].  A string is the
    sequence of its characters, so [String.length] is [len]: the model
    [Job] refuses an [assigned_node_id] of more than 128 characters, and
    the [ValidationError] it raises, like the [IntegrityError] of an id
    already stored, is not an [HTTPException]. *)
Definition create_job_route (repo : CoordinatorRepository) (hex : string)
  (now now' : datetime) (payload : JobCreateRequest)
  : CoordinatorRepository * response Job :=
  match _parse_task_type (task_type payload) with
  | inr (code, detail) => (repo, HTTPException code detail)
  | inl task_type =>
      let assigned_node_id := _pick_node_for_task repo task_type in
      let too_long :=
        match assigned_node_id with
        | Some node_id => (128 <? String.length node_id)%nat
        | None => false
        end in
      if too_long then (repo, internal_server_error)
      else
        let job := {|
          id := "job-" +:+ hex;
          type := task_type;
          job_status := QUEUED;
          models.payload_ref := payload_ref payload;
          assigned_node_id := assigned_node_id;
          attempts := 0;
          job_created_at := now;
          job_updated_at := now';
          started_at := None;
          completed_at := None;
          error := None |} in
        match create_job repo job with
        | (repo, Ok job) => (repo, Response 201 job)
        | (repo, Err _) => (repo, internal_server_error)
        end
  end.

(** The query parameters are optional; a filter that does not parse ends
    the request before the store is read. *)
Definition list_jobs_route (repo : CoordinatorRepository)
  (status_filter task_type_filter node_id : option string)
  : response (list Job) :=
  let status_value :=
    match status_filter with
    | Some raw =>
        match _parse_job_status raw with
        | inl s => inl (Some s)
        | inr e => inr e
        end
    | None => inl None
    end in
  match status_value with
  | inr (code, detail) => HTTPException code detail
  | inl status_value =>
      let task_type_value :=
        match task_type_filter with
        | Some raw =>
            match _parse_task_type raw with
            | inl t => inl (Some t)
            | inr e => inr e
            end
        | None => inl None
        end in
      match task_type_value with
      | inr (code, detail) => HTTPException code detail
      | inl task_type_value =>
          Response 200 (list_jobs repo status_value task_type_value node_id)
      end
  end.

End parsing.

Definition get_job_route (repo : CoordinatorRepository) (job_id : string)
  : response Job :=
  match get_job repo job_id with
  | None => HTTPException 404 ("Job '" +:+ job_id +:+ "' not found")
  | Some job => Response 200 job
  end.







End jobs.

(** ** api/routers/simulate.py *)

Module simulate.

Import scheduler repository routers.



Section parsing.

Variables (strip upper : string → string).

Definition _parse_task_type (raw : string) : TaskType + Z * string :=
  let normalized := upper (strip raw) in
  let mapping : list (string * TaskType) :=
    [ ("INFER", INFERENCE);
      ("INFERENCE", INFERENCE);
      ("EMBED", EMBEDDINGS);
      ("EMBEDDING", EMBEDDINGS);
      ("EMBEDDINGS", EMBEDDINGS);
      ("INDEX", INDEX);
      ("TOKENIZE", TOKENIZE);
      ("PREPROCESS", PREPROCESS);
      ("PREPROCESSING", PREPROCESS) ] in
  match (list_to_map mapping : gmap string TaskType) !! normalized with
  | None => inr (422, "Unsupported task_type '" +:+ raw +:+ "'")
  | Some task_type => inl task_type
  end.


End parsing.

End simulate.

(** ** api/schemas.py: the agent payloads *)

Module schemas.

Module AgentCapabilitiesPayload.
Record t := mk {
  cpu_cores : option Z;
  cpu_threads : option Z;
  ram_total_gb : option Q;
  gpu_name : option string;
  vram_total_gb : option Q;
  os : option string;
  arch : option string;
  task_types : list TaskType;
  labels : list string
}.

(** The [model_validator(mode="after")]: it runs on every payload that is
    built, on a request body as on a direct call of the class. *)
Definition default_task_types (self : t) : t :=
  if bool_decide (task_types self = [])
  then mk (cpu_cores self) (cpu_threads self) (ram_total_gb self)
          (gpu_name self) (vram_total_gb self) (os self) (arch self)
          all_task_types (labels self)
  else self.
End AgentCapabilitiesPayload.

Module AgentRegisterV1Request.
Record t := mk {
  node_id : string;
  display_name : string;
  ip : string;
  port : Z;
  capabilities : AgentCapabilitiesPayload.t
}.
End AgentRegisterV1Request.

Module AgentHeartbeatMetricsPayload.
Record t := mk {
  cpu_percent : Q;
  ram_used_gb : Q;
  ram_percent : Q;
  gpu_percent : option Q;
  vram_used_gb : option Q;
  running_jobs : Z
}.
End AgentHeartbeatMetricsPayload.

Module AgentHeartbeatV1Request.
Record t := mk {
  node_id : string;
  metrics : AgentHeartbeatMetricsPayload.t
}.
End AgentHeartbeatV1Request.

End schemas.
Export schemas.

(** ** api/services.py *)

Module services.

Import repository state.

(** The three objects the services work on: the repository behind
    [db], and the history buffer and event bus of [api.state]. *)
Record coordinator := {
  db : CoordinatorRepository;
  history : MetricsHistoryBuffer;
  events : NodeEventBus
}.

(** What a service call can raise: [ValueError] from the history buffer,
    [QueueFull] from the event bus. *)
Inductive raised := HistoryValueError | BusQueueFull.

Section text.

(** [label.strip()] and [label.lower()], taken as they are. *)
Variables (strip lower : string → string).

Definition _extract_task_types (labels : list string) : list TaskType :=
  let mapping : list (string * TaskType) :=
    [ ("infer", INFERENCE);
      ("inference", INFERENCE);
      ("embed", EMBEDDINGS);
      ("embedding", EMBEDDINGS);
      ("embeddings", EMBEDDINGS);
      ("index", INDEX);
      ("tokenize", TOKENIZE);
      ("preprocess", PREPROCESS);
      ("preprocessing", PREPROCESS) ] in
  foldl
    (λ task_types label,
       match (list_to_map mapping : gmap string TaskType)
               !! lower (strip label) with
       | Some task_type =>
           if bool_decide (task_type ∈ task_types) then task_types
           else task_types ++ [task_type]
       | None => task_types
       end)
    [] labels.

Definition _normalize_task_types (task_types : list TaskType)
  (labels : list string) : list TaskType :=
  let normalized :=
    foldl
      (λ normalized task_type,
         if bool_decide (task_type ∈ normalized) then normalized
         else normalized ++ [task_type])
      [] task_types in
  let normalized :=
    if bool_decide (normalized = []) then _extract_task_types labels
    else normalized in
  let normalized :=
    if bool_decide (normalized = []) then all_task_types else normalized in
  normalized.

Definition _build_node_capabilities (payload : AgentCapabilitiesPayload.t)
  : NodeCapabilities :=
  let task_types :=
    _normalize_task_types (AgentCapabilitiesPayload.task_types payload)
      (AgentCapabilitiesPayload.labels payload) in
  let has_gpu :=
    bool_decide (AgentCapabilitiesPayload.gpu_name payload ≠ None)
    || bool_decide (AgentCapabilitiesPayload.vram_total_gb payload ≠ None) in
  {| task_types := task_types;
     labels := AgentCapabilitiesPayload.labels payload;
     has_gpu := has_gpu;
     cpu_cores := AgentCapabilitiesPayload.cpu_cores payload;
     cpu_threads := AgentCapabilitiesPayload.cpu_threads payload;
     ram_total_gb := AgentCapabilitiesPayload.ram_total_gb payload;
     gpu_name := AgentCapabilitiesPayload.gpu_name payload;
     vram_total_gb := AgentCapabilitiesPayload.vram_total_gb payload;
     os := AgentCapabilitiesPayload.os payload;
     arch := AgentCapabilitiesPayload.arch payload |}.

(** The two upserts read the clock on their own: [now1], [now1'] for the
    first and [now2], [now2'] for the second. *)
Definition register_agent_v1 `{ModelDefaults} (repo : CoordinatorRepository)
  (now1 now1' now2 now2' : datetime) (payload : AgentRegisterV1Request.t)
  : CoordinatorRepository * Node :=
  let '(repo, _) :=
    upsert_node_identity repo now1 now1'
      (AgentRegisterV1Request.node_id payload)
      (AgentRegisterV1Request.display_name payload)
      (AgentRegisterV1Request.ip payload)
      (AgentRegisterV1Request.port payload) in
  upsert_node_capabilities repo now2 now2'
    (AgentRegisterV1Request.node_id payload)
    (_build_node_capabilities (AgentRegisterV1Request.capabilities payload)).

End text.

Section heartbeat.

(** [payload.metrics.model_dump(mode="json", exclude_none=True)], taken as
    it is. *)
Variable model_dump : AgentHeartbeatMetricsPayload.t → list (string * string).

(** Modelled from the spec: [NodeMetrics(...)] without a [heartbeat_ts]
    takes the clock in UTC, here [ts].  An exception leaves what was done
    before it: the store is written first, then the history, then the
    bus. *)
Definition heartbeat_agent_v1 `{ModelDefaults} (app : coordinator)
  (ts now now' : datetime) (payload : AgentHeartbeatV1Request.t)
  : coordinator * (NodeUpdateEvent + raised) :=
  let sent := AgentHeartbeatV1Request.metrics payload in
  let metrics := {|
    cpu_percent := AgentHeartbeatMetricsPayload.cpu_percent sent;
    ram_used_gb := AgentHeartbeatMetricsPayload.ram_used_gb sent;
    ram_percent := AgentHeartbeatMetricsPayload.ram_percent sent;
    gpu_percent := AgentHeartbeatMetricsPayload.gpu_percent sent;
    vram_used_gb := AgentHeartbeatMetricsPayload.vram_used_gb sent;
    running_jobs := AgentHeartbeatMetricsPayload.running_jobs sent;
    heartbeat_ts := utc ts;
    extra := model_dump sent |} in
  let '(repo, node) :=
    update_node_metrics (db app) now now'
      (AgentHeartbeatV1Request.node_id payload) metrics in
  match append (history app) (AgentHeartbeatV1Request.node_id payload)
          (models.metrics node) with
  | None =>
      ({| db := repo; history := history app; events := events app |},
       inr HistoryValueError)
  | Some buffer =>
      let event := {|
        event_node_id := node_id (identity node);
        event_status := status node;
        event_metrics := models.metrics node;
        event_updated_at := updated_at node |} in
      match publish (events app) event with
      | (bus, Some QueueFull) =>
          ({| db := repo; history := buffer; events := bus |},
           inr BusQueueFull)
      | (bus, None) =>
          ({| db := repo; history := buffer; events := bus |}, inl event)
      end
  end.

End heartbeat.

End services.

(** ** agent/src/agent_service/main.py: the agent loop *)

Module agent_service.

(** The two variables [run_agent] keeps across the passes of its loop. *)
Record loop_state := {
  registered : bool;
  retry_delay : Q
}.

(** How a request of the agent ends: [register] and [send_heartbeat]
    return, or raise (a refused connection, a timeout, an error status). *)
Inductive outcome := Returns | Raises.

Definition start : loop_state := {| registered := false; retry_delay := 1 |}.

(** One pass of the body of [while True]: the state it leaves and the time
    it sleeps.  [register] is called only when the agent is not
    registered; [heartbeat_seconds] is the setting. *)
Definition pass (heartbeat_seconds : Q) (st : loop_state)
  (register send_heartbeat : outcome) : loop_state * Q :=
  let except (retry_delay : Q) :=
    ({| registered := false;
        retry_delay := py.min (retry_delay * 2) 30 |}, retry_delay) in
  if registered st then
    match send_heartbeat with
    | Returns => (st, heartbeat_seconds)
    | Raises => except (retry_delay st)
    end
  else
    match register with
    | Raises => except (retry_delay st)
    | Returns =>
        match send_heartbeat with
        | Returns =>
            ({| registered := true; retry_delay := 1 |}, heartbeat_seconds)
        | Raises => except 1%Q
        end
    end.

(** The passes of the loop for the outcomes the requests have, in order:
    the state reached and the sleeps taken, first to last. *)
Fixpoint passes (heartbeat_seconds : Q) (st : loop_state)
  (outcomes : list (outcome * outcome)) : loop_state * list Q :=
  match outcomes with
  | [] => (st, [])
  | (register, send_heartbeat) :: rest =>
      let '(st, slept) := pass heartbeat_seconds st register send_heartbeat in
      let '(st, sleeps) := passes heartbeat_seconds st rest in
      (st, slept :: sleeps)
  end.

Definition run_agent (heartbeat_seconds : Q)
  (outcomes : list (outcome * outcome)) : loop_state * list Q :=
  passes heartbeat_seconds start outcomes.

(** The delay after [i] failures in a row: 1, 2, 4, 8, 16, then 30. *)
Definition backoff (i : nat) : Q := Qmin (inject_Z (2 ^ Z.of_nat i)) 30.

End agent_service.

(** ** Further concrete stores and calls *)

Module scenarios.

Import repository state services examples.

(** A dump that keeps nothing of the payload. *)
Definition no_dump (sent : AgentHeartbeatMetricsPayload.t)
  : list (string * string) := [].

(** node-1 reports a quarter of its CPU and half of its memory in use. *)
Definition node_1_heartbeat : AgentHeartbeatV1Request.t :=
  AgentHeartbeatV1Request.mk "node-1"
    (AgentHeartbeatMetricsPayload.mk 25%Q 8%Q 50%Q None None 0).

(** The store of two nodes, the history buffer as [api.state] makes it,
    and a bus with queues of two events and one subscriber. *)
Definition listening : coordinator :=
  {| db := two_node_repository;
     history := metrics_history_buffer;
     events := (subscribe (new_NodeEventBus 2)).1 |}.


End scenarios.

(** ** Vocabulary of the ranking statements *)

Module ranking.

Import scheduler.



End ranking.

(** ** Vocabulary of the service statements *)

Module agents.

(** The capabilities payload with other labels. *)
Definition relabelled (labels : list string)
  (payload : AgentCapabilitiesPayload.t) : AgentCapabilitiesPayload.t :=
  AgentCapabilitiesPayload.mk
    (AgentCapabilitiesPayload.cpu_cores payload)
    (AgentCapabilitiesPayload.cpu_threads payload)
    (AgentCapabilitiesPayload.ram_total_gb payload)
    (AgentCapabilitiesPayload.gpu_name payload)
    (AgentCapabilitiesPayload.vram_total_gb payload)
    (AgentCapabilitiesPayload.os payload)
    (AgentCapabilitiesPayload.arch payload)
    (AgentCapabilitiesPayload.task_types payload)
    labels.

(** The metrics a heartbeat stores: the payload's figures, stamped [ts],
    with the dump of the payload as [extra]. *)
Definition metrics_of
  (model_dump : AgentHeartbeatMetricsPayload.t → list (string * string))
  (ts : datetime) (sent : AgentHeartbeatMetricsPayload.t) : NodeMetrics :=
  {| cpu_percent := AgentHeartbeatMetricsPayload.cpu_percent sent;
     ram_used_gb := AgentHeartbeatMetricsPayload.ram_used_gb sent;
     ram_percent := AgentHeartbeatMetricsPayload.ram_percent sent;
     gpu_percent := AgentHeartbeatMetricsPayload.gpu_percent sent;
     vram_used_gb := AgentHeartbeatMetricsPayload.vram_used_gb sent;
     running_jobs := AgentHeartbeatMetricsPayload.running_jobs sent;
     heartbeat_ts := utc ts;
     extra := model_dump sent |}.

End agents.

(** ** Vocabulary of the statement on the demo burst *)

Module burst.

Import repository.



End burst.

(** * Properties *)

From Stdlib Require Import Lia Lqa.

Import scheduler repository state routers runs statements examples.

(** ** Comparisons and rounding on rationals *)

Lemma gt_spec (a b : Q) : py.gt a b = true ↔ (b < a)%Q.
Proof.
  unfold py.gt. rewrite negb_true_iff, <- not_true_iff_false, Qle_bool_iff.
  split; [apply Qnot_le_lt | apply Qlt_not_le].
Qed.

Lemma gt_false_spec (a b : Q) : py.gt a b = false ↔ (a <= b)%Q.
Proof.
  unfold py.gt. rewrite negb_false_iff. apply Qle_bool_iff.
Qed.

Lemma gt_compat (a a' b b' : Q) :
  (a == a')%Q → (b == b')%Q → py.gt a b = py.gt a' b'.
Proof.
  intros Ha Hb.
  destruct (py.gt a b) eqn:E, (py.gt a' b') eqn:E'; try reflexivity.
  - apply gt_spec in E. apply gt_false_spec in E'.
    rewrite Ha, Hb in E. lra.
  - apply gt_spec in E'. apply gt_false_spec in E.
    rewrite Ha, Hb in E. lra.
Qed.

Lemma py_max_Qmax (a b : Q) : (py.max a b == Qmax a b)%Q.
Proof.
  unfold py.max. destruct (py.gt b a) eqn:E.
  - apply gt_spec in E. symmetry. apply Q.max_r. lra.
  - apply gt_false_spec in E. symmetry. apply Q.max_l. lra.
Qed.

Lemma py_min_Qmin (a b : Q) : (py.min a b == Qmin a b)%Q.
Proof.
  unfold py.min. destruct (py.gt a b) eqn:E.
  - apply gt_spec in E. symmetry. apply Q.min_r. lra.
  - apply gt_false_spec in E. symmetry. apply Q.min_l. lra.
Qed.

Lemma round_half_even_compat (a b : Q) :
  (a == b)%Q → py.round_half_even a = py.round_half_even b.
Proof.
  intros E. unfold py.round_half_even.
  rewrite (Qfloor_comp _ _ E).
  assert (E' : (a - inject_Z (Qfloor b) == b - inject_Z (Qfloor b))%Q)
    by (rewrite E; reflexivity).
  rewrite (gt_compat (1 # 2) (1 # 2) _ _ (Qeq_refl _) E').
  rewrite (gt_compat _ _ (1 # 2) (1 # 2) E' (Qeq_refl _)).
  reflexivity.
Qed.

Lemma round3_compat (a b : Q) : (a == b)%Q → py.round3 a = py.round3 b.
Proof.
  intros E. unfold py.round3. do 2 f_equal.
  apply round_half_even_compat. rewrite E. reflexivity.
Qed.

(** ** Scheduler core *)

Section eligibility.

Lemma reasons_as_concat (node : Node) (task : TaskType) :
  snd (evaluate_node_eligibility node task) =
    when (negb (enabled (policy node))) "policy_disabled"
    ++ when (negb (bool_decide (status node = ONLINE))) "node_not_online"
    ++ when (negb (bool_decide (task ∈ task_allowlist (policy node))))
         "task_not_allowed"
    ++ when (py.gt (cpu_percent (metrics node))
                   (inject_Z (cpu_cap_percent (policy node)))) "cpu_over_cap"
    ++ when (py.gt (ram_percent (metrics node))
                   (inject_Z (ram_cap_percent (policy node)))) "ram_over_cap"
    ++ when (_task_requires_gpu task && negb (has_gpu (capabilities node)))
         "gpu_required"
    ++ when (_task_requires_gpu task && has_gpu (capabilities node)
             && gpu_over_cap node) "gpu_over_cap".
Proof.
  unfold evaluate_node_eligibility, gpu_over_cap. cbn [snd].
  destruct (negb (enabled _)), (negb (bool_decide (status node = ONLINE))),
    (negb (bool_decide (task ∈ _))), (py.gt (cpu_percent _) _),
    (py.gt (ram_percent _) _), (_task_requires_gpu task), (has_gpu _),
    (gpu_percent _) as [g|]; cbn;
    try destruct (py.gt g _); reflexivity.
Qed.

Lemma when_concat_membership (b1 b2 b3 b4 b5 b6 b7 : bool) :
  let rs := when b1 "policy_disabled" ++ when b2 "node_not_online"
            ++ when b3 "task_not_allowed" ++ when b4 "cpu_over_cap"
            ++ when b5 "ram_over_cap" ++ when b6 "gpu_required"
            ++ when b7 "gpu_over_cap" in
  (length rs = 0%nat ↔ rs = []) ∧
  ("policy_disabled" ∈ rs ↔ b1 = true) ∧
  ("node_not_online" ∈ rs ↔ b2 = true) ∧
  ("task_not_allowed" ∈ rs ↔ b3 = true) ∧
  ("cpu_over_cap" ∈ rs ↔ b4 = true) ∧
  ("ram_over_cap" ∈ rs ↔ b5 = true) ∧
  ("gpu_required" ∈ rs ↔ b6 = true) ∧
  ("gpu_over_cap" ∈ rs ↔ b7 = true) ∧
  Forall (λ r, r ∈ reason_names) rs ∧
  NoDup rs.
Proof.
  destruct b1, b2, b3, b4, b5, b6, b7; cbv zeta; cbn [when app];
    apply (bool_decide_unpack _); vm_compute; exact I.
Qed.

Lemma gpu_over_cap_spec (node : Node) :
  gpu_over_cap node = true ↔
  ∃ g, gpu_percent (metrics node) = Some g ∧
       (inject_Z (default 100%Z (gpu_cap_percent (policy node))) < g)%Q.
Proof.
  unfold gpu_over_cap, gpu_cap_or_100.
  destruct (gpu_percent (metrics node)) as [g|].
  - rewrite gt_spec.
    destruct (gpu_cap_percent (policy node)); cbn;
      (split; [eauto | intros (? & [= <-] & ?); done]).
  - split; [done | intros (? & ? & _); done].
Qed.

(** C1. For every node and task type, [evaluate_node_eligibility] returns
    [eligible = true] exactly when its list of reasons is empty, and the
    list holds exactly the failure reasons that apply: [policy_disabled]
    iff the policy is not enabled; [node_not_online] iff the status is not
    ONLINE; [task_not_allowed] iff the task is not in the allowlist;
    [cpu_over_cap] / [ram_over_cap] iff the percentage exceeds its cap;
    and, for INFERENCE only, [gpu_required] iff the node has no GPU, else
    [gpu_over_cap] iff [gpu_percent] is known and exceeds the GPU cap (100
    when unset).  No other reason occurs and none occurs twice. *)
Theorem evaluate_node_eligibility_reasons (node : Node) (task : TaskType) :
  let eligible := fst (evaluate_node_eligibility node task) in
  let reasons := snd (evaluate_node_eligibility node task) in
  (eligible = true ↔ reasons = []) ∧
  ("policy_disabled" ∈ reasons ↔ enabled (policy node) = false) ∧
  ("node_not_online" ∈ reasons ↔ status node ≠ ONLINE) ∧
  ("task_not_allowed" ∈ reasons ↔ task ∉ task_allowlist (policy node)) ∧
  ("cpu_over_cap" ∈ reasons ↔
     (inject_Z (cpu_cap_percent (policy node))
      < cpu_percent (metrics node))%Q) ∧
  ("ram_over_cap" ∈ reasons ↔
     (inject_Z (ram_cap_percent (policy node))
      < ram_percent (metrics node))%Q) ∧
  ("gpu_required" ∈ reasons ↔
     task = INFERENCE ∧ has_gpu (capabilities node) = false) ∧
  ("gpu_over_cap" ∈ reasons ↔
     task = INFERENCE ∧ has_gpu (capabilities node) = true ∧
     ∃ g, gpu_percent (metrics node) = Some g ∧
          (inject_Z (default 100%Z (gpu_cap_percent (policy node))) < g)%Q) ∧
  (∀ r, r ∈ reasons → r ∈ reason_names) ∧
  NoDup reasons.
Proof.
  intros eligible reasons.
  assert (Hel : eligible = bool_decide (length reasons = 0%nat))
    by reflexivity.
  pose proof (reasons_as_concat node task) as Hr. fold reasons in Hr.
  clearbody eligible reasons. subst eligible.
  assert (Htask : _task_requires_gpu task = true ↔ task = INFERENCE)
    by apply bool_decide_eq_true.
  rewrite Hr.
  match goal with
  | |- context [when ?b1 _ ++ when ?b2 _ ++ when ?b3 _ ++ when ?b4 _
                ++ when ?b5 _ ++ when ?b6 _ ++ when ?b7 _] =>
      destruct (when_concat_membership b1 b2 b3 b4 b5 b6 b7)
        as (H0 & H1 & H2 & H3 & H4 & H5 & H6 & H7 & H8 & H9)
  end.
  rewrite bool_decide_eq_true, H0, H1, H2, H3, H4, H5, H6, H7.
  rewrite !andb_true_iff, !negb_true_iff, !bool_decide_eq_false, !gt_spec,
    Htask, gpu_over_cap_spec.
  rewrite Forall_forall in H8.
  repeat split; try tauto; auto.
Qed.

(** [tests/test_scheduler.py]: the test node is eligible for INFERENCE, and
    is not once its CPU is over the cap. *)
Example test_is_node_eligible :
  evaluate_node_eligibility (test_node true AUTO) INFERENCE = (true, []).
Proof. reflexivity. Qed.

Example test_is_node_ineligible_when_cpu_over_cap :
  evaluate_node_eligibility busy_test_node INFERENCE
  = (false, ["cpu_over_cap"]).
Proof. reflexivity. Qed.

Example cpu_node_ineligible_for_inference :
  evaluate_node_eligibility (test_node false AUTO) INFERENCE
  = (false, ["gpu_required"])
  ∧ evaluate_node_eligibility (test_node false AUTO) PREPROCESS
    = (false, ["task_not_allowed"]).
Proof. split; reflexivity. Qed.

End eligibility.

Section scoring.

Lemma headroom_refines (percent : Q) (cap : Z) :
  (_headroom percent cap == scoring_rule.headroom percent (inject_Z cap))%Q.
Proof.
  unfold _headroom, scoring_rule.headroom.
  rewrite !py_max_Qmax, py_min_Qmin, py_max_Qmax. reflexivity.
Qed.

Lemma task_requires_gpu_cases (t : TaskType) :
  _task_requires_gpu t = match t with INFERENCE => true | _ => false end.
Proof. by destruct t. Qed.

Lemma task_prefers_cpu_cases (t : TaskType) :
  _task_prefers_cpu t = match t with INFERENCE => false | _ => true end.
Proof. by destruct t. Qed.

Lemma infer_role_match_cases (r : RolePreference) :
  _infer_role_match r =
  match r with AUTO | PREFER_INFERENCE => true | _ => false end.
Proof. by destruct r. Qed.

Lemma cpu_role_match_cases (r : RolePreference) :
  _cpu_role_match r =
  match r with
  | AUTO | PREFER_EMBEDDINGS | PREFER_PREPROCESS => true
  | _ => false
  end.
Proof. by destruct r. Qed.

Lemma weights_table :
  weight "cpu_headroom" = scoring_rule.W_cpu
  ∧ weight "ram_headroom" = scoring_rule.W_ram
  ∧ weight "gpu_headroom" = scoring_rule.W_gpu
  ∧ weight "infer_gpu_bonus" = scoring_rule.infer_gpu_bonus
  ∧ weight "cpu_task_cpu_node_bonus" = scoring_rule.cpu_task_cpu_node_bonus
  ∧ weight "role_match_bonus" = scoring_rule.role_match_bonus
  ∧ weight "role_mismatch_penalty" = scoring_rule.role_mismatch_penalty
  ∧ weight "running_jobs_penalty" = scoring_rule.W_runjobs.
Proof. repeat split. Qed.

(** The score in exact arithmetic is the weighted sum of section 4.F in
    exact arithmetic, rounded to three decimals. *)
Lemma exact_score_node_weighted_sum (node : Node) (task : TaskType) :
  score_node node task = py.round3 (scoring_rule.weighted_sum node task).
Proof.
  unfold score_node. apply round3_compat.
  destruct weights_table as (-> & -> & -> & -> & -> & -> & -> & ->).
  unfold scoring_rule.weighted_sum, scoring_rule.inference_terms,
    scoring_rule.cpu_task_terms.
  rewrite task_requires_gpu_cases, task_prefers_cpu_cases,
    infer_role_match_cases, cpu_role_match_cases.
  unfold gpu_cap_or_100.
  destruct task, (has_gpu (capabilities node)),
    (role_preference (policy node)),
    (gpu_percent (metrics node)) as [g|],
    (gpu_cap_percent (policy node)) as [c|];
    cbn [negb default from_option]; unfold Datatypes.id;
    rewrite <- ?headroom_refines; ring.
Qed.

(** The scores of the test node: 27 + 21.875 + 22 + 9.333… + 14 − 2 for
    INFERENCE on the GPU node, 27 + 21.875 + 12 + 14 − 2 for EMBEDDINGS on
    the CPU node. *)
Example score_node_gpu_inference :
  score_node (test_node true AUTO) INFERENCE = (92208 # 1000)%Q.
Proof. vm_compute. reflexivity. Qed.

Example score_node_cpu_embeddings :
  score_node (test_node false PREFER_EMBEDDINGS) EMBEDDINGS
  = (72875 # 1000)%Q.
Proof. vm_compute. reflexivity. Qed.

(** [tests/test_scheduler.py], [test_infer_scoring_prefers_gpu_nodes] and
    [test_embed_scoring_prefers_cpu_nodes_with_cpu_role]. *)
Example test_infer_scoring_prefers_gpu_nodes :
  (score_node (test_node false PREFER_EMBEDDINGS) INFERENCE
   < score_node (test_node true PREFER_INFERENCE) INFERENCE)%Q.
Proof. vm_compute. reflexivity. Qed.

Example test_embed_scoring_prefers_cpu_nodes_with_cpu_role :
  (score_node (test_node true PREFER_INFERENCE) EMBEDDINGS
   < score_node (test_node false PREFER_EMBEDDINGS) EMBEDDINGS)%Q.
Proof. vm_compute. reflexivity. Qed.

End scoring.

(** ** The score in double precision *)

Section scoring_binary64.

Import binary64.

(** [a - b] is [a + (-b)], rounding included. *)
Lemma sub_add_opp (a b : float) : sub a b = add a (SFopp b).
Proof.
  unfold sub, add.
  destruct a as [sa|sa| |sa ma ea], b as [sb|sb| |sb mb eb]; try reflexivity;
    destruct sa, sb; reflexivity.
Qed.

Lemma headroom_code (percent : float) (cap : Z) :
  _headroom percent cap = float_rule.headroom percent cap.
Proof. reflexivity. Qed.

Lemma weights_binary64 :
  weight "cpu_headroom" = of_number 45
  ∧ weight "ram_headroom" = of_number 35
  ∧ weight "gpu_headroom" = of_number 20
  ∧ weight "infer_gpu_bonus" = of_number 22
  ∧ weight "cpu_task_cpu_node_bonus" = of_number 12
  ∧ weight "role_match_bonus" = of_number 14
  ∧ SFopp (weight "role_mismatch_penalty") = of_number (-10)
  ∧ weight "running_jobs_penalty" = of_number 2.
Proof. repeat split. Qed.

Lemma score_node_sums (node : Node) (task : TaskType) :
  score_node node task = round3 <$> float_rule.weighted_sum node task.
Proof.
  unfold score_node.
  destruct weights_binary64 as (-> & -> & -> & -> & -> & -> & Hpenalty & ->).
  unfold float_rule.weighted_sum, float_rule.terms,
    float_rule.inference_terms, float_rule.cpu_task_terms,
    float_rule.weighted, float_rule.running_jobs_term, gpu_cap_or_100.
  rewrite <- Hpenalty.
  change _headroom with float_rule.headroom.
  destruct (float_rule.headroom _ (cpu_cap_percent _)) as [h1|];
    destruct (float_rule.headroom _ (ram_cap_percent _)) as [h2|];
    destruct (of_int _) as [j|];
    destruct task, (has_gpu (capabilities node)),
      (role_preference (policy node)),
      (gpu_percent (metrics node)) as [g|];
    try (destruct (float_rule.headroom (of_number g) _) as [hg|]);
    cbv -[add sub mul of_number round3 SFopp weight];
    rewrite ?sub_add_opp; reflexivity.
Qed.

Lemma round_half_even_near (q : Q) :
  (inject_Z (py.round_half_even q) - (1 # 2) <= q
  ∧ q <= inject_Z (py.round_half_even q) + (1 # 2))%Q.
Proof.
  unfold py.round_half_even.
  pose proof (Qfloor_le q) as Hlo. pose proof (Qlt_floor q) as Hhi.
  rewrite inject_Z_plus in Hhi. change (inject_Z 1) with 1%Q in Hhi.
  destruct (py.gt (1 # 2) _) eqn:E1.
  { apply gt_spec in E1. lra. }
  apply gt_false_spec in E1.
  destruct (py.gt _ (1 # 2)) eqn:E2.
  { apply gt_spec in E2. rewrite inject_Z_plus. change (inject_Z 1) with 1%Q.
    lra. }
  apply gt_false_spec in E2.
  destruct (Z.even (Qfloor q)); [lra|].
  rewrite inject_Z_plus. change (inject_Z 1) with 1%Q. lra.
Qed.

(** Half way between two integers the even one is taken. *)
Lemma round_half_even_tie (q : Q) :
  (q == inject_Z (py.round_half_even q) - (1 # 2)
   ∨ q == inject_Z (py.round_half_even q) + (1 # 2))%Q →
  Z.even (py.round_half_even q) = true.
Proof.
  unfold py.round_half_even.
  pose proof (Qfloor_le q) as Hlo. pose proof (Qlt_floor q) as Hhi.
  rewrite inject_Z_plus in Hhi. change (inject_Z 1) with 1%Q in Hhi.
  destruct (py.gt (1 # 2) _) eqn:E1.
  { apply gt_spec in E1. intros [H|H]; lra. }
  apply gt_false_spec in E1.
  destruct (py.gt _ (1 # 2)) eqn:E2.
  { apply gt_spec in E2. rewrite inject_Z_plus. change (inject_Z 1) with 1%Q.
    intros [H|H]; lra. }
  destruct (Z.even (Qfloor q)) eqn:Heven; [done|].
  intros _. rewrite Z.even_add, Heven. done.
Qed.

Lemma round3_spec (x : float) (v : Q) :
  value x = Some v →
  ∃ n : Z,
    (inject_Z n - (1 # 2) <= v * 1000)%Q
    ∧ (v * 1000 <= inject_Z n + (1 # 2))%Q
    ∧ ((v * 1000 == inject_Z n - (1 # 2)
        ∨ v * 1000 == inject_Z n + (1 # 2))%Q → Z.even n = true)
    ∧ round3 x
      = if n =? 0 then signed_zero x else of_number (inject_Z n / 1000).
Proof.
  intros Hv. exists (py.round_half_even (v * 1000)).
  destruct (round_half_even_near (v * 1000)) as [Hlo Hhi].
  split; [done|]. split; [done|]. split; [apply round_half_even_tie|].
  destruct x as [s|s| |s m e]; try done.
  - injection Hv as <-. reflexivity.
  - unfold round3. rewrite Hv. reflexivity.
Qed.

Lemma round3_not_finite (x : float) : value x = None → round3 x = x.
Proof. by destruct x. Qed.

Lemma headroom_returns (percent : float) (cap : Z) :
  float_rule.headroom percent cap = None ↔ of_int cap = None.
Proof.
  unfold float_rule.headroom. destruct (of_int cap) as [c|]; [|done].
  cbn [mbind option_bind].
  assert (Hdiv : truediv percent (max c (of_number 1)) ≠ None).
  { unfold max, gt. destruct (SFltb c (of_number 1)) eqn:E; [done|].
    destruct c as [s|s| |s m e]; try done. }
  destruct (truediv percent (max c (of_number 1))); [done|].
  by destruct Hdiv.
Qed.

Lemma weighted_returns (percent : Q) (cap : Z) (w : Q) :
  float_rule.weighted percent cap w = None ↔ of_int cap = None.
Proof.
  unfold float_rule.weighted. rewrite <- (headroom_returns (of_number percent)).
  by destruct (float_rule.headroom _ _).
Qed.

Lemma sum_raises (terms : list (option float)) :
  ∀ sum : option float,
    foldl (λ sum term, sum ← sum; term ← term; Some (add sum term)) sum terms
    = None
    ↔ sum = None ∨ None ∈ terms.
Proof.
  induction terms as [|term terms IH]; intros sum; cbn [foldl].
  - rewrite elem_of_nil. tauto.
  - rewrite IH, elem_of_cons.
    destruct sum as [sum|], term as [term|]; cbn; intuition (auto; done).
Qed.

Lemma running_jobs_term_returns (node : Node) :
  float_rule.running_jobs_term node = None
  ↔ of_int (running_jobs (metrics node)) = None.
Proof.
  unfold float_rule.running_jobs_term. by destruct (of_int _).
Qed.

Lemma score_node_returns (node : Node) (task : TaskType) :
  score_node node task = None
  ↔ of_int (cpu_cap_percent (policy node)) = None
    ∨ of_int (ram_cap_percent (policy node)) = None
    ∨ (task = INFERENCE ∧ is_Some (gpu_percent (metrics node))
       ∧ of_int (gpu_cap_or_100 (policy node)) = None)
    ∨ of_int (running_jobs (metrics node)) = None.
Proof.
  rewrite score_node_sums, fmap_None.
  unfold float_rule.weighted_sum. rewrite sum_raises.
  unfold float_rule.terms.
  rewrite !elem_of_app, !elem_of_cons, !elem_of_nil.
  assert (Hsym : ∀ x : option float, None = x ↔ x = None)
    by (intros x; split; congruence).
  rewrite !Hsym, !weighted_returns, running_jobs_term_returns.
  assert (Htask :
    None ∈ match task with
           | INFERENCE => float_rule.inference_terms node
           | _ => float_rule.cpu_task_terms node
           end
    ↔ task = INFERENCE ∧ is_Some (gpu_percent (metrics node))
      ∧ of_int (gpu_cap_or_100 (policy node)) = None).
  { assert (Hone : ∀ x : option float, None ∈ [x] ↔ x = None).
    { intros x. rewrite elem_of_cons, elem_of_nil. intuition congruence. }
    assert (Hno : ∀ x : float, ¬ None ∈ [Some x]).
    { intros x. rewrite Hone. done. }
    unfold float_rule.inference_terms, float_rule.cpu_task_terms,
      gpu_cap_or_100.
    change (default 100 (gpu_cap_percent (policy node)))
      with (match gpu_cap_percent (policy node) with
            | Some c => c
            | None => 100
            end).
    destruct task.
    - rewrite !elem_of_app, Hone.
      assert (Hbonus : ¬ None ∈ (if has_gpu (capabilities node)
                                 then [Some (of_number 22)] else [])).
      { destruct (has_gpu _); [apply Hno|apply not_elem_of_nil]. }
      destruct (gpu_percent (metrics node)) as [g|].
      + rewrite Hone, weighted_returns. split.
        * intros [?|[?|?]]; [done| |done]. split; [done|]. split; [eauto|done].
        * intros (_ & _ & ?). auto.
      + rewrite elem_of_nil. split.
        * intros [?|[?|?]]; done.
        * intros (_ & [? ?] & _). done.
    - split; [|intros (? & _); done]. rewrite elem_of_app, Hone.
      destruct (has_gpu _); rewrite ?elem_of_nil, ?Hone; intros [?|?]; done.
    - split; [|intros (? & _); done]. rewrite elem_of_app, Hone.
      destruct (has_gpu _); rewrite ?elem_of_nil, ?Hone; intros [?|?]; done.
    - split; [|intros (? & _); done]. rewrite elem_of_app, Hone.
      destruct (has_gpu _); rewrite ?elem_of_nil, ?Hone; intros [?|?]; done.
    - split; [|intros (? & _); done]. rewrite elem_of_app, Hone.
      destruct (has_gpu _); rewrite ?elem_of_nil, ?Hone; intros [?|?]; done. }
  rewrite Htask. intuition (auto; done).
Qed.

(** C2 (as the code has it). For every node and task type, [score_node]
    is Python's [round(s, 3)] of the weighted sum [s] of section 4.F taken
    in double precision, the terms added from the left in the order of the
    section: cpu_headroom·45, ram_headroom·35; for INFERENCE 22 with a GPU,
    gpu_headroom·20 when [gpu_percent] is known (cap 100 when unset), 14
    for the roles AUTO and PREFER_INFERENCE and −10 for the others; for
    the four CPU tasks 12 without a GPU, 14 for the roles AUTO,
    PREFER_EMBEDDINGS and PREFER_PREPROCESS and −10 for the other; and −2
    for each running job; with
    headroom(percent, cap) = max(0, 1 − min(percent / max(cap,1), 2)) in
    the same arithmetic.  The call raises exactly when a cap it reads or
    the number of running jobs is an [int] too large for a float.
    [round(s, 3)] of a float that holds the number [v] is the double
    nearest to [n/1000], where [n] is the integer nearest to [1000·v], the
    even one of two that are equally near, and the zero of the sign of [s]
    when [n] is 0; an infinity and NaN are returned as they are. *)
Theorem score_node_weighted_sum_binary64 (node : Node) (task : TaskType) :
  score_node node task = round3 <$> float_rule.weighted_sum node task
  ∧ (score_node node task = None
     ↔ of_int (cpu_cap_percent (policy node)) = None
       ∨ of_int (ram_cap_percent (policy node)) = None
       ∨ (task = INFERENCE ∧ is_Some (gpu_percent (metrics node))
          ∧ of_int (scheduler.gpu_cap_or_100 (policy node)) = None)
       ∨ of_int (running_jobs (metrics node)) = None)
  ∧ (∀ (x : float) (v : Q),
       value x = Some v →
       ∃ n : Z,
         (inject_Z n - (1 # 2) <= v * 1000)%Q
         ∧ (v * 1000 <= inject_Z n + (1 # 2))%Q
         ∧ ((v * 1000 == inject_Z n - (1 # 2)
             ∨ v * 1000 == inject_Z n + (1 # 2))%Q → Z.even n = true)
         ∧ round3 x
           = if n =? 0 then signed_zero x
             else of_number (inject_Z n / 1000))
  ∧ (∀ x : float, value x = None → round3 x = x).
Proof.
  split; [apply score_node_sums|]. split; [apply score_node_returns|].
  split; [apply round3_spec|apply round3_not_finite].
Qed.

(** C2 as stated fails: the code gives 102.487 for the lightly loaded node,
    and the sum of the section, 102.4875, rounds to 102.488. *)
Lemma score_node_off_by_a_thousandth :
  score_node lightly_loaded_node EMBEDDINGS
  = Some (of_number (102487 # 1000))
  ∧ (scoring_rule.weighted_sum lightly_loaded_node EMBEDDINGS
     == 1024875 # 10000)%Q
  ∧ (py.round3 (scoring_rule.weighted_sum lightly_loaded_node EMBEDDINGS)
     == 102488 # 1000)%Q
  ∧ of_number (102487 # 1000) ≠ of_number (102488 # 1000).
Proof.
  split; [vm_compute; reflexivity|]. split; [vm_compute; reflexivity|].
  split; [vm_compute; reflexivity|]. vm_compute. discriminate.
Qed.

(** The double of a tenth, [float(n)] at the end of its range, and
    [round(x, 3)] half way between two decimals and next to zero. *)
Example of_number_tenth :
  of_number (1 # 10) = S754_finite false 7205759403792794 (-56).
Proof. vm_compute. reflexivity. Qed.

Example of_int_largest :
  of_int (2 ^ 1024 - 2 ^ 970 - 1)
  = Some (S754_finite false 9007199254740991 971)
  ∧ of_int (2 ^ 1024 - 2 ^ 970) = None.
Proof. split; vm_compute; reflexivity. Qed.

Example round3_ties_to_even :
  round3 (of_number (625 # 10000)) = of_number (62 # 1000)
  ∧ round3 (of_number (1875 # 10000)) = of_number (188 # 1000)
  ∧ round3 (of_number (- 4 # 10000)) = S754_zero true.
Proof. repeat split; vm_compute; reflexivity. Qed.

(** The scores of the test nodes of [tests/test_scheduler.py]. *)
Example score_node_gpu_inference_binary64 :
  score_node (test_node true AUTO) INFERENCE
  = Some (of_number (92208 # 1000)).
Proof. vm_compute. reflexivity. Qed.

End scoring_binary64.

(** ** Job status transitions *)

Section job_transitions.

Lemma allowed_transitions_spec (current new_status : JobStatus) :
  new_status ∈ _ALLOWED_JOB_TRANSITIONS current ↔ allowed_successor current new_status.
Proof.
  unfold allowed_successor.
  destruct current, new_status; cbn;
    rewrite ?elem_of_cons, ?elem_of_nil; intuition congruence.
Qed.

Lemma terminal_no_successor (current new_status : JobStatus) :
  current ∈ [COMPLETED; FAILED; CANCELLED] →
  ¬ allowed_successor current new_status.
Proof.
  unfold allowed_successor.
  rewrite !elem_of_cons, elem_of_nil. intuition congruence.
Qed.

Lemma insert_same_row (repo : CoordinatorRepository) (job_id : string)
  (row : JobRecord.t) :
  jobs repo !! job_id = Some row →
  with_jobs (<[job_id := row]> (jobs repo)) repo = repo.
Proof.
  intros Hrow. unfold with_jobs. rewrite insert_id by done. by destruct repo.
Qed.

Lemma transition_missing (repo : CoordinatorRepository) (now : datetime)
  (job_id : string) (new_status : JobStatus) (error : option string) :
  jobs repo !! job_id = None →
  transition_job_status repo now job_id new_status error
  = (repo, Err (KeyError job_id)).
Proof. unfold transition_job_status. by intros ->. Qed.

Lemma transition_same (repo : CoordinatorRepository) (now : datetime)
  (job_id : string) (new_status : JobStatus) (error : option string)
  (row : JobRecord.t) :
  jobs repo !! job_id = Some row →
  JobRecord.status row = new_status →
  let row' :=
    match error with
    | Some _ => JobRecord.set_updated_at now (JobRecord.set_error error row)
    | None => row
    end in
  transition_job_status repo now job_id new_status error
  = if max_length 2048 error
    then (with_jobs (<[job_id := row']> (jobs repo)) repo, Ok (_to_job row'))
    else (repo, Err ValidationError).
Proof.
  intros Hrow Heq. unfold transition_job_status. rewrite Hrow.
  rewrite bool_decide_eq_true_2 by done.
  destruct error; [done|]. cbn. by rewrite insert_same_row.
Qed.

Lemma transition_allowed (repo : CoordinatorRepository) (now : datetime)
  (job_id : string) (new_status : JobStatus) (error : option string)
  (row : JobRecord.t) :
  jobs repo !! job_id = Some row →
  JobRecord.status row ≠ new_status →
  allowed_successor (JobRecord.status row) new_status →
  let row' := enter_status now new_status error row in
  transition_job_status repo now job_id new_status error
  = if bool_decide (new_status = RUNNING)
       && negb (fits_INTEGER (JobRecord.attempts row'))
    then (repo, Err INTEGER_overflow)
    else if max_length 2048 (JobRecord.error row')
    then (with_jobs (<[job_id := row']> (jobs repo)) repo, Ok (_to_job row'))
    else (repo, Err ValidationError).
Proof.
  intros Hrow Hne Hallowed. unfold transition_job_status. rewrite Hrow.
  rewrite bool_decide_eq_false_2 by done.
  by rewrite bool_decide_eq_true_2 by (by rewrite allowed_transitions_spec).
Qed.

Lemma transition_conflict (repo : CoordinatorRepository) (now : datetime)
  (job_id : string) (new_status : JobStatus) (error : option string)
  (row : JobRecord.t) :
  jobs repo !! job_id = Some row →
  JobRecord.status row ≠ new_status →
  ¬ allowed_successor (JobRecord.status row) new_status →
  transition_job_status repo now job_id new_status error
  = (repo,
     Err (ValueError
            ("Invalid transition from "
             +:+ JobStatus_value (JobRecord.status row)
             +:+ " to " +:+ JobStatus_value new_status))).
Proof.
  intros Hrow Hne Hnot. unfold transition_job_status. rewrite Hrow.
  rewrite bool_decide_eq_false_2 by done.
  by rewrite bool_decide_eq_false_2 by (by rewrite allowed_transitions_spec).
Qed.

(** A status update that answers with a job has written the row it
    answers with; one that raises has written nothing. *)
Lemma transition_outcome (repo : CoordinatorRepository) (now : datetime)
  (job_id : string) (new_status : JobStatus) (error : option string) :
  (∃ e, transition_job_status repo now job_id new_status error
        = (repo, Err e))
  ∨ ∃ row row',
      jobs repo !! job_id = Some row
      ∧ transition_job_status repo now job_id new_status error
        = (with_jobs (<[job_id := row']> (jobs repo)) repo, Ok (_to_job row'))
      ∧ ((JobRecord.status row = new_status
          ∧ max_length 2048 error = true
          ∧ row' = match error with
                   | Some _ =>
                       JobRecord.set_updated_at now
                         (JobRecord.set_error error row)
                   | None => row
                   end)
         ∨ (JobRecord.status row ≠ new_status
            ∧ allowed_successor (JobRecord.status row) new_status
            ∧ max_length 2048 (JobRecord.error row') = true
            ∧ (new_status = RUNNING →
               fits_INTEGER (JobRecord.attempts row') = true)
            ∧ row' = enter_status now new_status error row)).
Proof.
  destruct (jobs repo !! job_id) as [row|] eqn:Hrow.
  2:{ left. eexists. by apply transition_missing. }
  destruct (decide (JobRecord.status row = new_status)) as [Heq|Hne].
  { rewrite (transition_same _ now _ _ error _ Hrow Heq).
    destruct (max_length 2048 error) eqn:Hlen; [|left; by eexists].
    right. eexists row, _. split; [done|]. split; [done|]. left. done. }
  destruct (decide (new_status ∈ _ALLOWED_JOB_TRANSITIONS (JobRecord.status row)))
    as [Hin|Hout].
  - apply allowed_transitions_spec in Hin.
    rewrite (transition_allowed _ now _ _ error _ Hrow Hne Hin). cbv zeta.
    destruct (bool_decide (new_status = RUNNING)
              && negb (fits_INTEGER
                         (JobRecord.attempts
                            (enter_status now new_status error row))))
      eqn:Hflush; [left; by eexists|].
    destruct (max_length 2048
                (JobRecord.error (enter_status now new_status error row)))
      eqn:Hlen; [|left; by eexists].
    right. eexists row, _. split; [done|]. split; [done|]. right.
    split; [done|]. split; [done|]. split; [done|]. split; [|done].
    intros ->. rewrite bool_decide_eq_true_2 in Hflush by done.
    by apply negb_false_iff in Hflush.
  - rewrite allowed_transitions_spec in Hout.
    rewrite (transition_conflict _ now _ _ error _ Hrow Hne Hout).
    left. by eexists.
Qed.

Lemma enter_status_status (now : datetime) (new_status : JobStatus)
  (error : option string) (row : JobRecord.t) :
  JobRecord.status (enter_status now new_status error row) = new_status.
Proof. by destruct new_status. Qed.

Lemma allowed_successor_dec (current new_status : JobStatus) :
  allowed_successor current new_status
  ∨ ¬ allowed_successor current new_status.
Proof.
  rewrite <- allowed_transitions_spec.
  destruct (decide (new_status ∈ _ALLOWED_JOB_TRANSITIONS current)); auto.
Qed.

Lemma fits_INTEGER_spec (n : Z) :
  fits_INTEGER n = true ↔ - 2 ^ 63 ≤ n < 2 ^ 63.
Proof. unfold fits_INTEGER. by rewrite andb_true_iff, Z.leb_le, Z.ltb_lt. Qed.

(** C3 (as the code has it). [transition_job_status] fails with NotFound
    ([KeyError]) when no job has the id.  When the new status is the
    current one it succeeds without touching status, attempts or
    timestamps other than [updated_at], and replaces the error when one is
    given, provided the error given has at most 2048 characters.  When the
    new status is an allowed successor (QUEUED→RUNNING, RUNNING→COMPLETED,
    RUNNING→FAILED) it succeeds, provided the error text the job ends with
    has at most 2048 characters and, for RUNNING, the new number of
    attempts fits the 64-bit column of the store.  It fails with Conflict
    ([ValueError]) in every other case of a status that is neither the
    current one nor an allowed successor, in particular from COMPLETED,
    FAILED and CANCELLED, and also for an error text of more than 2048
    characters, which only FAILED and the current status can bring; it
    fails with [OverflowError] when the number of attempts does not fit.
    A failure leaves the store unchanged. *)
Theorem transition_job_status_outcomes (repo : CoordinatorRepository)
  (now : datetime) (job_id : string) (new_status : JobStatus)
  (error : option string) :
  let outcome := transition_job_status repo now job_id new_status error in
  (jobs repo !! job_id = None → outcome = (repo, Err (KeyError job_id))) ∧
  (∀ row, jobs repo !! job_id = Some row →
     (JobRecord.status row = new_status →
        let row' :=
          match error with
          | Some _ =>
              JobRecord.set_updated_at now (JobRecord.set_error error row)
          | None => row
          end in
        (max_length 2048 error = true →
           outcome = (with_jobs (<[job_id := row']> (jobs repo)) repo,
                      Ok (_to_job row'))) ∧
        (max_length 2048 error = false →
           outcome = (repo, Err (ValueError "1 validation error for Job")))) ∧
     (JobRecord.status row ≠ new_status →
      allowed_successor (JobRecord.status row) new_status →
        let row' := enter_status now new_status error row in
        let overflow :=
          new_status = RUNNING
          ∧ ¬ (- 2 ^ 63 ≤ JobRecord.attempts row' < 2 ^ 63) in
        let too_long := max_length 2048 (JobRecord.error row') = false in
        JobRecord.status row' = new_status ∧
        (¬ overflow → ¬ too_long →
           outcome = (with_jobs (<[job_id := row']> (jobs repo)) repo,
                      Ok (_to_job row'))) ∧
        (overflow →
           ∃ message, outcome = (repo, Err (OverflowError message))) ∧
        (too_long →
           new_status = FAILED
           ∧ outcome
             = (repo, Err (ValueError "1 validation error for Job")))) ∧
     (JobRecord.status row ≠ new_status →
      ¬ allowed_successor (JobRecord.status row) new_status →
        ∃ message, outcome = (repo, Err (ValueError message))) ∧
     (JobRecord.status row ≠ new_status →
      JobRecord.status row ∈ [COMPLETED; FAILED; CANCELLED] →
        ∃ message, outcome = (repo, Err (ValueError message)))) ∧
  (∀ repo' e, outcome = (repo', Err e) → repo' = repo).
Proof.
  intros outcome. subst outcome. split; [apply transition_missing|]. split.
  - intros row Hrow. split; [|split; [|split]].
    + intros Heq. cbv zeta.
      rewrite (transition_same _ now _ _ error _ Hrow Heq).
      split; by intros ->.
    + intros Hne Hallowed. cbv zeta.
      rewrite (transition_allowed _ now _ _ error _ Hrow Hne Hallowed).
      cbv zeta. set (row' := enter_status now new_status error row).
      split; [apply enter_status_status|].
      assert (Hclear : max_length 2048 (JobRecord.error row') = false →
                       new_status = FAILED).
      { subst row'. destruct new_status; try done;
          destruct Hallowed as [[? ?]|[? [?|?]]]; done. }
      pose proof (fits_INTEGER_spec (JobRecord.attempts row')) as Hfits.
      split; [|split].
      * intros Hflush Hlen.
        destruct (max_length 2048 (JobRecord.error row')); [|done].
        destruct (bool_decide (new_status = RUNNING)) eqn:Hrun; [|done].
        apply bool_decide_eq_true in Hrun.
        destruct (fits_INTEGER (JobRecord.attempts row')) eqn:E; [done|].
        exfalso. apply Hflush. split; [done|].
        rewrite <- Hfits. congruence.
      * intros [-> Hover]. rewrite bool_decide_eq_true_2 by done.
        destruct (fits_INTEGER (JobRecord.attempts row')) eqn:E.
        { destruct Hover. by apply Hfits. }
        by eexists.
      * intros Hlen. specialize (Hclear Hlen). subst new_status.
        split; [done|]. by rewrite Hlen.
    + intros Hne Hnot. eexists. by apply transition_conflict.
    + intros Hne Hterm. eexists. apply transition_conflict; [done..|].
      by apply terminal_no_successor.
  - intros repo' e.
    destruct (transition_outcome repo now job_id new_status error)
      as [[e' ->]|(row & row' & _ & -> & _)]; [|done].
    by intros [= <- _].
Qed.

(** C3 as stated fails: an update with an error text of 2049 characters is
    refused, both when it asks for the status the job has and when it asks
    for the allowed successor FAILED; and the job that has been attempted
    2^63 − 1 times cannot enter RUNNING, which is not a Conflict.  The
    store stays as it was. *)
Lemma long_error_and_full_counter_are_refused :
  JobRecord.status running_job = RUNNING
  ∧ transition_job_status (one_job_repository running_job) 5000 "job-1"
      RUNNING (Some (text_of_length 2049))
    = (one_job_repository running_job,
       Err (ValueError "1 validation error for Job"))
  ∧ allowed_successor (JobRecord.status running_job) FAILED
  ∧ transition_job_status (one_job_repository running_job) 5000 "job-1"
      FAILED (Some (text_of_length 2049))
    = (one_job_repository running_job,
       Err (ValueError "1 validation error for Job"))
  ∧ allowed_successor (JobRecord.status worn_job) RUNNING
  ∧ transition_job_status (one_job_repository worn_job) 5000 "job-1"
      RUNNING None
    = (one_job_repository worn_job,
       Err (OverflowError
              "Python int too large to convert to SQLite INTEGER")).
Proof.
  split; [reflexivity|]. split; [vm_compute; reflexivity|].
  split; [right; split; [reflexivity|by right]|].
  split; [vm_compute; reflexivity|].
  split; [left; by split|]. vm_compute. reflexivity.
Qed.

(** With 2048 characters the same updates go through. *)
Example error_of_2048_characters :
  ∃ job,
    transition_job_status (one_job_repository running_job) 5000 "job-1"
      FAILED (Some (text_of_length 2048))
    = (one_job_repository
         (JobRecord.mk "job-1" EMBEDDINGS FAILED (Some "demo://payload/1")
            None 1 1000 5000 (Some 2000) (Some 5000)
            (Some (text_of_length 2048))),
       Ok job).
Proof. eexists. vm_compute. reflexivity. Qed.

(** The route answers 404 to the missing id and 409 to the refused
    transition. *)
Lemma transition_job_status_route_codes (repo : CoordinatorRepository)
  (now : datetime) (job_id : string) (new_status : JobStatus)
  (error : option string) :
  let answer :=
    (transition_job_status_route repo now job_id new_status error).2 in
  (jobs repo !! job_id = None → status_code answer = 404) ∧
  (∀ row, jobs repo !! job_id = Some row →
     JobRecord.status row ≠ new_status →
     ¬ allowed_successor (JobRecord.status row) new_status →
     status_code answer = 409).
Proof.
  cbv zeta. unfold transition_job_status_route. split.
  - intros Hnone. by rewrite transition_missing.
  - intros row Hrow Hne Hnot.
    by rewrite (transition_conflict _ now _ _ error _ Hrow Hne Hnot).
Qed.

(** [tests/test_api.py]: COMPLETED asked of a QUEUED job is answered 409. *)
Example queued_to_completed_conflict :
  status_code
    (transition_job_status_route (one_job_repository queued_job) 2000
       "job-1" COMPLETED None).2 = 409.
Proof. vm_compute. reflexivity. Qed.

End job_transitions.

(** ** Attempts, timestamps and error along a job's transitions *)

Section job_lifecycle.

Lemma lookup_with_jobs_insert (repo : CoordinatorRepository)
  (job_id : string) (row : JobRecord.t) :
  jobs (with_jobs (<[job_id := row]> (jobs repo)) repo) !! job_id = Some row.
Proof. cbn. apply lookup_insert_eq. Qed.

(** What a successful status update did to the job's row. *)
Lemma transition_ok_inv (repo repo' : CoordinatorRepository) (now : datetime)
  (job_id : string) (new_status : JobStatus) (error : option string)
  (row : JobRecord.t) (job : Job) :
  jobs repo !! job_id = Some row →
  transition_job_status repo now job_id new_status error = (repo', Ok job) →
  ∃ row',
    jobs repo' !! job_id = Some row' ∧ job = _to_job row' ∧
    ((JobRecord.status row = new_status ∧
      row' = match error with
             | Some _ =>
                 JobRecord.set_updated_at now (JobRecord.set_error error row)
             | None => row
             end)
     ∨ (JobRecord.status row ≠ new_status ∧
        allowed_successor (JobRecord.status row) new_status ∧
        row' = enter_status now new_status error row)).
Proof.
  intros Hrow.
  destruct (transition_outcome repo now job_id new_status error)
    as [[e ->]|(row0 & row' & Hrow0 & -> & Hcases)]; [done|].
  assert (row0 = row) as -> by congruence.
  intros [= <- <-]. exists row'.
  split; [apply lookup_with_jobs_insert|]. split; [done|].
  destruct Hcases as [(? & _ & ?)|(? & ? & _ & _ & ?)]; [by left|by right].
Qed.

Lemma attempts_or_zero (a : Z) : (if a =? 0 then 0 else a) = a.
Proof. destruct (Z.eqb_spec a 0); lia. Qed.

(** One successful update never lowers [attempts] and never replaces a
    [started_at] that is set. *)
Lemma transition_ok_monotone (repo repo' : CoordinatorRepository)
  (now : datetime) (job_id : string) (new_status : JobStatus)
  (error : option string) (row : JobRecord.t) (job : Job) :
  jobs repo !! job_id = Some row →
  transition_job_status repo now job_id new_status error = (repo', Ok job) →
  ∃ row',
    jobs repo' !! job_id = Some row'
    ∧ JobRecord.attempts row ≤ JobRecord.attempts row'
    ∧ (∀ t, JobRecord.started_at row = Some t →
            JobRecord.started_at row' = Some t).
Proof.
  intros Hrow Hstep.
  destruct (transition_ok_inv _ _ _ _ _ _ _ _ Hrow Hstep)
    as (row' & Hrow' & _ & Hcases).
  exists row'. split; [done|].
  destruct Hcases as [[_ ->]|(_ & _ & ->)].
  - destruct error; cbn; split; (lia || done).
  - destruct new_status; cbn; rewrite ?attempts_or_zero;
      split; try lia; try done.
    by intros t ->.
Qed.

Lemma run_transitions_monotone (requests : list transition_request) :
  ∀ (repo repo' : CoordinatorRepository) (job_id : string)
    (row : JobRecord.t),
    jobs repo !! job_id = Some row →
    run_transitions repo job_id requests = Some repo' →
    ∃ row',
      jobs repo' !! job_id = Some row'
      ∧ JobRecord.attempts row ≤ JobRecord.attempts row'
      ∧ (∀ t, JobRecord.started_at row = Some t →
              JobRecord.started_at row' = Some t).
Proof.
  induction requests as [|r rest IH]; intros repo repo' job_id row Hrow Hrun.
  - injection Hrun as <-. exists row. split; [done|]. split; [lia|done].
  - cbn in Hrun.
    destruct (transition_job_status repo (at_time r) job_id (new_status r)
                (with_error r)) as [repo1 [job|e]] eqn:Hstep; [|done].
    destruct (transition_ok_monotone _ _ _ _ _ _ _ _ Hrow Hstep)
      as (row1 & Hrow1 & Hatt1 & Hst1).
    destruct (IH _ _ _ _ Hrow1 Hrun) as (row' & Hrow' & Hatt & Hst).
    exists row'. split; [done|]. split; [lia|]. auto.
Qed.

(** C4 (as the code has it). Along every sequence of status updates of a
    job that stays within the state machine, at each update that succeeds:
    [attempts] grows by exactly one when the update enters RUNNING and is
    unchanged otherwise, so it never decreases along the sequence;
    [started_at] is set when RUNNING is entered, to the time of the update
    unless it was set before, and a [started_at] that is set is never
    replaced; [completed_at] is set to the time of the update when
    COMPLETED or FAILED is entered; when FAILED is entered, [error] is the
    error supplied if that is a non-empty string, else the error the job
    already carries if that is a non-empty string, else "Job failed" (so
    it is "Job failed" when none is supplied and the job carries none);
    when RUNNING is entered, [error] is cleared. *)
Theorem job_transition_sequence_bookkeeping
  (repo repo1 repo2 : CoordinatorRepository) (job_id : string)
  (before : list transition_request) (r : transition_request)
  (row0 row1 : JobRecord.t) (job : Job) :
  jobs repo !! job_id = Some row0 →
  run_transitions repo job_id before = Some repo1 →
  jobs repo1 !! job_id = Some row1 →
  transition_job_status repo1 (at_time r) job_id (new_status r) (with_error r)
  = (repo2, Ok job) →
  ∃ row2,
    jobs repo2 !! job_id = Some row2 ∧ job = _to_job row2 ∧
    (enters RUNNING row1 r →
       JobRecord.attempts row2 = JobRecord.attempts row1 + 1) ∧
    (¬ enters RUNNING row1 r →
       JobRecord.attempts row2 = JobRecord.attempts row1) ∧
    JobRecord.attempts row0 ≤ JobRecord.attempts row1 ∧
    JobRecord.attempts row1 ≤ JobRecord.attempts row2 ∧
    (enters RUNNING row1 r →
       JobRecord.started_at row2
       = Some (default (at_time r) (JobRecord.started_at row1))) ∧
    (¬ enters RUNNING row1 r →
       JobRecord.started_at row2 = JobRecord.started_at row1) ∧
    (∀ t, JobRecord.started_at row0 = Some t →
          JobRecord.started_at row2 = Some t) ∧
    (enters COMPLETED row1 r ∨ enters FAILED row1 r →
       JobRecord.completed_at row2 = Some (at_time r)) ∧
    (enters FAILED row1 r →
       JobRecord.error row2
       = py.or_else (py.or_else (with_error r) (JobRecord.error row1))
                    (Some "Job failed")) ∧
    (enters FAILED row1 r → with_error r = None →
     JobRecord.error row1 = None →
       JobRecord.error row2 = Some "Job failed") ∧
    (enters RUNNING row1 r → JobRecord.error row2 = None).
Proof.
  intros Hrow0 Hrun Hrow1 Hstep.
  destruct (run_transitions_monotone _ _ _ _ _ Hrow0 Hrun)
    as (row1' & Hrow1' & Hatt01 & Hst01).
  assert (row1' = row1) as -> by congruence.
  destruct (transition_ok_monotone _ _ _ _ _ _ _ _ Hrow1 Hstep)
    as (row2' & Hrow2' & Hatt12 & Hst12).
  destruct (transition_ok_inv _ _ _ _ _ _ _ _ Hrow1 Hstep)
    as (row2 & Hrow2 & Hjob & Hcases).
  assert (row2' = row2) as -> by congruence.
  exists row2. split; [done|]. split; [done|].
  unfold enters.
  destruct Hcases as [[Heq ->]|(Hne & Hallowed & ->)].
  - (* the update asks for the status the job has *)
    assert (Hno : ∀ s, ¬ (new_status r = s ∧ JobRecord.status row1 ≠ s))
      by (intros s [? ?]; congruence).
    repeat split; try (intros H; by destruct (Hno _ H)); auto;
      try (destruct (with_error r); done).
    intros [H|H]; by destruct (Hno _ H).
  - (* the update enters a new status *)
    destruct (new_status r) eqn:Hnew; cbn; rewrite ?attempts_or_zero;
      repeat split; try done; try lia; auto;
      try (intros [? ?]; congruence);
      try (intros [[? ?]|[? ?]]; congruence);
      try (intros H; exfalso; apply H; by split).
    + intros _ -> ->. done.
Qed.

(** The bookkeeping on the sequence start, note, fail of job-1. *)
Lemma job_transition_sequence_bookkeeping_witness :
  jobs (one_job_repository queued_job) !! "job-1" = Some queued_job
  ∧ run_transitions (one_job_repository queued_job) "job-1"
      [start_request; note_request]
    = Some (one_job_repository running_job)
  ∧ jobs (one_job_repository running_job) !! "job-1" = Some running_job
  ∧ transition_job_status (one_job_repository running_job)
      (at_time fail_request) "job-1" (new_status fail_request)
      (with_error fail_request)
    = (one_job_repository failed_job, Ok (_to_job failed_job))
  ∧ ∃ row2,
      jobs (one_job_repository failed_job) !! "job-1" = Some row2
      ∧ JobRecord.attempts row2 = 1
      ∧ JobRecord.started_at row2 = Some 2000
      ∧ JobRecord.completed_at row2 = Some 4000
      ∧ JobRecord.error row2 = Some "disk full".
Proof.
  assert (H0 : jobs (one_job_repository queued_job) !! "job-1"
               = Some queued_job) by (vm_compute; reflexivity).
  assert (H1 : run_transitions (one_job_repository queued_job) "job-1"
                 [start_request; note_request]
               = Some (one_job_repository running_job))
    by (vm_compute; reflexivity).
  assert (H2 : jobs (one_job_repository running_job) !! "job-1"
               = Some running_job) by (vm_compute; reflexivity).
  assert (H3 : transition_job_status (one_job_repository running_job)
                 (at_time fail_request) "job-1" (new_status fail_request)
                 (with_error fail_request)
               = (one_job_repository failed_job, Ok (_to_job failed_job)))
    by (vm_compute; reflexivity).
  do 4 (split; [assumption|]).
  destruct (job_transition_sequence_bookkeeping _ _ _ _ _ _ _ _ _
              H0 H1 H2 H3)
    as (row2 & Hrow2 & _ & _ & Hatt & _ & _ & _ & Hst & _ & Hdone & Herr & _).
  exists row2. split; [exact Hrow2|].
  split; [apply Hatt; vm_compute; intros [? _]; discriminate|].
  split; [apply Hst; vm_compute; intros [? _]; discriminate|].
  split; [apply Hdone; right; split; vm_compute; [reflexivity|discriminate]|].
  apply Herr. split; vm_compute; [reflexivity|discriminate].
Defined.

(** C4 as stated fails: the job is started, an update to RUNNING with the
    error "disk full" is tolerated as a self-transition, and the entry to
    FAILED without an error keeps "disk full" instead of "Job failed". *)
Lemma failed_without_error_keeps_recorded_error :
  with_error fail_request = None
  ∧ error_after [start_request; note_request; fail_request]
    = Some (Some "disk full")
  ∧ error_after [start_request; note_request; fail_request]
    ≠ Some (Some "Job failed").
Proof.
  split; [reflexivity|].
  assert (E : error_after [start_request; note_request; fail_request]
              = Some (Some "disk full")) by (vm_compute; reflexivity).
  split; [exact E|]. rewrite E. discriminate.
Qed.

(** Without the intermediate update the default applies. *)
Example failed_without_error_defaults :
  error_after [start_request; fail_request] = Some (Some "Job failed").
Proof. vm_compute. reflexivity. Qed.

End job_lifecycle.

(** ** Nodes: staleness sweep, heartbeat, policy *)

Section node_store.

Lemma sweep_row_unfold (now cutoff : datetime)
  (session : gmap string NodeRecord.t) (updated_nodes : list Node)
  (key : string) (row : NodeRecord.t) :
  sweep_row now cutoff (session, updated_nodes) (key, row)
  = if is_stale cutoff row
    then (<[key := demote now row]> session,
          updated_nodes ++ [_to_node (demote now row)])
    else (session, updated_nodes).
Proof. reflexivity. Qed.

(** The loop of the sweep over rows with distinct keys, each of them the
    row the table holds under its key. *)
Lemma sweep_loop (now cutoff : datetime) (rows : list (string * NodeRecord.t)) :
  ∀ (session : gmap string NodeRecord.t) (updated_nodes : list Node),
    NoDup rows.*1 →
    (∀ key row, (key, row) ∈ rows → session !! key = Some row) →
    let result := foldl (sweep_row now cutoff) (session, updated_nodes) rows in
    (∀ key row, (key, row) ∈ rows →
       result.1 !! key
       = Some (if is_stale cutoff row then demote now row else row))
    ∧ (∀ key, key ∉ rows.*1 → result.1 !! key = session !! key)
    ∧ result.2
      = updated_nodes
        ++ ((λ entry, _to_node (demote now entry.2))
              <$> filter (λ entry, is_stale cutoff entry.2 = true) rows).
Proof.
  induction rows as [|[key0 row0] rows IH]; intros session updated_nodes Hnd Hin.
  - cbn. split; [intros ? ? []%elem_of_nil|]. split; [done|].
    by rewrite app_nil_r.
  - cbn [foldl]. rewrite sweep_row_unfold.
    apply NoDup_cons in Hnd as [Hfresh Hnd]. cbn [fmap list_fmap fst] in *.
    set (session1 := if is_stale cutoff row0
                     then <[key0 := demote now row0]> session else session).
    set (updated1 := if is_stale cutoff row0
                     then updated_nodes ++ [_to_node (demote now row0)]
                     else updated_nodes).
    assert (Hstep : (if is_stale cutoff row0
                     then (<[key0 := demote now row0]> session,
                           updated_nodes ++ [_to_node (demote now row0)])
                     else (session, updated_nodes)) = (session1, updated1))
      by (subst session1 updated1; by destruct (is_stale cutoff row0)).
    rewrite Hstep. clear Hstep.
    assert (Hother : ∀ key, key ≠ key0 → session1 !! key = session !! key).
    { intros key Hne. subst session1. destruct (is_stale cutoff row0); [|done].
      by rewrite lookup_insert_ne. }
    assert (Hhead : session1 !! key0
                    = Some (if is_stale cutoff row0 then demote now row0
                            else row0)).
    { subst session1. destruct (is_stale cutoff row0).
      - apply lookup_insert_eq.
      - apply Hin. left. }
    assert (Hin1 : ∀ key row, (key, row) ∈ rows → session1 !! key = Some row).
    { intros key row Hmem. rewrite Hother.
      - apply Hin. by right.
      - intros ->. apply Hfresh. apply list_elem_of_fmap. by exists (key0, row). }
    destruct (IH session1 updated1 Hnd Hin1) as (IH1 & IH2 & IH3).
    split; [|split].
    + intros key row [[= -> ->]|Hmem]%elem_of_cons.
      * by rewrite IH2.
      * by apply IH1.
    + intros key Hkey. apply not_elem_of_cons in Hkey as [Hne Hkey].
      rewrite IH2 by done. by apply Hother.
    + rewrite IH3. subst updated1. rewrite filter_cons. cbn [snd].
      destruct (is_stale cutoff row0) eqn:Hs.
      * rewrite decide_True by done. rewrite fmap_cons, <- app_assoc. done.
      * rewrite decide_False by done. done.
Qed.

Lemma is_stale_spec (cutoff : datetime) (row : NodeRecord.t) :
  is_stale cutoff row = true
  ↔ NodeRecord.last_seen row < cutoff ∧ NodeRecord.status row ≠ OFFLINE.
Proof.
  unfold is_stale.
  by rewrite andb_true_iff, negb_true_iff, bool_decide_eq_true,
    bool_decide_eq_false.
Qed.

(** C5. [mark_offline_if_stale_nodes(stale_seconds)] run at time [T], with
    [T] and the cutoff [T − stale_seconds] dates that [datetime] can hold,
    sets the status to OFFLINE and [updated_at] to [T] for exactly the
    nodes with [last_seen < T − stale_seconds] whose status is not OFFLINE,
    returns exactly those nodes as changed, each of them once and in some
    order, and leaves every other row, the set of node ids and the jobs as
    they were. *)
Theorem mark_offline_if_stale_nodes_exact (repo : CoordinatorRepository)
  (T stale_seconds : Z) :
  representable T →
  representable (T - timedelta_seconds stale_seconds) →
  let cutoff := T - timedelta_seconds stale_seconds in
  let stale (row : NodeRecord.t) :=
    NodeRecord.last_seen row < cutoff ∧ NodeRecord.status row ≠ OFFLINE in
  let demoted (row : NodeRecord.t) :=
    NodeRecord.set_updated_at T (NodeRecord.set_status OFFLINE row) in
  let repo' := (mark_offline_if_stale_nodes repo T stale_seconds).1 in
  let changed := (mark_offline_if_stale_nodes repo T stale_seconds).2 in
  (∀ key row, nodes repo !! key = Some row → stale row →
     nodes repo' !! key = Some (demoted row)
     ∧ NodeRecord.status (demoted row) = OFFLINE
     ∧ NodeRecord.updated_at (demoted row) = T) ∧
  (∀ key row, nodes repo !! key = Some row → ¬ stale row →
     nodes repo' !! key = Some row) ∧
  (∀ key, nodes repo !! key = None → nodes repo' !! key = None) ∧
  jobs repo' = jobs repo ∧
  (∀ node, node ∈ changed ↔
     ∃ key row, nodes repo !! key = Some row ∧ stale row
                ∧ node = _to_node (demoted row)) ∧
  changed
  ≡ₚ (λ entry, _to_node (demoted entry.2))
       <$> filter (λ entry, is_stale cutoff entry.2 = true)
             (map_to_list (nodes repo)) ∧
  length changed
  = length (filter (λ entry, is_stale cutoff entry.2 = true)
              (map_to_list (nodes repo))).
Proof.
  intros _ _ cutoff stale demoted repo' changed.
  subst repo' changed. unfold mark_offline_if_stale_nodes. fold cutoff.
  pose proof (sweep_loop T cutoff (map_to_list (nodes repo)) (nodes repo) []
                (NoDup_fst_map_to_list _)) as Hloop.
  destruct (foldl (sweep_row T cutoff) (nodes repo, [])
              (map_to_list (nodes repo))) as [session updated_nodes].
  unfold with_nodes. cbn [fst snd nodes jobs] in *.
  destruct Hloop as (Hin & Hout & Hupd).
  { intros key row. apply elem_of_map_to_list. }
  cbn [app] in Hupd.
  assert (Hstale : ∀ row, is_stale cutoff row = true ↔ stale row)
    by (intros row; apply is_stale_spec).
  split; [|split; [|split; [|split; [|split; [|split]]]]].
  - intros key row Hrow Hs. split; [|done].
    rewrite (Hin key row) by (by apply elem_of_map_to_list).
    apply Hstale in Hs. by rewrite Hs.
  - intros key row Hrow Hs.
    rewrite (Hin key row) by (by apply elem_of_map_to_list).
    destruct (is_stale cutoff row) eqn:E; [|done].
    by apply Hstale in E.
  - intros key Hnone. rewrite Hout; [done|].
    intros ((key' & row) & -> & Hmem%elem_of_map_to_list)%list_elem_of_fmap.
    cbn in Hnone. congruence.
  - done.
  - intros node. rewrite Hupd, list_elem_of_fmap. split.
    + intros ([key row] & -> & Hmem). apply list_elem_of_filter in Hmem as [Hs Hmem].
      exists key, row. split; [by apply elem_of_map_to_list|].
      split; [by apply Hstale|done].
    + intros (key & row & Hrow & Hs & ->). exists (key, row). split; [done|].
      apply list_elem_of_filter. split; [by apply Hstale|].
      by apply elem_of_map_to_list.
  - by rewrite Hupd.
  - by rewrite Hupd, length_fmap.
Qed.

(** The sweep of the two nodes at 500 s with [stale_seconds = 60]: one
    node is changed, the jobs are not. *)
Lemma mark_offline_if_stale_nodes_exact_witness :
  representable 500000000
  ∧ representable (500000000 - timedelta_seconds 60)
  ∧ jobs (mark_offline_if_stale_nodes two_node_repository 500000000 60).1
    = jobs two_node_repository
  ∧ length (mark_offline_if_stale_nodes two_node_repository 500000000 60).2
    = 1%nat.
Proof.
  assert (H1 : representable 500000000)
    by (unfold representable, datetime_min, datetime_max; lia).
  assert (H2 : representable (500000000 - timedelta_seconds 60))
    by (unfold representable, datetime_min, datetime_max, timedelta_seconds;
        lia).
  split; [exact H1|]. split; [exact H2|].
  destruct (mark_offline_if_stale_nodes_exact two_node_repository 500000000 60
              H1 H2) as (_ & _ & _ & Hjobs & _ & _ & Hlen).
  split; [exact Hjobs|]. rewrite Hlen. vm_compute. reflexivity.
Defined.

(** The sweep demotes the silent node, returns it, and leaves the other. *)
Example stale_demotion :
  let outcome :=
    mark_offline_if_stale_nodes two_node_repository 500000000 60 in
  (identity <$> outcome.2)
  = [ {| node_id := "node-1"; display_name := "node-1"; ip := "127.0.0.1";
         port := 9100 |} ]
  ∧ (status <$> outcome.2) = [OFFLINE]
  ∧ (status <$> get_node outcome.1 "node-1") = Some OFFLINE
  ∧ (updated_at <$> get_node outcome.1 "node-1") = Some 500000000
  ∧ get_node outcome.1 "node-2" = get_node two_node_repository "node-2".
Proof. vm_compute. repeat split. Qed.

Lemma ensure_node_lookup `{ModelDefaults} (session : gmap string NodeRecord.t)
  (now : datetime) (node_id : string) :
  let '(session', node) := _ensure_node session now node_id in
  session' !! node_id = Some node
  ∧ (∀ key, key ≠ node_id → session' !! key = session !! key)
  ∧ match session !! node_id with
    | Some row => node = row ∧ session' = session
    | None =>
        node = NodeRecord.mk node_id node_id "0.0.0.0" 0 UNKNOWN
                 NodeCapabilities_default NodeMetrics_default
                 NodePolicy_default now now now
    end.
Proof.
  unfold _ensure_node. destruct (session !! node_id) as [row|] eqn:Hrow.
  - done.
  - split; [apply lookup_insert_eq|]. split; [|done].
    intros key Hne. by rewrite lookup_insert_ne.
Qed.

(** What [update_node_metrics] does, for every node id and metrics
    payload: it replaces the node's metrics, sets the status to ONLINE and
    [updated_at] to the time of the call, and keeps the other fields of an
    existing row; when no row has the id it first creates one with the
    default capabilities, metrics and policy (status UNKNOWN).  The node
    it returns has the instant of the payload's [heartbeat_ts] as
    [last_seen]; the row it writes has the digits of [heartbeat_ts], which
    are read as UTC from then on.  The two agree when [heartbeat_ts] is in
    UTC.  No other row changes. *)
Lemma update_node_metrics_effect `{ModelDefaults}
  (repo : CoordinatorRepository) (now now' : datetime) (node_id : string)
  (metrics : NodeMetrics) :
  let repo' := (update_node_metrics repo now now' node_id metrics).1 in
  let node := (update_node_metrics repo now now' node_id metrics).2 in
  let before :=
    match nodes repo !! node_id with
    | Some row => row
    | None =>
        NodeRecord.mk node_id node_id "0.0.0.0" 0 UNKNOWN
          NodeCapabilities_default NodeMetrics_default NodePolicy_default
          now' now' now'
    end in
  let written (last_seen : datetime) :=
    NodeRecord.mk (NodeRecord.node_id before)
      (NodeRecord.display_name before) (NodeRecord.ip before)
      (NodeRecord.port before) ONLINE
      (NodeRecord.capabilities_json before) metrics
      (NodeRecord.policy_json before) last_seen
      (NodeRecord.created_at before) now in
  (nodes repo !! node_id = None →
     (_ensure_node (nodes repo) now' node_id).2 = before) ∧
  nodes repo' !! node_id
  = Some (written (instant (heartbeat_ts metrics)
                   + utcoffset (heartbeat_ts metrics))) ∧
  get_node repo' node_id
  = Some (_to_node (written (instant (heartbeat_ts metrics)
                             + utcoffset (heartbeat_ts metrics)))) ∧
  node = _to_node (written (instant (heartbeat_ts metrics))) ∧
  models.metrics node = metrics ∧
  status node = ONLINE ∧
  last_seen node = instant (heartbeat_ts metrics) ∧
  updated_at node = now ∧
  (utcoffset (heartbeat_ts metrics) = 0 → get_node repo' node_id = Some node) ∧
  (∀ key, key ≠ node_id → nodes repo' !! key = nodes repo !! key) ∧
  jobs repo' = jobs repo.
Proof.
  intros repo' node before written. subst repo' node.
  unfold update_node_metrics, get_node.
  pose proof (ensure_node_lookup (nodes repo) now' node_id) as Hensure.
  destruct (_ensure_node (nodes repo) now' node_id) as [session row] eqn:E.
  destruct Hensure as (Hlook & Hother & Hrow).
  unfold with_nodes. cbn [fst snd nodes jobs].
  rewrite lookup_insert_eq.
  assert (row = before) as ->.
  { subst before. destruct (nodes repo !! node_id); [by destruct Hrow|done]. }
  split; [done|]. split; [done|]. do 6 (split; [done|]).
  split.
  { intros Hutc. unfold wall_clock. rewrite Hutc, Z.add_0_r. done. }
  split; [|done].
  intros key Hne. rewrite lookup_insert_ne by done. by apply Hother.
Qed.

(** C6, at a heartbeat from another zone.  The payload is stamped
    2026-01-01T05:00:00+05:00, midnight in UTC, and arrives 100 s later.
    The node returned was last seen at midnight; the node read back from
    the store was last seen at five o'clock, and is not the node returned.
    An hour after the heartbeat the sweep with [stale_seconds = 60] still
    finds the node fresh; had the stamp been in UTC it would demote it. *)
Theorem heartbeat_from_another_zone :
  let outcome :=
    update_node_metrics (H := documented_defaults) empty_repository
      1767225700000000 1767225700000000 "node-1" zoned_sample in
  let in_utc :=
    update_node_metrics (H := documented_defaults) empty_repository
      1767225700000000 1767225700000000 "node-1" (sample 1767225600000000) in
  instant (heartbeat_ts zoned_sample) = 1767225600000000
  ∧ utcoffset (heartbeat_ts zoned_sample) = 5 * 3600 * 1000000
  ∧ last_seen outcome.2 = 1767225600000000
  ∧ (last_seen <$> get_node outcome.1 "node-1") = Some 1767243600000000
  ∧ get_node outcome.1 "node-1" ≠ Some outcome.2
  ∧ (mark_offline_if_stale_nodes outcome.1 1767229200000000 60).2 = []
  ∧ length (mark_offline_if_stale_nodes in_utc.1 1767229200000000 60).2
    = 1%nat.
Proof.
  cbv zeta. split; [reflexivity|]. split; [reflexivity|].
  split; [reflexivity|]. split; [vm_compute; reflexivity|].
  split; [vm_compute; discriminate|].
  split; vm_compute; reflexivity.
Qed.

(** Every operation that writes a node goes through [_ensure_node]: the
    node exists afterwards, whether it did before or not. *)
Lemma node_writers_upsert `{ModelDefaults} (repo : CoordinatorRepository)
  (now now' : datetime) (node_id display_name ip : string) (port : Z)
  (capabilities : NodeCapabilities) (metrics : NodeMetrics)
  (policy : NodePolicy) :
  is_Some (nodes (upsert_node_identity repo now now' node_id display_name
                    ip port).1 !! node_id)
  ∧ is_Some (nodes (upsert_node_capabilities repo now now' node_id
                      capabilities).1 !! node_id)
  ∧ is_Some (nodes (update_node_metrics repo now now' node_id metrics).1
             !! node_id)
  ∧ is_Some (nodes (update_node_policy repo now now' node_id policy).1
             !! node_id).
Proof.
  unfold upsert_node_identity, upsert_node_capabilities, update_node_metrics,
    update_node_policy.
  destruct (_ensure_node (nodes repo) now' node_id) as [session node].
  unfold with_nodes. cbn [fst nodes]. rewrite !lookup_insert_eq.
  repeat split; eauto.
Qed.

(** C9 (as the code has it). PUT /v1/nodes/{id}/policy for a node id that
    does not exist succeeds with status 200 and creates the node record:
    display name equal to the id, ip 0.0.0.0, port 0, status UNKNOWN, the
    default capabilities and metrics, and the policy of the request; the
    node returned is the one stored. *)
Theorem put_node_policy_unknown_node `{ModelDefaults}
  (repo : CoordinatorRepository) (now now' : datetime) (node_id : string)
  (policy : NodePolicy) :
  nodes repo !! node_id = None →
  let repo' := (put_node_policy repo now now' node_id policy).1 in
  let created :=
    NodeRecord.mk node_id node_id "0.0.0.0" 0 UNKNOWN
      NodeCapabilities_default NodeMetrics_default policy now' now' now in
  (put_node_policy repo now now' node_id policy).2
  = Response 200 (_to_node created)
  ∧ nodes repo' !! node_id = Some created
  ∧ get_node repo' node_id = Some (_to_node created)
  ∧ (∀ key, key ≠ node_id → nodes repo' !! key = nodes repo !! key)
  ∧ jobs repo' = jobs repo.
Proof.
  intros Hnone repo' created. subst repo' created.
  unfold put_node_policy, update_node_policy, get_node, _ensure_node.
  rewrite Hnone. unfold with_nodes. cbn [fst snd nodes jobs].
  rewrite insert_insert_eq, lookup_insert_eq.
  do 3 (split; [done|]). split; [|done].
  intros key Hne. by rewrite lookup_insert_ne.
Qed.

(** The policy update of the unknown node "ghost" on the empty store. *)
Lemma put_node_policy_unknown_node_witness :
  nodes empty_repository !! "ghost" = None
  ∧ (put_node_policy (H := documented_defaults) empty_repository 5000 5001
       "ghost" inference_policy).2
    = Response 200
        (_to_node
           (NodeRecord.mk "ghost" "ghost" "0.0.0.0" 0 UNKNOWN
              (NodeCapabilities_default (ModelDefaults := documented_defaults))
              (NodeMetrics_default (ModelDefaults := documented_defaults))
              inference_policy 5001 5001 5000)).
Proof.
  split; [reflexivity|].
  apply (put_node_policy_unknown_node (H := documented_defaults)
           empty_repository 5000 5001 "ghost" inference_policy).
  reflexivity.
Defined.

(** C9 as stated fails: on a store without nodes the route answers 200, not
    404, and the node exists afterwards. *)
Lemma put_node_policy_creates_node :
  let outcome :=
    put_node_policy (H := documented_defaults) empty_repository 5000 5001
      "ghost" inference_policy in
  get_node empty_repository "ghost" = None
  ∧ status_code outcome.2 = 200
  ∧ status_code outcome.2 ≠ 404
  ∧ (policy <$> get_node outcome.1 "ghost") = Some inference_policy.
Proof. vm_compute. repeat split; discriminate. Qed.

(** The read route on the same store does answer 404. *)
Example get_node_detail_unknown_node :
  status_code
    (get_node_detail empty_repository (new_MetricsHistoryBuffer 256) "ghost"
       false 20) = 404.
Proof. reflexivity. Qed.

End node_store.

(** ** Metrics history buffer *)

Section history_buffer.

Lemma length_lastn {A} (k : nat) (l : list A) :
  length (lastn k l) = Nat.min k (length l).
Proof. unfold lastn. rewrite length_drop. lia. Qed.

Lemma lastn_all {A} (k : nat) (l : list A) :
  (length l ≤ k)%nat → lastn k l = l.
Proof.
  intros Hle. unfold lastn. by replace (length l - k)%nat with 0%nat by lia.
Qed.

Lemma lastn_lastn {A} (k m : nat) (l : list A) :
  lastn k (lastn m l) = lastn (Nat.min k m) l.
Proof.
  unfold lastn. rewrite length_drop, drop_drop. f_equal. lia.
Qed.

Lemma lastn_snoc {A} (k : nat) (l : list A) (x : A) :
  lastn (S k) (l ++ [x]) = lastn k l ++ [x].
Proof.
  unfold lastn. rewrite length_app. cbn [length].
  replace (length l + 1 - S k)%nat with (length l - k)%nat by lia.
  rewrite drop_app_le by lia. done.
Qed.

Lemma lastn_0 {A} (l : list A) : lastn 0 l = [].
Proof. unfold lastn. rewrite Nat.sub_0_r. apply drop_all. Qed.

(** The bounded append keeps the last [m] of what was offered. *)
Lemma deque_append_lastn {A} (m : nat) (xs : list A) (x : A) :
  deque_append (Z.of_nat m) x (lastn m xs) = lastn m (xs ++ [x]).
Proof.
  unfold deque_append.
  rewrite length_app, length_lastn. cbn [length].
  destruct m as [|m].
  - rewrite !lastn_0. cbn. done.
  - rewrite lastn_snoc.
    destruct (Z.ltb_spec (Z.of_nat (S m))
                (Z.of_nat (Nat.min (S m) (length xs) + 1))) as [Hfull|Hroom].
    + (* the deque was full: the oldest sample goes *)
      assert (Hlen : (S m ≤ length xs)%nat) by lia.
      unfold lastn. rewrite drop_app_le by (rewrite length_drop; lia).
      rewrite drop_drop. do 2 f_equal. lia.
    + assert (Hlen : (length xs ≤ m)%nat) by lia.
      by rewrite !lastn_all by lia.
Qed.

Lemma appended_for_snoc (node_id key : string) (x : NodeMetrics)
  (calls : list (string * NodeMetrics)) :
  appended_for node_id (calls ++ [(key, x)])
  = appended_for node_id calls ++ (if decide (key = node_id) then [x] else []).
Proof.
  unfold appended_for. rewrite filter_app, fmap_app. f_equal.
  rewrite filter_cons, filter_nil. cbn [fst].
  by destruct (decide (key = node_id)).
Qed.

(** The stored samples of a node, none when the node has no deque. *)
Lemma run_appends_lastn (m : nat) (calls : list (string * NodeMetrics)) :
  ∀ (buf : MetricsHistoryBuffer) (earlier : list (string * NodeMetrics)),
    _max_samples buf = Z.of_nat m →
    (∀ node_id, default [] (_samples buf !! node_id)
                = lastn m (appended_for node_id earlier)) →
    ∃ buf',
      run_appends buf calls = Some buf'
      ∧ _max_samples buf' = Z.of_nat m
      ∧ ∀ node_id, default [] (_samples buf' !! node_id)
                   = lastn m (appended_for node_id (earlier ++ calls)).
Proof.
  induction calls as [|[key x] calls IH]; intros buf earlier Hmax Hinv.
  - exists buf. rewrite app_nil_r. done.
  - cbn [run_appends].
    set (items := default [] (_samples buf !! key)).
    assert (Hstep : append buf key x
      = Some {| _max_samples := _max_samples buf;
                _samples := <[key := deque_append (_max_samples buf) x items]>
                              (_samples buf) |}).
    { unfold append, items. destruct (_samples buf !! key); [done|].
      cbn. by rewrite (proj2 (Z.ltb_ge _ _)) by lia. }
    rewrite Hstep.
    match goal with
    | |- context [run_appends ?b calls] =>
        destruct (IH b (earlier ++ [(key, x)]) Hmax)
          as (buf' & Hrun & Hmax' & Hinv')
    end.
    + intros node_id. cbn [_samples]. rewrite appended_for_snoc.
      destruct (decide (key = node_id)) as [->|Hne].
      * rewrite lookup_insert_eq. cbn. subst items.
        rewrite Hmax, Hinv. apply deque_append_lastn.
      * rewrite lookup_insert_ne by done. by rewrite app_nil_r.
    + exists buf'. rewrite <- app_assoc in Hinv'. done.
Qed.

Lemma slice_from_neg {A} (k : Z) (items : list A) :
  1 ≤ k → py.slice_from (- k) items = lastn (Z.to_nat k) items.
Proof.
  intros Hk. unfold py.slice_from, lastn.
  rewrite (proj2 (Z.ltb_lt _ _)) by lia. f_equal. lia.
Qed.

Lemma get_positive_limit (buf : MetricsHistoryBuffer) (node_id : string)
  (limit : Z) :
  1 ≤ limit →
  get buf node_id limit
  = lastn (Z.to_nat limit) (default [] (_samples buf !! node_id)).
Proof.
  intros Hlimit. unfold get.
  destruct (_samples buf !! node_id) as [[|x items]|];
    cbn [from_option]; unfold Datatypes.id; [done| |done].
  by rewrite slice_from_neg.
Qed.

(** C7 (as the code has it). For every node id and every sequence of
    [append] calls on a buffer made with [max_samples >= 0], the buffer
    holds for the node the last [max_samples] samples offered for it, so at
    most [max_samples]; and for every [limit >= 1], [get(node_id, limit)]
    returns the last [min(limit, available)] of them, oldest first. *)
Theorem history_buffer_keeps_most_recent (max_samples : Z)
  (calls : list (string * NodeMetrics)) (node_id : string) (limit : Z) :
  0 ≤ max_samples →
  1 ≤ limit →
  ∃ buf,
    run_appends (new_MetricsHistoryBuffer max_samples) calls = Some buf ∧
    let stored := default [] (_samples buf !! node_id) in
    let offered := appended_for node_id calls in
    stored = lastn (Z.to_nat max_samples) offered ∧
    Z.of_nat (length stored) ≤ max_samples ∧
    get buf node_id limit = lastn (Z.to_nat limit) stored ∧
    get buf node_id limit
    = lastn (Z.to_nat (Z.min limit max_samples)) offered ∧
    Z.of_nat (length (get buf node_id limit))
    = Z.min limit (Z.of_nat (length stored)).
Proof.
  intros Hmax Hlimit.
  destruct (run_appends_lastn (Z.to_nat max_samples) calls
              (new_MetricsHistoryBuffer max_samples) [])
    as (buf & Hrun & _ & Hinv).
  { cbn. lia. }
  { intros key. cbn. rewrite lookup_empty. done. }
  exists buf. split; [done|]. cbn [app] in Hinv. cbv zeta.
  rewrite get_positive_limit by done. rewrite Hinv.
  split; [done|]. split; [rewrite length_lastn; lia|].
  split; [done|]. split.
  - rewrite lastn_lastn. f_equal. lia.
  - rewrite !length_lastn. lia.
Qed.

(** A buffer of two samples after three appends for node-1 and one for
    node-2. *)
Lemma history_buffer_keeps_most_recent_witness :
  0 ≤ 2 ∧ 1 ≤ 1
  ∧ ∃ buf,
      run_appends (new_MetricsHistoryBuffer 2)
        [("node-1", sample 1); ("node-2", sample 2); ("node-1", sample 3);
         ("node-1", sample 4)] = Some buf
      ∧ default [] (_samples buf !! "node-1") = [sample 3; sample 4]
      ∧ get buf "node-1" 1 = [sample 4].
Proof.
  split; [lia|]. split; [lia|].
  destruct (history_buffer_keeps_most_recent 2
              [("node-1", sample 1); ("node-2", sample 2);
               ("node-1", sample 3); ("node-1", sample 4)] "node-1" 1)
    as (buf & Hrun & Hstored & _ & _ & Hget & _); [lia..|].
  exists buf. split; [exact Hrun|]. split.
  - rewrite Hstored. reflexivity.
  - rewrite Hget. reflexivity.
Defined.

(** C7 as stated fails for [limit = 0]: the buffer holds one sample and
    [get(node_id, 0)] returns it, one item where [min(limit, available)] is
    zero. *)
Lemma get_limit_zero_exceeds_bound :
  run_appends (new_MetricsHistoryBuffer 256) [("node-1", idle_metrics)]
  = Some one_sample_buffer
  ∧ get one_sample_buffer "node-1" 0 = [idle_metrics]
  ∧ ¬ (Z.of_nat (length (get one_sample_buffer "node-1" 0))
       ≤ Z.min 0 (Z.of_nat
                    (length (default [] (_samples one_sample_buffer
                                           !! "node-1"))))).
Proof.
  split; [vm_compute; reflexivity|]. split; [reflexivity|].
  vm_compute. intros H. apply H. reflexivity.
Qed.

Lemma slice_from_nonneg {A} (k : Z) (items : list A) :
  0 ≤ k → py.slice_from k items = drop (Z.to_nat k) items.
Proof.
  intros Hk. unfold py.slice_from. by rewrite (proj2 (Z.ltb_ge _ _)) by lia.
Qed.

Lemma get_nonpositive_limit (buf : MetricsHistoryBuffer) (node_id : string)
  (n : nat) :
  get buf node_id (- Z.of_nat n)
  = drop n (default [] (_samples buf !! node_id)).
Proof.
  unfold get.
  destruct (_samples buf !! node_id) as [[|x items]|];
    cbn [from_option]; unfold Datatypes.id; [by destruct n| |by destruct n].
  rewrite slice_from_nonneg by lia. f_equal. lia.
Qed.

(** C10. [get(node_id, 0)] returns every stored sample of the node, not the
    empty list; for a negative limit [−n] it returns all but the oldest [n]
    samples; and the bound "at most [limit] items" holds for every buffer
    exactly when [limit >= 1]. *)
Theorem get_limit_zero_and_negative (buf : MetricsHistoryBuffer)
  (node_id : string) :
  let stored := default [] (_samples buf !! node_id) in
  get buf node_id 0 = stored
  ∧ (∀ n : nat, get buf node_id (- Z.of_nat n) = drop n stored)
  ∧ (∀ limit : Z,
       (∀ (buf' : MetricsHistoryBuffer) (node_id' : string),
          Z.of_nat (length (get buf' node_id' limit)) ≤ limit)
       ↔ 1 ≤ limit).
Proof.
  cbv zeta. split; [|split].
  - apply (get_nonpositive_limit buf node_id 0).
  - apply get_nonpositive_limit.
  - intros limit. split.
    + intros Hbound.
      destruct (Z.le_gt_cases 1 limit) as [|Hlow]; [done|]. exfalso.
      specialize (Hbound one_sample_buffer "node-1").
      replace limit with (- Z.of_nat (Z.to_nat (- limit))) in Hbound at 1
        by lia.
      rewrite get_nonpositive_limit in Hbound.
      change (default [] (_samples one_sample_buffer !! "node-1"))
        with [idle_metrics] in Hbound.
      destruct (Z.to_nat (- limit)) eqn:E; cbn in Hbound; lia.
    + intros Hlimit buf' node_id'.
      rewrite get_positive_limit by done. rewrite length_lastn. lia.
Qed.

End history_buffer.

(** ** Event bus *)

Section event_bus.

Lemma full_spec (q : Queue) :
  full q = true ↔ 0 < maxsize q ∧ maxsize q ≤ Z.of_nat (length (pending q)).
Proof.
  unfold full, qsize. destruct (Z.leb_spec (maxsize q) 0).
  - split; [done|lia].
  - rewrite Z.leb_le. lia.
Qed.

(** On a queue of the bus, the loop body of [publish] drops the oldest
    event when the queue is full, enqueues the new one, and does not
    raise. *)
Lemma deliver_ok (queue_size : Z) (event : NodeUpdateEvent) (q : Queue) :
  queue_ok queue_size q →
  deliver event q = (delivered event q, None)
  ∧ queue_ok queue_size (delivered event q).
Proof.
  intros [Hsize Hlen]. unfold deliver, delivered.
  destruct (full q) eqn:Hfull.
  - apply full_spec in Hfull as [Hpos Hge].
    specialize (Hlen ltac:(lia)).
    unfold get_nowait. destruct (pending q) as [|oldest rest] eqn:Hp.
    { simpl in Hge. lia. }
    simpl length in *. cbn [drop]. unfold put_nowait.
    assert (Hroom : full {| maxsize := maxsize q; pending := rest |} = false).
    { apply not_true_iff_false. rewrite full_spec. cbn [maxsize pending].
      lia. }
    rewrite Hroom. cbn [maxsize pending]. split; [done|].
    split; [done|]. intros _. cbn [pending]. rewrite drop_0, length_app.
    simpl length. lia.
  - unfold put_nowait. rewrite Hfull. split; [done|].
    split; [done|]. intros Hpos. cbn [pending]. rewrite length_app.
    simpl length.
    apply not_true_iff_false in Hfull. rewrite full_spec in Hfull. lia.
Qed.

(** The loop of [publish] over a snapshot with distinct identities, each
    queue the one the bus holds under its identity. *)
Lemma publish_loop_ok (queue_size : Z) (event : NodeUpdateEvent)
  (subscribers : list (nat * Queue)) :
  ∀ live : gmap nat Queue,
    NoDup subscribers.*1 →
    (∀ ident q, (ident, q) ∈ subscribers →
       live !! ident = Some q ∧ queue_ok queue_size q) →
    let result := publish_loop event subscribers live in
    result.2 = None
    ∧ (∀ ident q, (ident, q) ∈ subscribers →
         result.1 !! ident = Some (delivered event q))
    ∧ (∀ ident, ident ∉ subscribers.*1 → result.1 !! ident = live !! ident).
Proof.
  induction subscribers as [|[ident0 q0] rest IH]; intros live Hnd Hin.
  - cbn. split; [done|]. split; [intros ? ? []%elem_of_nil|done].
  - cbn [publish_loop].
    destruct (Hin ident0 q0) as [Hq0 Hok0]; [left|].
    destruct (deliver_ok queue_size event q0 Hok0) as [-> _].
    apply NoDup_cons in Hnd as [Hfresh Hnd]. cbn [fmap list_fmap fst] in *.
    destruct (IH (<[ident0 := delivered event q0]> live) Hnd)
      as (IH1 & IH2 & IH3).
    { intros ident q Hmem. rewrite lookup_insert_ne.
      - apply Hin. by right.
      - intros ->. apply Hfresh. apply list_elem_of_fmap.
        by exists (ident, q). }
    split; [done|]. split.
    + intros ident q [[= -> ->]|Hmem]%elem_of_cons.
      * rewrite IH3 by done. apply lookup_insert_eq.
      * by apply IH2.
    + intros ident [Hne Hnot]%not_elem_of_cons.
      rewrite IH3 by done. by rewrite lookup_insert_ne.
Qed.

Lemma publish_ok (bus : NodeEventBus) (event : NodeUpdateEvent) :
  bus_ok bus →
  (publish bus event).2 = None
  ∧ _queue_size (publish bus event).1 = _queue_size bus
  ∧ _allocated (publish bus event).1 = _allocated bus
  ∧ (∀ ident,
       _subscribers (publish bus event).1 !! ident
       = delivered event <$> _subscribers bus !! ident)
  ∧ bus_ok (publish bus event).1.
Proof.
  intros Hok. unfold publish.
  pose proof (publish_loop_ok (_queue_size bus) event
                (map_to_list (_subscribers bus)) (_subscribers bus)
                (NoDup_fst_map_to_list _)) as Hloop.
  destruct (publish_loop event (map_to_list (_subscribers bus))
              (_subscribers bus)) as [live raised].
  cbn [fst snd _queue_size _allocated _subscribers] in *.
  destruct Hloop as (Hraised & Hin & Hout).
  { intros ident q Hmem%elem_of_map_to_list. split; [done|].
    by apply (Hok ident q). }
  assert (Hlook : ∀ ident,
            live !! ident = delivered event <$> _subscribers bus !! ident).
  { intros ident. destruct (_subscribers bus !! ident) as [q|] eqn:Hq.
    - cbn. apply Hin. by apply elem_of_map_to_list.
    - cbn. rewrite Hout; [done|].
      intros ([ident' q] & -> & Hmem%elem_of_map_to_list)%list_elem_of_fmap.
      cbn in Hq. congruence. }
  do 4 (split; [done|]).
  intros ident q'. cbn [_subscribers _queue_size _allocated].
  rewrite Hlook. destruct (_subscribers bus !! ident) as [q|] eqn:Hq; [|done].
  intros [= <-]. destruct (Hok ident q Hq) as [Hqok Hlt].
  split; [|done]. by apply deliver_ok.
Qed.

Lemma subscribe_ok (bus : NodeEventBus) :
  bus_ok bus → bus_ok (subscribe bus).1.
Proof.
  intros Hok ident q. unfold subscribe.
  cbn [fst _subscribers _queue_size _allocated].
  destruct (decide (ident = _allocated bus)) as [->|Hne].
  - rewrite lookup_insert_eq. intros [= <-]. split; [|lia].
    split; [done|]. cbn. lia.
  - rewrite lookup_insert_ne by done. intros Hq.
    destruct (Hok ident q Hq). split; [done|lia].
Qed.




Lemma new_bus_ok (queue_size : Z) : bus_ok (new_NodeEventBus queue_size).
Proof. intros ident q. cbn. by rewrite lookup_empty. Qed.



Lemma lastn_suffix {A} (k : nat) (l : list A) : lastn k l `suffix_of` l.
Proof. unfold lastn. apply suffix_drop. Qed.



End event_bus.

(** * Further properties of the code *)

From stdpp Require Import sorting.

Import vocabulary.

Local Open Scope Z_scope.

(** ** Scheduler core, continued *)

Section scheduler_more.

Lemma when_concat_nil (b1 b2 b3 b4 b5 b6 b7 : bool) :
  when b1 "policy_disabled" ++ when b2 "node_not_online"
  ++ when b3 "task_not_allowed" ++ when b4 "cpu_over_cap"
  ++ when b5 "ram_over_cap" ++ when b6 "gpu_required"
  ++ when b7 "gpu_over_cap" = []
  ↔ b1 = false ∧ b2 = false ∧ b3 = false ∧ b4 = false ∧ b5 = false
    ∧ b6 = false ∧ b7 = false.
Proof.
  destruct b1, b2, b3, b4, b5, b6, b7; cbn; split;
    try discriminate; try done; intros (? & ? & ? & ? & ? & ? & ?); discriminate.
Qed.

(** X1. [is_node_eligible] holds exactly when the policy is enabled, the
    node is ONLINE, the task is allowed, CPU and RAM are within their caps
    and, for INFERENCE, the node has a GPU whose load, when known, is
    within the GPU cap (100 when unset). *)
Theorem is_node_eligible_iff (node : Node) (task : TaskType) :
  is_node_eligible node task = true ↔
  enabled (policy node) = true
  ∧ status node = ONLINE
  ∧ task ∈ task_allowlist (policy node)
  ∧ (cpu_percent (metrics node)
     <= inject_Z (cpu_cap_percent (policy node)))%Q
  ∧ (ram_percent (metrics node)
     <= inject_Z (ram_cap_percent (policy node)))%Q
  ∧ (task = INFERENCE →
       has_gpu (capabilities node) = true
       ∧ ∀ g, gpu_percent (metrics node) = Some g →
              (g <= inject_Z (default 100%Z
                                (gpu_cap_percent (policy node))))%Q).
Proof.
  unfold is_node_eligible.
  assert (Hel : (evaluate_node_eligibility node task).1
                = bool_decide
                    (length (evaluate_node_eligibility node task).2 = 0%nat))
    by reflexivity.
  rewrite Hel, bool_decide_eq_true, length_zero_iff_nil, reasons_as_concat,
    when_concat_nil.
  rewrite !negb_false_iff, !bool_decide_eq_true, !gt_false_spec.
  assert (Htask : _task_requires_gpu task = true ↔ task = INFERENCE)
    by apply bool_decide_eq_true.
  assert (Hgpu : gpu_over_cap node = false ↔
            ∀ g, gpu_percent (metrics node) = Some g →
                 (g <= inject_Z (default 100%Z
                                   (gpu_cap_percent (policy node))))%Q).
  { unfold gpu_over_cap, gpu_cap_or_100.
    destruct (gpu_percent (metrics node)) as [g|]; [|done].
    rewrite gt_false_spec.
    destruct (gpu_cap_percent (policy node)); cbn;
      (split; [by intros ? ? [= <-]|eauto]). }
  rewrite <- Hgpu.
  destruct (_task_requires_gpu task) eqn:Et;
    destruct (has_gpu (capabilities node)); cbn;
    destruct (gpu_over_cap node); cbn;
    intuition (try discriminate; try congruence).
Qed.

End scheduler_more.

Section scoring_more.

Local Open Scope Q_scope.

Lemma Qmax_inject_Z (c : Z) : Qmax (inject_Z c) 1 == inject_Z (Z.max c 1).
Proof.
  destruct (Z.le_gt_cases c 1) as [Hle|Hgt].
  - rewrite Z.max_r by lia. apply Q.max_r.
    change 1 with (inject_Z 1). by rewrite <- Zle_Qle.
  - rewrite Z.max_l by lia. apply Q.max_l.
    change 1 with (inject_Z 1). rewrite <- Zle_Qle. lia.
Qed.

Lemma headroom_form (percent : Q) (c : Z) :
  _headroom percent c
  == Qmax 0 (1 - Qmin (percent / inject_Z (Z.max c 1)) 2).
Proof.
  rewrite headroom_refines. unfold scoring_rule.headroom.
  by rewrite Qmax_inject_Z.
Qed.

(** X2. [_headroom(percent, cap)] is the unused fraction [1 − percent/cap']
    of the cap [cap' = max(cap, 1)] while the load is below the cap, and 0
    from the cap on; it is never negative, at most 1 for a load that is not
    negative, and a cap of 0 counts as 1, so nothing is divided by zero. *)
Theorem headroom_range (percent : Q) (cap_percent : Z) :
  let cap := inject_Z (Z.max cap_percent 1) in
  (percent <= cap → _headroom percent cap_percent == 1 - percent / cap)
  ∧ (cap <= percent → _headroom percent cap_percent == 0)
  ∧ 0 <= _headroom percent cap_percent
  ∧ (0 <= percent → _headroom percent cap_percent <= 1)
  ∧ _headroom percent 0 == _headroom percent 1.
Proof.
  intros cap.
  assert (Hcap : 1 <= cap).
  { subst cap. change 1 with (inject_Z 1). rewrite <- Zle_Qle. lia. }
  pose proof (headroom_form percent) as Hform.
  set (r := percent / cap).
  assert (Hr : r * cap == percent).
  { subst r. field. lra. }
  assert (Hle : percent <= cap → r <= 1).
  { intros H. subst r. apply Qle_shift_div_r; lra. }
  assert (Hge : cap <= percent → 1 <= r).
  { intros H. subst r. apply Qle_shift_div_l; lra. }
  assert (Hpos : 0 <= percent → 0 <= r).
  { intros H. subst r. apply Qle_shift_div_l; lra. }
  split; [|split; [|split; [|split]]].
  - intros H. rewrite Hform. fold cap. fold r. specialize (Hle H).
    rewrite Q.min_l by lra. rewrite Q.max_r by lra. reflexivity.
  - intros H. rewrite Hform. fold cap. fold r. specialize (Hge H).
    apply Q.max_l.
    destruct (Q.min_spec r 2) as [[_ ->]|[_ ->]]; lra.
  - rewrite Hform. apply Q.le_max_l.
  - intros H. rewrite Hform. fold cap. fold r. specialize (Hpos H).
    apply Q.max_lub; [lra|].
    destruct (Q.min_spec r 2) as [[_ ->]|[_ ->]]; lra.
  - by rewrite !Hform.
Qed.

End scoring_more.

(** ** The stable sort *)

Section sorting.
Context {A : Type} (before : A → A → bool).

Hypothesis before_asym : ∀ a b, before a b = true → before b a = false.
Hypothesis in_order_trans :
  ∀ a b c, in_order before a b → in_order before b c → in_order before a c.

Lemma insert_by_Permutation (x : A) (l : list A) :
  py.insert_by before x l ≡ₚ x :: l.
Proof.
  induction l as [|y l IH]; cbn; [done|].
  destruct (before y x); [|done].
  rewrite IH. apply Permutation_swap.
Qed.

Lemma sorted_by_Permutation (l : list A) : py.sorted_by before l ≡ₚ l.
Proof.
  induction l as [|x l IH]; cbn; [done|].
  fold (py.sorted_by before l). by rewrite insert_by_Permutation, IH.
Qed.

Lemma insert_by_HdRel (a x : A) (l : list A) :
  in_order before a x → HdRel (in_order before) a l → HdRel (in_order before) a (py.insert_by before x l).
Proof.
  intros Hax Hal. destruct l as [|y l]; cbn; [by constructor|].
  destruct (before y x); constructor; [|done].
  by inversion Hal.
Qed.

Lemma insert_by_Sorted (x : A) (l : list A) :
  Sorted (in_order before) l → Sorted (in_order before) (py.insert_by before x l).
Proof.
  induction 1 as [|y l Hsorted IH Hhd]; cbn; [by repeat constructor|].
  destruct (before y x) eqn:Hyx.
  - constructor; [done|]. apply insert_by_HdRel; [|done].
    by apply before_asym.
  - constructor; [by constructor|]. by constructor.
Qed.

Lemma sorted_by_Sorted (l : list A) : Sorted (in_order before) (py.sorted_by before l).
Proof.
  induction l as [|x l IH]; cbn; [constructor|].
  by apply insert_by_Sorted.
Qed.

Lemma sorted_by_StronglySorted (l : list A) :
  StronglySorted (in_order before) (py.sorted_by before l).
Proof.
  apply Sorted_StronglySorted; [|apply sorted_by_Sorted].
  intros a b c. apply in_order_trans.
Qed.

End sorting.



(** ** Jobs in the store, continued *)

Section jobs_more.

Lemma to_job_of_payload (job : Job) :
  _to_job
    (JobRecord.mk (id job) (type job) (job_status job) (payload_ref job)
       (assigned_node_id job) (attempts job) (job_created_at job)
       (job_updated_at job) (started_at job) (completed_at job) (error job))
  = job.
Proof. by destruct job. Qed.

Lemma get_job_with_jobs_insert (repo : CoordinatorRepository)
  (key other : string) (row : JobRecord.t) :
  get_job (with_jobs (<[key := row]> (jobs repo)) repo) other
  = if decide (key = other) then Some (_to_job row) else get_job repo other.
Proof.
  unfold get_job, with_jobs. cbn [jobs]. rewrite lookup_insert.
  by destruct (decide (key = other)).
Qed.

Lemma get_job_None (repo : CoordinatorRepository) (key : string) :
  get_job repo key = None ↔ jobs repo !! key = None.
Proof. unfold get_job. by destruct (jobs repo !! key). Qed.

Lemma get_job_Some (repo : CoordinatorRepository) (key : string) (job : Job) :
  get_job repo key = Some job
  ↔ ∃ row, jobs repo !! key = Some row ∧ job = _to_job row.
Proof.
  unfold get_job. destruct (jobs repo !! key) as [row|].
  - split; [intros [= <-]; eauto|]. by intros (? & [= <-] & ->).
  - split; [done|]. by intros (? & ? & _).
Qed.

(** X5. [create_job] of a job whose id is new and whose number of attempts
    fits the 64-bit column of the store answers with a job and stores a
    job, the one [get_job] gives afterwards, that say what the given job
    says: id, type, status, payload reference, assigned node, attempts and
    error text; the other jobs and the nodes are untouched.  A job whose
    id is taken is refused ([IntegrityError]), and a number of attempts
    that does not fit is refused before that ([OverflowError]); both leave
    the store as it was. *)
Theorem create_job_round_trip (repo : CoordinatorRepository) (job : Job) :
  let outcome := create_job repo job in
  (- 2 ^ 63 ≤ attempts job < 2 ^ 63 → get_job repo (id job) = None →
     ∃ created stored,
       outcome.2 = Ok created
       ∧ content created = content job
       ∧ get_job outcome.1 (id job) = Some stored
       ∧ content stored = content job
       ∧ (∀ other, other ≠ id job →
            get_job outcome.1 other = get_job repo other)
       ∧ nodes outcome.1 = nodes repo)
  ∧ (- 2 ^ 63 ≤ attempts job < 2 ^ 63 → is_Some (get_job repo (id job)) →
     outcome = (repo, Err (IntegrityError (id job))))
  ∧ (¬ (- 2 ^ 63 ≤ attempts job < 2 ^ 63) →
     ∃ message, outcome = (repo, Err (OverflowError message))).
Proof.
  cbv zeta. unfold create_job.
  pose proof (fits_INTEGER_spec (attempts job)) as Hfits.
  destruct (fits_INTEGER (attempts job)); cbn [negb].
  2:{ split; [intros H%Hfits; done|]. split; [intros H%Hfits; done|].
      intros _. by eexists. }
  split; [|split; [|intros []; by apply Hfits]].
  - intros _ Hnone%get_job_None. rewrite Hnone. cbn [fst snd].
    rewrite to_job_of_payload. exists job, job. split; [done|].
    split; [done|]. split; [|split; [done|split; [|done]]].
    + rewrite get_job_with_jobs_insert, decide_True by done.
      by rewrite to_job_of_payload.
    + intros other Hne.
      by rewrite get_job_with_jobs_insert, decide_False by done.
  - intros _ [j (row & Hrow & _)%get_job_Some]. by rewrite Hrow.
Qed.

(** X6. [assign_job] fails with [KeyError] on a missing id; on an existing
    job it succeeds whatever the job's status when the node id has at most
    128 characters or is [None], changes [assigned_node_id] and
    [updated_at] and nothing else, and the job it answers with is the one
    [get_job] gives afterwards; a longer node id is refused by the
    validation of [Job] (a [ValueError]).  A failure leaves the store as
    it was, and the other jobs and the nodes are untouched in any case. *)
Theorem assign_job_effect (repo : CoordinatorRepository) (now : datetime)
  (job_id : string) (node_id : option string) :
  let outcome := assign_job repo now job_id node_id in
  (get_job repo job_id = None → outcome = (repo, Err (KeyError job_id)))
  ∧ (∀ job, get_job repo job_id = Some job →
       (max_length 128 node_id = true →
          outcome.2 = Ok (reassigned node_id now job)
          ∧ get_job outcome.1 job_id = Some (reassigned node_id now job))
       ∧ (max_length 128 node_id = false →
          outcome = (repo, Err (ValueError "1 validation error for Job"))))
  ∧ (∀ other, other ≠ job_id →
       get_job outcome.1 other = get_job repo other)
  ∧ nodes outcome.1 = nodes repo.
Proof.
  cbv zeta. unfold assign_job.
  destruct (jobs repo !! job_id) as [row|] eqn:Hrow.
  - split; [intros Hnone%get_job_None; congruence|].
    cbn [JobRecord.assigned_node_id JobRecord.set_updated_at
         JobRecord.set_assigned_node_id].
    destruct (max_length 128 node_id); cbn [fst snd].
    + split; [|split; [|done]].
      * intros job (row0 & Hrow0 & ->)%get_job_Some.
        assert (row0 = row) as -> by congruence.
        split; [|done]. intros _. split; [done|].
        by rewrite get_job_with_jobs_insert, decide_True by done.
      * intros other Hne.
        by rewrite get_job_with_jobs_insert, decide_False by done.
    + split; [|done]. intros job _. split; [done|]. done.
  - split; [done|]. split; [|done].
    intros job (? & ? & _)%get_job_Some. congruence.
Qed.

(** One short node id and one of 129 characters. *)
Example assign_job_long_node_id :
  (job_status <$> (get_job (assign_job (one_job_repository queued_job) 2000
                              "job-1" (Some "node-1")).1 "job-1"))
  = Some QUEUED
  ∧ assign_job (one_job_repository queued_job) 2000 "job-1"
      (Some (text_of_length 129))
    = (one_job_repository queued_job,
       Err (ValueError "1 validation error for Job")).
Proof. split; vm_compute; reflexivity. Qed.

(** What a status update can do to the store: nothing, or replace the row
    of the job by one with the same identity. *)
Lemma transition_cases (repo : CoordinatorRepository) (now : datetime)
  (job_id : string) (new_status : JobStatus) (error : option string) :
  (transition_job_status repo now job_id new_status error).1 = repo
  ∨ ∃ row row',
      jobs repo !! job_id = Some row
      ∧ (transition_job_status repo now job_id new_status error).1
        = with_jobs (<[job_id := row']> (jobs repo)) repo
      ∧ JobRecord.id row' = JobRecord.id row
      ∧ JobRecord.type row' = JobRecord.type row
      ∧ JobRecord.payload_ref row' = JobRecord.payload_ref row
      ∧ JobRecord.assigned_node_id row' = JobRecord.assigned_node_id row
      ∧ JobRecord.created_at row' = JobRecord.created_at row.
Proof.
  destruct (transition_outcome repo now job_id new_status error)
    as [[e ->]|(row & row' & Hrow & -> & Hcases)]; [by left|].
  right. exists row, row'. split; [done|]. split; [done|].
  destruct Hcases as [(_ & _ & ->)|(_ & _ & _ & _ & ->)].
  - by destruct error.
  - by destruct new_status.
Qed.

(** X7. Whatever its outcome, [transition_job_status] touches no node and
    no other job, neither creates nor deletes a job, and never changes the
    job's id, type, payload reference, assigned node or creation time. *)
Theorem transition_job_status_frame (repo : CoordinatorRepository)
  (now : datetime) (job_id : string) (new_status : JobStatus)
  (error : option string) :
  let repo' := (transition_job_status repo now job_id new_status error).1 in
  nodes repo' = nodes repo
  ∧ (∀ other, other ≠ job_id → jobs repo' !! other = jobs repo !! other)
  ∧ (∀ key, is_Some (jobs repo' !! key) ↔ is_Some (jobs repo !! key))
  ∧ (∀ row row',
       jobs repo !! job_id = Some row → jobs repo' !! job_id = Some row' →
       JobRecord.id row' = JobRecord.id row
       ∧ JobRecord.type row' = JobRecord.type row
       ∧ JobRecord.payload_ref row' = JobRecord.payload_ref row
       ∧ JobRecord.assigned_node_id row' = JobRecord.assigned_node_id row
       ∧ JobRecord.created_at row' = JobRecord.created_at row).
Proof.
  cbv zeta.
  destruct (transition_cases repo now job_id new_status error)
    as [->|(row & row' & Hrow & -> & Hsame)].
  - split; [done|]. split; [done|]. split; [done|].
    intros r r' Hr Hr'. by assert (r' = r) as -> by congruence.
  - unfold with_jobs. cbn [nodes jobs]. split; [done|]. split; [|split].
    + intros other Hne. by rewrite lookup_insert_ne.
    + intros key. destruct (decide (job_id = key)) as [<-|Hne].
      * rewrite lookup_insert_eq, Hrow. split; eauto.
      * by rewrite lookup_insert_ne.
    + intros r r' Hr. rewrite lookup_insert_eq. intros [= <-].
      by assert (r = row) as -> by congruence.
Qed.

Lemma job_progress_refl (row : JobRecord.t) : job_progress row row.
Proof.
  unfold job_progress, terminal.
  rewrite bool_decide_eq_false_2 by (intros [? ?]; done).
  repeat split; try done; try lia.
  intros ->. by left.
Qed.

Lemma job_progress_step (repo repo' : CoordinatorRepository) (now : datetime)
  (job_id : string) (new_status : JobStatus) (error : option string)
  (row : JobRecord.t) (job : Job) :
  jobs repo !! job_id = Some row →
  transition_job_status repo now job_id new_status error = (repo', Ok job) →
  ∃ row', jobs repo' !! job_id = Some row' ∧ job_progress row row'.
Proof.
  intros Hrow Hstep.
  destruct (transition_ok_inv _ _ _ _ _ _ _ _ Hrow Hstep)
    as (row' & Hrow' & _ & Hcases).
  exists row'. split; [done|].
  destruct Hcases as [[Heq ->]|(Hne & Hallowed & ->)].
  - assert (Hsame : job_progress row row) by apply job_progress_refl.
    destruct error; [|done].
    unfold job_progress in *. cbn. exact Hsame.
  - unfold job_progress, terminal.
    destruct Hallowed as [[Hq ->]|[Hr Hnew]].
    + rewrite Hq. cbn. rewrite attempts_or_zero.
      rewrite bool_decide_eq_true_2 by done.
      split; [done|]. split; [done|]. split; [done|].
      intros [|[|]]; done.
    + assert (Hterm : terminal new_status)
        by (destruct Hnew as [-> | ->]; [left|right; left]; done).
      rewrite Hr.
      rewrite bool_decide_eq_false_2 by (intros [? _]; done).
      assert (JobRecord.status (enter_status now new_status error row)
              = new_status) as -> by apply enter_status_status.
      split; [destruct Hnew as [-> | ->]; cbn; lia|].
      split; [destruct Hnew as [-> | ->]; done|].
      split; [by right|].
      intros [|[|]]; done.
Qed.

Lemma job_progress_trans (a b c : JobRecord.t) :
  job_progress a b → job_progress b c → job_progress a c.
Proof.
  unfold job_progress.
  intros (Hab1 & Hab2 & Hab3 & Hab4) (Hbc1 & Hbc2 & Hbc3 & Hbc4).
  split; [|split; [|split]].
  - rewrite Hbc1, Hab1.
    repeat case_bool_decide; try lia; exfalso; intuition congruence.
  - auto.
  - intros Ha. destruct (Hab3 Ha) as [Hb|Hb]; [auto|].
    destruct (Hbc4 Hb) as (-> & _). by right.
  - intros Ha. destruct (Hab4 Ha) as (Hb & Hs & Hc).
    rewrite <- Hb in Ha. destruct (Hbc4 Ha) as (-> & -> & ->). done.
Qed.

(** X8. Along every sequence of status updates that stays within the state
    machine, a job is started at most once: [attempts] ends one higher
    exactly when the job has left QUEUED, and is unchanged otherwise; a job
    never comes back to QUEUED; and once a job is COMPLETED, FAILED or
    CANCELLED, its status, [started_at] and [completed_at] stay as they
    are. *)
Theorem job_sequence_progress (requests : list transition_request)
  (repo repo' : CoordinatorRepository) (job_id : string)
  (row : JobRecord.t) :
  jobs repo !! job_id = Some row →
  run_transitions repo job_id requests = Some repo' →
  ∃ row', jobs repo' !! job_id = Some row' ∧ job_progress row row'.
Proof.
  revert repo row.
  induction requests as [|r rest IH]; intros repo row Hrow Hrun.
  - injection Hrun as <-. exists row. split; [done|]. apply job_progress_refl.
  - cbn in Hrun.
    destruct (transition_job_status repo (at_time r) job_id (new_status r)
                (with_error r)) as [repo1 [job|e]] eqn:Hstep; [|done].
    destruct (job_progress_step _ _ _ _ _ _ _ _ Hrow Hstep)
      as (row1 & Hrow1 & Hp1).
    destruct (IH _ _ Hrow1 Hrun) as (row' & Hrow' & Hp).
    exists row'. split; [done|]. by eapply job_progress_trans.
Qed.

(** The progress of job-1 over start, note, fail: one attempt. *)
Lemma job_sequence_progress_witness :
  jobs (one_job_repository queued_job) !! "job-1" = Some queued_job
  ∧ run_transitions (one_job_repository queued_job) "job-1"
      [start_request; note_request; fail_request]
    = Some (one_job_repository failed_job)
  ∧ ∃ row',
      jobs (one_job_repository failed_job) !! "job-1" = Some row'
      ∧ JobRecord.attempts row' = 1.
Proof.
  assert (H0 : jobs (one_job_repository queued_job) !! "job-1"
               = Some queued_job) by (vm_compute; reflexivity).
  assert (H1 : run_transitions (one_job_repository queued_job) "job-1"
                 [start_request; note_request; fail_request]
               = Some (one_job_repository failed_job))
    by (vm_compute; reflexivity).
  split; [exact H0|]. split; [exact H1|].
  destruct (job_sequence_progress _ _ _ _ _ H0 H1)
    as (row' & Hrow' & Hatt & _).
  exists row'. split; [exact Hrow'|].
  assert (Hl : jobs (one_job_repository failed_job) !! "job-1"
               = Some failed_job) by (vm_compute; reflexivity).
  rewrite Hl in Hrow'. injection Hrow' as <-. reflexivity.
Defined.

End jobs_more.

(** ** Listings of the store *)

Section listings.

Lemma ltb_false_leb (a b : string) :
  String.ltb b a = false ↔ String.leb a b = true.
Proof.
  unfold String.ltb, String.leb. rewrite (String.compare_antisym a b).
  by destruct (String.compare b a).
Qed.

Lemma ltb_asym (a b : string) : String.ltb a b = true → String.ltb b a = false.
Proof.
  unfold String.ltb. rewrite (String.compare_antisym b a).
  by destruct (String.compare a b).
Qed.

Lemma leb_trans (a b c : string) :
  String.leb a b = true → String.leb b c = true → String.leb a c = true.
Proof.
  intros Hab Hbc. apply Is_true_true.
  change (String.le a c). etrans; apply Is_true_true; eassumption.
Qed.

Lemma node_before_asym (a b : string * NodeRecord.t) :
  node_before a b = true → node_before b a = false.
Proof. apply ltb_asym. Qed.

Lemma node_in_order_trans (a b c : string * NodeRecord.t) :
  in_order node_before a b → in_order node_before b c →
  in_order node_before a c.
Proof.
  unfold in_order, node_before. rewrite !ltb_false_leb. apply leb_trans.
Qed.

(** X9. [get_nodes] returns every stored node exactly once, ordered by
    ascending [node_id] (byte order); on an empty store it returns the
    empty list. *)
Theorem get_nodes_complete_and_ordered (repo : CoordinatorRepository) :
  get_nodes repo ≡ₚ (λ entry, _to_node entry.2) <$> map_to_list (nodes repo)
  ∧ (∀ node, node ∈ get_nodes repo ↔
       ∃ key row, nodes repo !! key = Some row ∧ node = _to_node row)
  ∧ length (get_nodes repo) = size (nodes repo)
  ∧ StronglySorted
      (λ a b, String.leb (node_id (identity a)) (node_id (identity b)) = true)
      (get_nodes repo)
  ∧ (nodes repo = ∅ → get_nodes repo = []).
Proof.
  unfold get_nodes.
  pose proof (sorted_by_Permutation node_before (map_to_list (nodes repo)))
    as Hperm.
  split; [by rewrite Hperm|]. split; [|split; [|split]].
  - intros node. rewrite Hperm, list_elem_of_fmap. split.
    + intros ([key row] & -> & Hin%elem_of_map_to_list). eauto.
    + intros (key & row & Hrow & ->). exists (key, row).
      split; [done|]. by apply elem_of_map_to_list.
  - by rewrite length_fmap, Hperm, length_map_to_list.
  - apply (StronglySorted_fmap _ (in_order node_before)).
    + intros a b Hab. unfold in_order, node_before in Hab.
      by apply ltb_false_leb.
    + apply sorted_by_StronglySorted;
        [apply node_before_asym|apply node_in_order_trans].
  - intros ->. by rewrite map_to_list_empty.
Qed.

Lemma job_in_order_spec (a b : JobRecord.t) :
  in_order job_before a b ↔
  JobRecord.created_at b ≤ JobRecord.created_at a
  ∧ (JobRecord.created_at a = JobRecord.created_at b →
     String.leb (JobRecord.id a) (JobRecord.id b) = true).
Proof.
  unfold in_order, job_before.
  rewrite orb_false_iff, andb_false_iff, Z.ltb_ge, Z.eqb_neq, ltb_false_leb.
  split.
  - intros [Hle [Hne|Hleb]]; (split; [done|]); [congruence|done].
  - intros [Hle Hid]. split; [done|].
    destruct (decide (JobRecord.created_at b = JobRecord.created_at a));
      [right; auto|by left].
Qed.

Lemma job_before_asym (a b : JobRecord.t) :
  job_before a b = true → job_before b a = false.
Proof.
  intros Hab. apply job_in_order_spec.
  unfold job_before in Hab.
  apply orb_true_iff in Hab as [Hlt%Z.ltb_lt|[Heq%Z.eqb_eq Hid]%andb_true_iff].
  - split; [lia|lia].
  - split; [lia|]. intros _. apply ltb_false_leb. by apply ltb_asym.
Qed.

Lemma job_in_order_trans (a b c : JobRecord.t) :
  in_order job_before a b → in_order job_before b c →
  in_order job_before a c.
Proof.
  rewrite !job_in_order_spec. intros [Hab Hid1] [Hbc Hid2].
  split; [lia|]. intros Heq.
  apply (leb_trans _ (JobRecord.id b)); [apply Hid1|apply Hid2]; lia.
Qed.

(** The rows that pass the three optional filters. *)
Lemma list_jobs_rows (repo : CoordinatorRepository)
  (status : option JobStatus) (task_type : option TaskType)
  (node_id : option string) :
  ∃ rows,
    list_jobs repo status task_type node_id
    = _to_job <$> py.sorted_by job_before rows
    ∧ (∀ row, row ∈ rows ↔
         (∃ key, jobs repo !! key = Some row)
         ∧ (∀ s, status = Some s → JobRecord.status row = s)
         ∧ (∀ t, task_type = Some t → JobRecord.type row = t)
         ∧ (∀ n, node_id = Some n → JobRecord.assigned_node_id row = Some n))
    ∧ (status = None → task_type = None → node_id = None →
       rows = (map_to_list (jobs repo)).*2).
Proof.
  unfold list_jobs. eexists. split; [reflexivity|]. split.
  - intros row.
    assert (Hall : row ∈ (map_to_list (jobs repo)).*2
                   ↔ ∃ key, jobs repo !! key = Some row).
    { rewrite list_elem_of_fmap. split.
      - intros ([key r] & -> & Hin%elem_of_map_to_list). eauto.
      - intros (key & Hrow). exists (key, row). split; [done|].
        by apply elem_of_map_to_list. }
    destruct status as [s|], task_type as [t|], node_id as [n|];
      rewrite ?list_elem_of_filter, Hall;
      (split;
       [ intros H; repeat split; try tauto;
         try (by intros ? [= <-]; tauto); try done
       | intros (? & Hs & Ht & Hn); repeat split; auto]).
  - by intros -> -> ->.
Qed.

(** X10. [list_jobs] returns exactly the stored jobs that pass every filter
    that is given (status, task type, assigned node), each once, newest
    [created_at] first and by ascending id among jobs created at the same
    time; without filters it returns all jobs. *)
Theorem list_jobs_filters_and_order (repo : CoordinatorRepository)
  (status : option JobStatus) (task_type : option TaskType)
  (node_id : option string) :
  let result := list_jobs repo status task_type node_id in
  (∀ job, job ∈ result ↔
     (∃ key row, jobs repo !! key = Some row ∧ job = _to_job row)
     ∧ (∀ s, status = Some s → job_status job = s)
     ∧ (∀ t, task_type = Some t → type job = t)
     ∧ (∀ n, node_id = Some n → assigned_node_id job = Some n))
  ∧ StronglySorted
      (λ a b, job_created_at b ≤ job_created_at a
              ∧ (job_created_at a = job_created_at b →
                 String.leb (id a) (id b) = true))
      result
  ∧ (status = None → task_type = None → node_id = None →
     result ≡ₚ _to_job <$> (map_to_list (jobs repo)).*2
     ∧ length result = size (jobs repo)).
Proof.
  cbv zeta.
  destruct (list_jobs_rows repo status task_type node_id)
    as (rows & -> & Hrows & Hall).
  pose proof (sorted_by_Permutation job_before rows) as Hperm.
  split; [|split].
  - intros job. rewrite Hperm, list_elem_of_fmap. split.
    + intros (row & -> & Hin).
      apply Hrows in Hin as ([key Hrow] & Hs & Ht & Hn).
      split; [eauto|]. done.
    + intros ((key & row & Hrow & ->) & Hs & Ht & Hn).
      exists row. split; [done|]. apply Hrows. eauto.
  - apply (StronglySorted_fmap _ (in_order job_before)).
    + intros a b Hab. by apply job_in_order_spec.
    + apply sorted_by_StronglySorted;
        [apply job_before_asym|apply job_in_order_trans].
  - intros Hs Ht Hn. rewrite (Hall Hs Ht Hn) in Hperm |- *.
    split; [by rewrite Hperm|].
    by rewrite length_fmap, Hperm, length_fmap, length_map_to_list.
Qed.

End listings.

(** ** Nodes in the store, continued *)

Section nodes_more.


(** The sweep row by row. *)
Lemma mark_offline_rows (repo : CoordinatorRepository) (T stale_seconds : Z) :
  let cutoff := T - timedelta_seconds stale_seconds in
  let outcome := mark_offline_if_stale_nodes repo T stale_seconds in
  (∀ key, nodes outcome.1 !! key = swept T cutoff <$> nodes repo !! key)
  ∧ jobs outcome.1 = jobs repo
  ∧ outcome.2
    = (λ entry, _to_node (demote T entry.2))
        <$> filter (λ entry, is_stale cutoff entry.2 = true)
              (map_to_list (nodes repo)).
Proof.
  intros cutoff outcome. subst outcome.
  unfold mark_offline_if_stale_nodes. fold cutoff.
  pose proof (sweep_loop T cutoff (map_to_list (nodes repo)) (nodes repo) []
                (NoDup_fst_map_to_list _)) as Hloop.
  destruct (foldl (sweep_row T cutoff) (nodes repo, [])
              (map_to_list (nodes repo))) as [session updated_nodes].
  unfold with_nodes. cbn [fst snd nodes jobs] in *.
  destruct Hloop as (Hin & Hout & Hupd).
  { intros key row. apply elem_of_map_to_list. }
  split; [|split; [done|exact Hupd]].
  intros key. destruct (nodes repo !! key) as [row|] eqn:Hrow; cbn.
  - apply Hin. by apply elem_of_map_to_list.
  - rewrite Hout; [done|].
    intros ([key' row] & -> & Hmem%elem_of_map_to_list)%list_elem_of_fmap.
    cbn in Hrow. congruence.
Qed.


Lemma filter_none {A} (P : A → Prop) `{∀ x, Decision (P x)} (l : list A) :
  (∀ x, x ∈ l → ¬ P x) → filter P l = [].
Proof.
  induction l as [|x l IH]; intros Hno; [done|].
  rewrite filter_cons, decide_False by (apply Hno; left).
  apply IH. intros y Hy. apply Hno. by right.
Qed.



Lemma transition_job_status_frame_nodes (repo : CoordinatorRepository)
  (now : datetime) (job_id : string) (new_status : JobStatus)
  (error : option string) :
  nodes (transition_job_status repo now job_id new_status error).1
  = nodes repo.
Proof.
  by destruct (transition_cases repo now job_id new_status error)
    as [->|(? & ? & _ & -> & _)].
Qed.


Lemma ensure_node_keyed `{ModelDefaults} (session : gmap string NodeRecord.t)
  (now : datetime) (node_id : string) :
  (∀ key row, session !! key = Some row → NodeRecord.node_id row = key) →
  (∀ key row, (_ensure_node session now node_id).1 !! key = Some row →
              NodeRecord.node_id row = key)
  ∧ NodeRecord.node_id (_ensure_node session now node_id).2 = node_id.
Proof.
  intros Hkeyed. unfold _ensure_node.
  destruct (session !! node_id) as [row|] eqn:Hrow; cbn [fst snd].
  - split; [done|]. by apply Hkeyed.
  - split; [|done]. intros key row.
    destruct (decide (node_id = key)) as [<-|Hne].
    + rewrite lookup_insert_eq. by intros [= <-].
    + rewrite lookup_insert_ne by done. apply Hkeyed.
Qed.

Lemma insert_keyed_nodes (session : gmap string NodeRecord.t)
  (node_id : string) (row : NodeRecord.t) :
  (∀ key r, session !! key = Some r → NodeRecord.node_id r = key) →
  NodeRecord.node_id row = node_id →
  ∀ key r, <[node_id := row]> session !! key = Some r →
           NodeRecord.node_id r = key.
Proof.
  intros Hkeyed Hrow key r.
  destruct (decide (node_id = key)) as [<-|Hne].
  - rewrite lookup_insert_eq. by intros [= <-].
  - rewrite lookup_insert_ne by done. apply Hkeyed.
Qed.

(** X13. Every operation that writes the store keeps each row under its own
    primary key: no operation changes a [node_id] or a job [id], and none
    files a row under another key. *)
Theorem writers_keep_keys `{ModelDefaults} (repo : CoordinatorRepository)
  (now now' : datetime) (key display_name ip : string) (port : Z)
  (capabilities : NodeCapabilities) (metrics : NodeMetrics)
  (policy : NodePolicy) (stale_seconds : Z) (job : Job)
  (node : option string) (new_status : JobStatus) (error : option string) :
  store_keyed repo →
  store_keyed (upsert_node_identity repo now now' key display_name ip port).1
  ∧ store_keyed (upsert_node_capabilities repo now now' key capabilities).1
  ∧ store_keyed (update_node_metrics repo now now' key metrics).1
  ∧ store_keyed (update_node_policy repo now now' key policy).1
  ∧ store_keyed (mark_offline_if_stale_nodes repo now stale_seconds).1
  ∧ store_keyed (create_job repo job).1
  ∧ store_keyed (assign_job repo now key node).1
  ∧ store_keyed (transition_job_status repo now key new_status error).1.
Proof.
  intros [Hnodes Hjobs].
  destruct (ensure_node_keyed (nodes repo) now' key Hnodes) as [Hsession Hrow].
  unfold upsert_node_identity, upsert_node_capabilities, update_node_metrics,
    update_node_policy.
  destruct (_ensure_node (nodes repo) now' key) as [session row].
  cbn [fst snd] in Hsession, Hrow.
  repeat split;
    try (unfold with_nodes; cbn [fst nodes jobs];
         first [ by apply insert_keyed_nodes | exact Hjobs ]).
  - (* the sweep *)
    destruct (mark_offline_rows repo now stale_seconds) as (Hrows & _).
    intros k r. rewrite Hrows.
    destruct (nodes repo !! k) as [r0|] eqn:Hr0; [|done]. cbn.
    intros [= <-]. unfold swept.
    destruct (is_stale _ r0); [cbn|]; by apply Hnodes.
  - destruct (mark_offline_rows repo now stale_seconds) as (_ & Hj & _).
    cbv zeta in Hj. by rewrite Hj.
  - unfold create_job. destruct (fits_INTEGER _); [|done].
    by destruct (jobs repo !! id job).
  - unfold create_job. destruct (fits_INTEGER _); [|done]. cbn [negb].
    destruct (jobs repo !! id job) eqn:Hj; [done|]. cbn [fst jobs with_jobs].
    intros k r. destruct (decide (id job = k)) as [<-|Hne].
    + rewrite lookup_insert_eq. by intros [= <-].
    + rewrite lookup_insert_ne by done. apply Hjobs.
  - unfold assign_job. destruct (jobs repo !! key); [|done].
    by destruct (max_length 128 _).
  - unfold assign_job.
    destruct (jobs repo !! key) as [r0|] eqn:Hj; [|done].
    destruct (max_length 128 _); [|done].
    cbn [fst jobs with_jobs]. intros k r.
    destruct (decide (key = k)) as [<-|Hne].
    + rewrite lookup_insert_eq. intros [= <-]. cbn. by apply Hjobs.
    + rewrite lookup_insert_ne by done. apply Hjobs.
  - by rewrite transition_job_status_frame_nodes.
  - destruct (transition_cases repo now key new_status error)
      as [->|(r0 & r' & Hr0 & -> & Hid & _)]; [done|].
    cbn [jobs with_jobs]. intros k r.
    destruct (decide (key = k)) as [<-|Hne].
    + rewrite lookup_insert_eq. intros [= <-]. rewrite Hid. by apply Hjobs.
    + rewrite lookup_insert_ne by done. apply Hjobs.
Qed.

(** The invariant on the store of two nodes and after a policy update
    for a third, unknown node. *)
Lemma writers_keep_keys_witness :
  store_keyed two_node_repository
  ∧ store_keyed
      (update_node_policy (H := documented_defaults) two_node_repository
         5000 5001 "ghost" inference_policy).1.
Proof.
  assert (H : store_keyed two_node_repository).
  { split; intros key row; unfold two_node_repository; cbn [nodes jobs].
    - intros [[<- <-]|[_ Hl]]%lookup_insert_Some; [done|].
      by apply lookup_singleton_Some in Hl as [<- <-].
    - by rewrite lookup_empty. }
  split; [exact H|].
  destruct (writers_keep_keys (H := documented_defaults) two_node_repository
              5000 5001 "ghost" "" "" 0
              (NodeCapabilities_default (ModelDefaults := documented_defaults))
              idle_metrics inference_policy 0 (_to_job queued_job) None
              QUEUED None H) as (_ & _ & _ & Hpolicy & _).
  exact Hpolicy.
Defined.

Lemma leb_ne_ltb (a b : string) :
  String.leb a b = true → a ≠ b → String.ltb a b = true.
Proof.
  unfold String.leb, String.ltb. intros Hle Hne.
  destruct (String.compare a b) eqn:Hc; [|done|done].
  by apply String.compare_eq_iff in Hc.
Qed.

Lemma StronglySorted_weaken {A} (R R' : relation A) (l : list A) :
  (∀ a b, R a b → R' a b) → StronglySorted R l → StronglySorted R' l.
Proof.
  intros Himpl. induction 1 as [|x l Hsorted IH Hall]; constructor; [done|].
  eapply Forall_impl; [exact Hall|]. auto.
Qed.

Lemma StronglySorted_NoDup_strict {A} (R : relation A) (l : list A) :
  StronglySorted R l → NoDup l →
  StronglySorted (λ a b, R a b ∧ a ≠ b) l.
Proof.
  induction 1 as [|x l Hsorted IH Hall]; intros Hnd; [constructor|].
  apply NoDup_cons in Hnd as [Hx Hnd]. constructor; [by apply IH|].
  rewrite Forall_forall in Hall |- *. intros y Hy. split; [by apply Hall|].
  by intros ->.
Qed.

Lemma get_nodes_ids (repo : CoordinatorRepository) :
  store_keyed repo →
  (λ node, node_id (identity node)) <$> get_nodes repo
  = (py.sorted_by node_before (map_to_list (nodes repo))).*1.
Proof.
  intros [Hnodes _]. unfold get_nodes. rewrite <- list_fmap_compose.
  apply Forall_fmap_ext. apply Forall_forall. intros [key row] Hin.
  rewrite sorted_by_Permutation in Hin.
  apply elem_of_map_to_list in Hin. cbn. by apply Hnodes.
Qed.

Lemma get_nodes_ids_NoDup (repo : CoordinatorRepository) :
  store_keyed repo →
  NoDup ((λ node, node_id (identity node)) <$> get_nodes repo).
Proof.
  intros Hkeyed. rewrite get_nodes_ids by done.
  rewrite sorted_by_Permutation. apply NoDup_fst_map_to_list.
Qed.

Lemma get_nodes_ids_sorted (repo : CoordinatorRepository) :
  store_keyed repo →
  StronglySorted (λ a b, String.ltb a b = true)
    ((λ node, node_id (identity node)) <$> get_nodes repo).
Proof.
  intros Hkeyed. pose proof (get_nodes_ids_NoDup repo Hkeyed) as Hnd.
  rewrite get_nodes_ids in Hnd |- * by done. destruct Hkeyed as [Hnodes _].
  pose proof (sorted_by_StronglySorted node_before node_before_asym
                node_in_order_trans (map_to_list (nodes repo))) as Hsorted.
  assert (Hkeys : StronglySorted (λ a b, String.leb a b = true)
            (py.sorted_by node_before (map_to_list (nodes repo))).*1).
  { revert Hsorted.
    assert (Hmem : ∀ entry,
              entry ∈ py.sorted_by node_before (map_to_list (nodes repo)) →
              NodeRecord.node_id entry.2 = entry.1).
    { intros [key row] Hin. rewrite sorted_by_Permutation in Hin.
      apply elem_of_map_to_list in Hin. by apply Hnodes. }
    revert Hmem.
    generalize (py.sorted_by node_before (map_to_list (nodes repo))).
    intros l Hmem. induction 1 as [|x l Hs IH Hall]; [constructor|].
    cbn. constructor.
    - apply IH. intros e He. apply Hmem. by right.
    - rewrite Forall_fmap. rewrite Forall_forall in Hall |- *.
      intros y Hy. cbn. specialize (Hall y Hy).
      unfold in_order, node_before in Hall. apply ltb_false_leb in Hall.
      rewrite <- (Hmem x) by left. rewrite <- (Hmem y) by (by right).
      done. }
  eapply StronglySorted_weaken;
    [|apply StronglySorted_NoDup_strict; [exact Hkeys|exact Hnd]].
  intros a b [Hle Hne]. by apply leb_ne_ltb.
Qed.

(** X14. In a store whose rows sit under their own keys, [get_node] and
    [get_job] return the node or job that carries the id asked for, and
    [get_nodes] lists the node ids in strictly ascending order, so none of
    them twice. *)
Theorem keyed_store_lookups (repo : CoordinatorRepository) :
  store_keyed repo →
  (∀ key node, get_node repo key = Some node →
               node_id (identity node) = key)
  ∧ (∀ key job, get_job repo key = Some job → id job = key)
  ∧ StronglySorted (λ a b, String.ltb a b = true)
      ((λ node, node_id (identity node)) <$> get_nodes repo)
  ∧ NoDup ((λ node, node_id (identity node)) <$> get_nodes repo).
Proof.
  intros Hkeyed. pose proof Hkeyed as [Hnodes Hjobs].
  split; [|split; [|split]].
  - intros key node. unfold get_node.
    destruct (nodes repo !! key) as [row|] eqn:Hrow; [|done].
    intros [= <-]. cbn. by apply Hnodes.
  - intros key job (row & Hrow & ->)%get_job_Some. cbn. by apply Hjobs.
  - by apply get_nodes_ids_sorted.
  - by apply get_nodes_ids_NoDup.
Qed.

(** The lookups on the store of two nodes. *)
Lemma keyed_store_lookups_witness :
  store_keyed two_node_repository
  ∧ NoDup ((λ node, node_id (identity node)) <$> get_nodes two_node_repository).
Proof.
  assert (H : store_keyed two_node_repository).
  { split; intros key row; unfold two_node_repository; cbn [nodes jobs].
    - intros [[<- <-]|[_ Hl]]%lookup_insert_Some; [done|].
      by apply lookup_singleton_Some in Hl as [<- <-].
    - by rewrite lookup_empty. }
  split; [exact H|].
  destruct (keyed_store_lookups two_node_repository H) as (_ & _ & _ & Hnd).
  exact Hnd.
Defined.

End nodes_more.
Section ranking_order.

Lemma tuple_lt_false (a b : bool * Q) :
  py.tuple_lt a b = false
  ↔ (a.1 = true ∧ b.1 = false) ∨ (a.1 = b.1 ∧ (b.2 <= a.2)%Q).
Proof.
  unfold py.tuple_lt. destruct a as [[] x], b as [[] y]; cbn;
    case_bool_decide; try done; cbn; rewrite ?gt_false_spec;
    intuition congruence.
Qed.

Lemma descending_asym {A} (key : A → bool * Q) (a b : A) :
  py.descending key a b = true → py.descending key b a = false.
Proof.
  unfold py.descending. intros Hab. apply tuple_lt_false.
  destruct (py.tuple_lt (key a) (key b)) eqn:E; [|by apply tuple_lt_false].
  exfalso. revert Hab E. unfold py.tuple_lt.
  destruct (key a) as [[] x], (key b) as [[] y]; cbn;
    repeat case_bool_decide; try done; rewrite ?gt_spec; lra.
Qed.

Lemma descending_trans {A} (key : A → bool * Q) (a b c : A) :
  in_order (py.descending key) a b → in_order (py.descending key) b c →
  in_order (py.descending key) a c.
Proof.
  unfold in_order, py.descending. rewrite !tuple_lt_false.
  destruct (key a) as [[] x], (key b) as [[] y], (key c) as [[] z]; cbn;
    intros [[??]|[??]] [[??]|[??]]; try done; auto; right; split; try done; lra.
Qed.

Lemma find_first {A} (p : A → bool) (l : list A) (c : A) :
  List.find p l = Some c →
  ∃ l1 l2, l = l1 ++ c :: l2 ∧ p c = true ∧ Forall (λ x, p x = false) l1.
Proof.
  induction l as [|x l IH]; cbn; [done|].
  destruct (p x) eqn:E.
  - intros [= ->]. by exists [], l.
  - intros (l1 & l2 & -> & Hc & Hl1)%IH.
    exists (x :: l1), l2. repeat split; [done|by constructor].
Qed.

Lemma find_none {A} (p : A → bool) (l : list A) :
  List.find p l = None → Forall (λ x, p x = false) l.
Proof.
  induction l as [|x l IH]; cbn; [constructor|].
  destruct (p x) eqn:E; [done|]. intros ?%IH. by constructor.
Qed.


(** Items that do not sort strictly before one another keep the order
    they came in. *)
Lemma insert_by_stable {A} (before : A → A → bool) (P : A → Prop)
  `{∀ x, Decision (P x)} (x : A) (l : list A) :
  (∀ a b, P a → P b → before a b = false) →
  filter P (py.insert_by before x l) = filter P (x :: l).
Proof.
  intros Hclass. induction l as [|y l IH]; cbn; [done|].
  destruct (before y x) eqn:E; [|done].
  rewrite filter_cons, IH, !filter_cons.
  destruct (decide (P y)) as [Hy|Hy], (decide (P x)) as [Hx|Hx]; try done.
  by rewrite (Hclass y x Hy Hx) in E.
Qed.

Lemma sorted_by_stable {A} (before : A → A → bool) (P : A → Prop)
  `{∀ x, Decision (P x)} (l : list A) :
  (∀ a b, P a → P b → before a b = false) →
  filter P (py.sorted_by before l) = filter P l.
Proof.
  intros Hclass. induction l as [|x l IH]; cbn; [done|].
  fold (py.sorted_by before l).
  rewrite insert_by_stable by done. by rewrite !filter_cons, IH.
Qed.

End ranking_order.

(** ** Choosing a node for a job *)

Import ranking.

Section choice.

Lemma StronglySorted_middle {A} (R : relation A) (l1 l2 : list A) (c : A) :
  StronglySorted R (l1 ++ c :: l2) → Forall (R c) l2.
Proof.
  induction l1 as [|x l1 IH]; cbn; intros Hs.
  - by apply StronglySorted_inv in Hs as [_ ?].
  - apply StronglySorted_inv in Hs as [? _]. by apply IH.
Qed.

(** The tuple [_pick_node_for_task] makes of a node. *)
Lemma pick_candidates (repo : CoordinatorRepository) (task : TaskType) :
  jobs._pick_node_for_task repo task
  = (λ c : string * bool * Q, c.1.1)
      <$> List.find (λ c : string * bool * Q, c.1.2)
            (py.sorted_by (py.descending (λ c : string * bool * Q, (c.1.2, c.2)))
               ((λ node, (node_id (identity node),
                          is_node_eligible node task,
                          score_node node task)) <$> get_nodes repo)).
Proof.
  unfold jobs._pick_node_for_task. cbv zeta.
  match goal with
  | |- context [?f <$> get_nodes repo] =>
      assert (Hg : f <$> get_nodes repo
                   = (λ node, (node_id (identity node),
                               is_node_eligible node task,
                               score_node node task)) <$> get_nodes repo)
  end.
  { apply Forall_fmap_ext, Forall_forall. intros node _.
    unfold is_node_eligible.
    by destruct (evaluate_node_eligibility node task). }
  rewrite Hg. by destruct (List.find _ _).
Qed.


(** The first candidate of the ranking that is eligible: there is none
    when no candidate is eligible, and otherwise no eligible candidate has
    a higher score. *)
Lemma first_listed_best {A} (key : A → bool * Q) (p : A → bool)
  (l : list A) :
  (∀ c, p c = (key c).1) →
  match List.find p (py.sorted_by (py.descending key) l) with
  | None => ∀ x, x ∈ l → (key x).1 = false
  | Some c =>
      c ∈ l ∧ (key c).1 = true
      ∧ ∀ x, x ∈ l → (key x).1 = true → ((key x).2 <= (key c).2)%Q
  end.
Proof.
  intros Hp.
  pose proof (sorted_by_Permutation (py.descending key) l) as Hperm.
  pose proof (sorted_by_StronglySorted (py.descending key)
                (descending_asym key) (descending_trans key) l) as Hsorted.
  destruct (List.find p _) as [c|] eqn:Hfind.
  - apply find_first in Hfind as (l1 & l2 & Heq & Hc & Hl1).
    rewrite Heq in Hperm, Hsorted. rewrite Hp in Hc.
    split; [|split; [done|]].
    { rewrite <- Hperm. set_solver. }
    intros x Hx Hex. rewrite <- Hperm in Hx.
    apply elem_of_app in Hx as [Hx|Hx].
    { rewrite Forall_forall in Hl1. specialize (Hl1 x Hx).
      rewrite Hp in Hl1. congruence. }
    apply elem_of_cons in Hx as [->|Hx]; [apply Qle_refl|].
    apply StronglySorted_middle in Hsorted.
    rewrite Forall_forall in Hsorted. specialize (Hsorted x Hx).
    unfold in_order, py.descending in Hsorted.
    apply tuple_lt_false in Hsorted as [[_ ?]|[_ ?]]; [congruence|done].
  - apply find_none in Hfind. rewrite Hperm in Hfind.
    rewrite Forall_forall in Hfind. intros x Hx.
    rewrite <- Hp. by apply Hfind.
Qed.

(** Of the eligible candidates that share the score of the first listed
    one, it is the one that came first. *)
Lemma first_listed_stable {A} (key : A → bool * Q) (p : A → bool)
  (l : list A) (c : A) :
  (∀ c, p c = (key c).1) →
  List.find p (py.sorted_by (py.descending key) l) = Some c →
  head (filter (λ x, (key x).1 && Qeq_bool (key x).2 (key c).2 = true) l)
  = Some c.
Proof.
  intros Hp Hfind.
  rewrite <- (sorted_by_stable (py.descending key)).
  - apply find_first in Hfind as (l1 & l2 & -> & Hc & Hl1).
    rewrite filter_app, filter_cons. rewrite Hp in Hc.
    rewrite (filter_none _ l1).
    + rewrite decide_True; [done|].
      rewrite Hc. cbn. apply Qeq_bool_iff. reflexivity.
    + rewrite Forall_forall in Hl1. intros x Hx.
      specialize (Hl1 x Hx). rewrite Hp in Hl1. by rewrite Hl1.
  - intros a b [Ha Hqa]%andb_true_iff [Hb Hqb]%andb_true_iff.
    unfold py.descending. apply tuple_lt_false. right.
    split; [congruence|].
    apply Qeq_bool_iff in Hqa, Hqb. rewrite Hqa, Hqb. apply Qle_refl.
Qed.

Lemma head_filter_sorted {A} (R : relation A) (P : A → Prop)
  `{∀ x, Decision (P x)} (l : list A) (c d : A) :
  StronglySorted R l → head (filter P l) = Some c → d ∈ l → P d →
  d = c ∨ R c d.
Proof.
  induction 1 as [|x l Hs IH Hall]; [by intros _ ?%elem_of_nil|].
  rewrite filter_cons. destruct (decide (P x)) as [Hx|Hx]; cbn.
  - intros [= <-] [->|Hd]%elem_of_cons _; [by left|].
    right. rewrite Forall_forall in Hall. by apply Hall.
  - intros Hhead [->|Hd]%elem_of_cons Hpd; [done|]. by apply IH.
Qed.


(** X16. In a store whose rows sit under their own keys, an eligible node
    that no eligible node outscores has an id that is not smaller than the
    one [_pick_node_for_task] returns: of the best nodes, the one with the
    smallest id is chosen. *)
Theorem pick_node_for_task_smallest_id (repo : CoordinatorRepository)
  (task : TaskType) (chosen : string) (other : Node) :
  store_keyed repo →
  jobs._pick_node_for_task repo task = Some chosen →
  other ∈ get_nodes repo →
  is_node_eligible other task = true →
  (∀ node, node ∈ get_nodes repo → is_node_eligible node task = true →
           (score_node node task <= score_node other task)%Q) →
  String.leb chosen (node_id (identity other)) = true.
Proof.
  intros Hkeyed Hpick Hother Heligible Hbest.
  rewrite pick_candidates in Hpick.
  set (g := λ node, (node_id (identity node), is_node_eligible node task,
                     score_node node task)) in *.
  destruct (List.find _ _) as [c|] eqn:Hfind; [|done].
  injection Hpick as <-.
  pose proof (first_listed_best (λ c : string * bool * Q, (c.1.2, c.2))
                (λ c, c.1.2) (g <$> get_nodes repo) (λ _, eq_refl)) as Hfirst.
  rewrite Hfind in Hfirst. destruct Hfirst as (Hin & Hc & Hmax).
  apply (first_listed_stable (λ c : string * bool * Q, (c.1.2, c.2)))
    in Hfind; [|done].
  apply list_elem_of_fmap in Hin as (node & -> & Hnode).
  assert (Hsorted : StronglySorted
            (λ a b : string * bool * Q, String.ltb a.1.1 b.1.1 = true)
            (g <$> get_nodes repo)).
  { pose proof (get_nodes_ids_sorted repo Hkeyed) as Hids.
    revert Hids. generalize (get_nodes repo). intros l.
    induction l as [|x l IH]; [constructor|]. rewrite !fmap_cons.
    intros [Hl Hx]%StronglySorted_inv. constructor; [by apply IH|].
    rewrite Forall_fmap in Hx. by rewrite Forall_fmap. }
  assert (Hlisted : g other ∈ g <$> get_nodes repo).
  { apply list_elem_of_fmap. by exists other. }
  assert (Htie : (g other).1.2 && Qeq_bool (g other).2 (g node).2 = true).
  { unfold g. cbn [fst snd]. rewrite Heligible. cbn [andb].
    apply Qeq_bool_iff. apply Qle_antisym.
    - by apply (Hmax (g other)).
    - by apply Hbest. }
  destruct (head_filter_sorted _ _ _ (g node) (g other) Hsorted Hfind
              Hlisted Htie) as [Heq|Hlt].
  - apply (f_equal (λ c : string * bool * Q, c.1.1)) in Heq.
    unfold g in Heq. cbn [fst] in Heq. rewrite Heq. apply Is_true_true.
    change (String.le (node_id (identity node)) (node_id (identity node))).
    reflexivity.
  - unfold g in Hlt. cbn [fst snd] in Hlt. by apply ltb_false_leb, ltb_asym.
Qed.

(** The best nodes of the store of two idle nodes tie, and node-1 is
    chosen. *)
Lemma pick_node_for_task_smallest_id_witness :
  jobs._pick_node_for_task two_node_repository EMBEDDINGS = Some "node-1"
  ∧ String.leb "node-1"
      (node_id (identity (_to_node (seen_row "node-2" ONLINE 490000000))))
    = true.
Proof.
  assert (Hkeyed : store_keyed two_node_repository).
  { split; intros key row; unfold two_node_repository; cbn [nodes jobs].
    - intros [[<- <-]|[_ Hl]]%lookup_insert_Some; [done|].
      by apply lookup_singleton_Some in Hl as [<- <-].
    - by rewrite lookup_empty. }
  assert (Hnodes : get_nodes two_node_repository
                   = [_to_node (seen_row "node-1" ONLINE 380000000);
                      _to_node (seen_row "node-2" ONLINE 490000000)]).
  { vm_compute. reflexivity. }
  assert (Hpick : jobs._pick_node_for_task two_node_repository EMBEDDINGS
                  = Some "node-1").
  { vm_compute. reflexivity. }
  split; [exact Hpick|].
  apply (pick_node_for_task_smallest_id two_node_repository EMBEDDINGS
           "node-1" (_to_node (seen_row "node-2" ONLINE 490000000))
           Hkeyed Hpick).
  - rewrite Hnodes. right. left.
  - vm_compute. reflexivity.
  - rewrite Hnodes.
    intros node [->|[->|[]%elem_of_nil]%elem_of_cons]%elem_of_cons _;
      vm_compute; discriminate.
Defined.




End choice.

Section job_creation.

Lemma parse_task_type_code (strip upper : string → string) (raw : string)
  (code : Z) (detail : string) :
  jobs._parse_task_type strip upper raw = inr (code, detail) → code = 422.
Proof.
  unfold jobs._parse_task_type. cbv zeta.
  destruct (_ !! _); [done|]. by intros [= <- _].
Qed.

Lemma pick_node_for_task_eligible (repo : CoordinatorRepository)
  (task : TaskType) :
  match jobs._pick_node_for_task repo task with
  | Some chosen =>
      ∃ node, node ∈ get_nodes repo ∧ node_id (identity node) = chosen
              ∧ is_node_eligible node task = true
  | None =>
      ∀ node, node ∈ get_nodes repo → is_node_eligible node task = false
  end.
Proof.
  rewrite pick_candidates.
  set (g := λ node, (node_id (identity node), is_node_eligible node task,
                     score_node node task)).
  pose proof (first_listed_best (λ c : string * bool * Q, (c.1.2, c.2))
                (λ c, c.1.2) (g <$> get_nodes repo) (λ _, eq_refl)) as Hbest.
  destruct (List.find _ _) as [c|]; cbn [fmap option_fmap option_map].
  - destruct Hbest as (Hin & Hc & _).
    apply list_elem_of_fmap in Hin as (node & -> & Hnode). by exists node.
  - intros node Hnode. apply (Hbest (g node)).
    apply list_elem_of_fmap. by exists node.
Qed.

(** X18. [create_job_route] never touches the nodes, and a request it
    answers with an error leaves the jobs as they were: 422 exactly when
    the task type does not parse, otherwise 500.  A job it answers with is
    answered 201, was not stored before and is what [get_job] returns
    afterwards, with every other job untouched; it is QUEUED with no
    attempts, no timestamps of a run and no error, carries the parsed type
    and the payload reference, and is assigned to the node
    [_pick_node_for_task] picks: a stored node eligible for the type, or
    none when no stored node is eligible. *)
Theorem create_job_route_outcomes (strip upper : string → string)
  (repo : CoordinatorRepository) (hex : string) (now now' : datetime)
  (payload : jobs.JobCreateRequest) :
  let out := jobs.create_job_route strip upper repo hex now now' payload in
  nodes out.1 = nodes repo
  ∧ (∀ code detail, out.2 = HTTPException code detail →
       out.1 = repo ∧ (code = 422 ∨ code = 500))
  ∧ (status_code out.2 = 422
     ↔ ∃ e, jobs._parse_task_type strip upper (jobs.task_type payload)
            = inr e)
  ∧ (∀ code job, out.2 = Response code job →
       code = 201
       ∧ get_job repo (id job) = None
       ∧ get_job out.1 (id job) = Some job
       ∧ (∀ key, key ≠ id job → jobs out.1 !! key = jobs repo !! key)
       ∧ id job = "job-" +:+ hex
       ∧ jobs._parse_task_type strip upper (jobs.task_type payload)
         = inl (type job)
       ∧ job_status job = QUEUED ∧ attempts job = 0
       ∧ payload_ref job = jobs.payload_ref payload
       ∧ job_created_at job = now ∧ job_updated_at job = now'
       ∧ started_at job = None ∧ completed_at job = None
       ∧ error job = None
       ∧ assigned_node_id job = jobs._pick_node_for_task repo (type job)
       ∧ match assigned_node_id job with
         | Some chosen =>
             ∃ node, node ∈ get_nodes repo
                     ∧ node_id (identity node) = chosen
                     ∧ is_node_eligible node (type job) = true
         | None =>
             ∀ node, node ∈ get_nodes repo →
                     is_node_eligible node (type job) = false
         end).
Proof.
  intros out. subst out. unfold jobs.create_job_route.
  destruct (jobs._parse_task_type strip upper (jobs.task_type payload))
    as [task|[code detail]] eqn:Hparse.
  2:{ apply parse_task_type_code in Hparse as ->. cbn.
      repeat split; try done; naive_solver. }
  cbv zeta.
  pose proof (pick_node_for_task_eligible repo task) as Hpick.
  set (assigned := jobs._pick_node_for_task repo task) in *.
  destruct (match assigned with
            | Some node_id => (128 <? String.length node_id)%nat
            | None => false
            end).
  { clear Hpick. unfold jobs.internal_server_error. cbn.
    repeat split; try done; naive_solver. }
  unfold create_job. cbv zeta. cbn [id attempts].
    change (fits_INTEGER 0) with true. cbn [negb].
  destruct (jobs repo !! ("job-" +:+ hex)) as [row|] eqn:Hrow.
  { clear Hpick. unfold jobs.internal_server_error. cbn.
    repeat split; try done; naive_solver. }
  cbn [fst snd]. split; [done|]. split; [done|]. split.
  { cbn. naive_solver. }
  intros code job [= <- <-]. cbn.
  unfold get_job. cbn. rewrite Hrow, lookup_insert_eq.
  repeat split; try done.
  intros key Hkey. by rewrite lookup_insert_ne.
Qed.

End job_creation.

(** ** Agent services *)

Import agents.

Section registration.

(** The loop that appends what is not there yet. *)
Lemma append_new_spec {A} `{EqDecision A} (l acc : list A) :
  NoDup acc →
  let r := foldl (λ acc x, if bool_decide (x ∈ acc) then acc else acc ++ [x])
             acc l in
  NoDup r ∧ (∀ x, x ∈ r ↔ x ∈ acc ∨ x ∈ l)
  ∧ (NoDup (acc ++ l) → r = acc ++ l).
Proof.
  revert acc. induction l as [|y l IH]; intros acc Hnd; cbn.
  - split; [done|]. split; [set_solver|]. by rewrite app_nil_r.
  - case_bool_decide as Hy.
    + destruct (IH acc Hnd) as (H1 & H2 & H3). split; [done|].
      split; [intros x; rewrite H2; set_solver|].
      intros Hdup. apply NoDup_app in Hdup as (_ & Hdis & _).
      exfalso. apply (Hdis y Hy). by left.
    + assert (Hnd' : NoDup (acc ++ [y])).
      { apply NoDup_app. repeat split; [done| |apply NoDup_singleton].
        intros x Hx ->%list_elem_of_singleton. done. }
      destruct (IH (acc ++ [y]) Hnd') as (H1 & H2 & H3). split; [done|].
      split; [intros x; rewrite H2; set_solver|].
      intros Hdup. rewrite <- (assoc_L (++)) in H3. by apply H3.
Qed.

Lemma extract_task_types_NoDup (strip lower : string → string)
  (labels : list string) :
  NoDup (services._extract_task_types strip lower labels).
Proof.
  unfold services._extract_task_types. cbv zeta.
  match goal with
  | |- NoDup (foldl ?f [] labels) =>
      assert (Hall : ∀ acc, NoDup acc → NoDup (foldl f acc labels))
  end; [|apply Hall, NoDup_nil_2].
  induction labels as [|label labels IH]; intros acc Hnd; cbn [foldl]; [done|].
  apply IH. destruct (_ !! _) as [t|]; [|done].
  case_bool_decide as Ht; [done|].
  apply NoDup_app. repeat split; [done| |apply NoDup_singleton].
  intros x Hx ->%list_elem_of_singleton. done.
Qed.

(** X19. [_normalize_task_types] never returns an empty list and never a
    task type twice.  Task types that are given win: the result has
    exactly their members, in the order given when none is repeated; the
    labels count only when no task type is given, and when they name none
    either, every task type is returned. *)
Theorem normalize_task_types_result (strip lower : string → string)
  (task_types : list TaskType) (labels : list string) :
  let r := services._normalize_task_types strip lower task_types labels in
  NoDup r ∧ r ≠ []
  ∧ (task_types ≠ [] →
     (∀ t, t ∈ r ↔ t ∈ task_types) ∧ (NoDup task_types → r = task_types))
  ∧ (task_types = [] →
     r = if bool_decide
             (services._extract_task_types strip lower labels = [])
         then all_task_types
         else services._extract_task_types strip lower labels).
Proof.
  intros r. subst r. unfold services._normalize_task_types. cbv zeta.
  destruct (append_new_spec task_types [] (NoDup_nil_2)) as (Hnd & Hmem & Heq).
  cbv zeta in Hnd, Hmem, Heq.
  set (d := foldl _ [] task_types) in *.
  destruct task_types as [|t0 rest].
  - cbn in d. subst d.
    rewrite (bool_decide_eq_true_2 (@nil TaskType = [])) by done.
    pose proof (extract_task_types_NoDup strip lower labels) as Hex.
    case_bool_decide as He.
    + repeat split; try done. by apply (bool_decide_unpack _).
    + repeat split; try done.
  - assert (Hd : d ≠ []).
    { intros Hd. specialize (Hmem t0). rewrite Hd in Hmem.
      destruct Hmem as [_ Hmem]. specialize (Hmem ltac:(right; left)).
      by apply elem_of_nil in Hmem. }
    rewrite (bool_decide_eq_false_2 (d = [])) by done.
    rewrite (bool_decide_eq_false_2 (d = [])) by done.
    repeat split; try done.
    + intros Ht. apply Hmem in Ht as [[]%elem_of_nil|Ht]. done.
    + intros Ht. apply Hmem. by right.
Qed.

(** X20. On a capabilities payload as the validator leaves it, the task
    types [_build_node_capabilities] stores do not depend on the labels,
    whatever [strip] and [lower] do: an empty list of task types has
    become the full list before the labels could be looked at. *)
Theorem validated_payload_ignores_labels
  (strip lower strip' lower' : string → string)
  (payload : AgentCapabilitiesPayload.t) (labels' : list string) :
  task_types
    (services._build_node_capabilities strip lower
       (AgentCapabilitiesPayload.default_task_types payload))
  = task_types
      (services._build_node_capabilities strip' lower'
         (AgentCapabilitiesPayload.default_task_types
            (relabelled labels' payload)))
  ∧ (AgentCapabilitiesPayload.task_types payload = [] →
     task_types
       (services._build_node_capabilities strip lower
          (AgentCapabilitiesPayload.default_task_types payload))
     = all_task_types).
Proof.
  unfold services._build_node_capabilities,
    AgentCapabilitiesPayload.default_task_types, relabelled.
  cbv zeta. cbn [task_types AgentCapabilitiesPayload.task_types
                 AgentCapabilitiesPayload.labels].
  destruct (AgentCapabilitiesPayload.task_types payload) as [|t0 rest] eqn:Ht.
  - rewrite !(bool_decide_eq_true_2 (@nil TaskType = [])) by done.
    cbn [AgentCapabilitiesPayload.task_types AgentCapabilitiesPayload.labels].
    split; [|intros _]; by vm_compute.
  - rewrite !(bool_decide_eq_false_2 (t0 :: rest = [])) by done.
    rewrite Ht. split; [|done].
    unfold services._normalize_task_types. cbv zeta.
    set (d := foldl _ [] (t0 :: rest)).
    assert (Hd : d ≠ []).
    { destruct (append_new_spec (t0 :: rest) [] (NoDup_nil_2))
        as (_ & Hmem & _). cbv zeta in Hmem. fold d in Hmem.
      intros Hd. specialize (Hmem t0). rewrite Hd in Hmem.
      destruct Hmem as [_ Hmem]. specialize (Hmem ltac:(right; left)).
      by apply elem_of_nil in Hmem. }
    by rewrite !(bool_decide_eq_false_2 (d = [])) by done.
Qed.

End registration.

Section registration_store.
Context `{ModelDefaults}.

(** X21. [register_agent_v1] returns the node that [get_node] finds
    afterwards: it carries the display name, address and port of the
    request and the capabilities built from it.  Registration does not
    bring a node online: status, metrics, policy, [last_seen] and
    [created_at] of a node that was known stay as they were, and a node
    that was not known is created UNKNOWN with the default metrics and
    policy.  No other node and no job is touched. *)
Theorem register_agent_v1_result (strip lower : string → string)
  (repo : CoordinatorRepository) (now1 now1' now2 now2' : datetime)
  (payload : AgentRegisterV1Request.t) :
  let out :=
    services.register_agent_v1 strip lower repo now1 now1' now2 now2'
      payload in
  let key := AgentRegisterV1Request.node_id payload in
  get_node out.1 key = Some out.2
  ∧ display_name (identity out.2) = AgentRegisterV1Request.display_name payload
  ∧ ip (identity out.2) = AgentRegisterV1Request.ip payload
  ∧ port (identity out.2) = AgentRegisterV1Request.port payload
  ∧ capabilities out.2
    = services._build_node_capabilities strip lower
        (AgentRegisterV1Request.capabilities payload)
  ∧ updated_at out.2 = now2
  ∧ match get_node repo key with
    | Some before =>
        node_id (identity out.2) = node_id (identity before)
        ∧ status out.2 = status before
        ∧ metrics out.2 = metrics before
        ∧ policy out.2 = policy before
        ∧ last_seen out.2 = last_seen before
        ∧ created_at out.2 = created_at before
    | None =>
        node_id (identity out.2) = key
        ∧ status out.2 = UNKNOWN
        ∧ metrics out.2 = NodeMetrics_default
        ∧ policy out.2 = NodePolicy_default
        ∧ last_seen out.2 = now1'
        ∧ created_at out.2 = now1'
    end
  ∧ (∀ other, other ≠ key → get_node out.1 other = get_node repo other)
  ∧ jobs out.1 = jobs repo.
Proof.
  intros out key. subst out.
  unfold services.register_agent_v1, upsert_node_identity,
    upsert_node_capabilities, _ensure_node, get_node.
  fold key.
  destruct (nodes repo !! key) as [row|] eqn:Hrow; cbn;
    rewrite ?lookup_insert_eq; cbn; rewrite ?lookup_insert_eq; cbn;
    (repeat split; try done);
    intros other Hother; by rewrite ?lookup_insert_ne by done.
Qed.

End registration_store.

Section heartbeats.
Context `{ModelDefaults}.

(** A heartbeat stamped in UTC: the node returned is the node stored. *)
Lemma update_node_metrics_stored (repo : CoordinatorRepository)
  (now now' : datetime) (key : string) (sample : NodeMetrics) :
  utcoffset (heartbeat_ts sample) = 0 →
  let out := update_node_metrics repo now now' key sample in
  get_node out.1 key = Some out.2
  ∧ status out.2 = ONLINE
  ∧ last_seen out.2 = instant (heartbeat_ts sample)
  ∧ metrics out.2 = sample
  ∧ updated_at out.2 = now
  ∧ jobs out.1 = jobs repo.
Proof.
  intros Hutc out. subst out.
  unfold update_node_metrics, _ensure_node, get_node, wall_clock.
  rewrite Hutc, Z.add_0_r.
  destruct (nodes repo !! key) as [row|]; cbn; by rewrite lookup_insert_eq.
Qed.

Lemma deque_append_last {A} (maxlen : Z) (x : A) (items : list A) :
  0 < maxlen → ∃ front, deque_append maxlen x items = front ++ [x].
Proof.
  intros Hmax. unfold deque_append.
  destruct (maxlen <? Z.of_nat (length (items ++ [x]))) eqn:Hfull.
  - destruct items as [|y rest].
    + apply Z.ltb_lt in Hfull. cbn in Hfull. lia.
    + exists rest. cbn [app drop]. by rewrite drop_0.
  - by exists items.
Qed.

Lemma lastn_1_snoc {A} (front : list A) (x : A) :
  lastn 1 (front ++ [x]) = [x].
Proof. rewrite lastn_snoc. by rewrite lastn_0. Qed.

Lemma append_get (buf : MetricsHistoryBuffer) (key : string)
  (sample : NodeMetrics) :
  0 ≤ _max_samples buf →
  ∃ buf',
    append buf key sample = Some buf'
    ∧ (0 < _max_samples buf → get buf' key 1 = [sample])
    ∧ (∀ other limit, other ≠ key → get buf' other limit = get buf other limit).
Proof.
  intros Hmax. unfold append.
  assert (Hneg : (_max_samples buf <? 0) = false) by (apply Z.ltb_ge; lia).
  rewrite Hneg.
  destruct (_samples buf !! key) as [items|] eqn:Hitems;
    (eexists; split; [reflexivity|]; split;
     [intros Hpos; rewrite get_positive_limit by lia;
      cbn [_samples]; rewrite lookup_insert_eq; cbn [from_option];
      unfold Datatypes.id;
      match goal with
      | |- context [deque_append ?m ?x ?l] =>
          destruct (deque_append_last m x l Hpos) as [front ->]
      end; apply lastn_1_snoc
     |intros other limit Hother; unfold get; cbn [_samples];
      by rewrite lookup_insert_ne by done]).
Qed.

(** X22. On a bus whose queues are within their bound and a history of a
    size that is not negative, [heartbeat_agent_v1] does not raise.  The
    node is stored ONLINE with the metrics of the payload and [last_seen]
    at their time stamp; the event returned names that node, status and
    metrics; the newest sample of the node's history is these metrics
    (when the history keeps any); the event is the newest item of every
    subscriber's queue; no other node's history, no subscription and no
    job changes. *)
Theorem heartbeat_agent_v1_result
  (model_dump : AgentHeartbeatMetricsPayload.t → list (string * string))
  (app : services.coordinator) (ts now now' : datetime)
  (payload : AgentHeartbeatV1Request.t) :
  bus_ok (services.events app) →
  0 ≤ _max_samples (services.history app) →
  let key := AgentHeartbeatV1Request.node_id payload in
  let sample :=
    metrics_of model_dump ts (AgentHeartbeatV1Request.metrics payload) in
  ∃ app' node,
    services.heartbeat_agent_v1 model_dump app ts now now' payload
    = (app', inl {| event_node_id := node_id (identity node);
                    event_status := ONLINE;
                    event_metrics := sample;
                    event_updated_at := now |})
    ∧ get_node (services.db app') key = Some node
    ∧ status node = ONLINE
    ∧ last_seen node = ts
    ∧ metrics node = sample
    ∧ updated_at node = now
    ∧ (0 < _max_samples (services.history app) →
       get (services.history app') key 1 = [sample])
    ∧ (∀ other limit, other ≠ key →
         get (services.history app') other limit
         = get (services.history app) other limit)
    ∧ (∀ ident q,
         _subscribers (services.events app) !! ident = Some q →
         ∃ q', _subscribers (services.events app') !! ident = Some q'
               ∧ last (pending q')
                 = Some {| event_node_id := node_id (identity node);
                           event_status := ONLINE;
                           event_metrics := sample;
                           event_updated_at := now |})
    ∧ (∀ ident,
         _subscribers (services.events app) !! ident = None →
         _subscribers (services.events app') !! ident = None)
    ∧ jobs (services.db app') = jobs (services.db app).
Proof.
  intros Hbus Hmax key sample. unfold services.heartbeat_agent_v1. cbv zeta.
  fold key. change {| cpu_percent := _; ram_used_gb := _; ram_percent := _;
                      gpu_percent := _; vram_used_gb := _; running_jobs := _;
                      heartbeat_ts := utc ts; extra := _ |} with sample.
  pose proof (update_node_metrics_stored (services.db app) now now' key sample
                eq_refl) as Hstored. cbv zeta in Hstored.
  destruct (update_node_metrics (services.db app) now now' key sample)
    as [repo node]. cbn [fst snd] in Hstored.
  destruct Hstored as (Hget & Hstatus & Hseen & Hmetrics & Hupdated & Hjobs).
  rewrite Hmetrics, Hstatus, Hupdated.
  destruct (append_get (services.history app) key sample Hmax)
    as (buf' & -> & Hnewest & Hothers).
  set (event := {| event_node_id := node_id (identity node);
                   event_status := ONLINE; event_metrics := sample;
                   event_updated_at := now |}).
  destruct (publish_ok (services.events app) event Hbus)
    as (Hraised & _ & _ & Hqueues & _).
  destruct (publish (services.events app) event) as [bus raised].
  cbn [fst snd] in Hraised, Hqueues. subst raised.
  eexists _, node. split; [reflexivity|]. cbn [services.db services.history
                                              services.events].
  repeat split; try done.
  - intros ident q Hq. rewrite Hqueues, Hq. cbn. eexists. split; [done|].
    unfold delivered. cbn [pending]. apply last_snoc.
  - intros ident Hq. by rewrite Hqueues, Hq.
Qed.

End heartbeats.

(** A heartbeat of node-1 on the coordinator with one listener. *)
Lemma heartbeat_agent_v1_result_witness :
  bus_ok (services.events scenarios.listening)
  ∧ ∃ app' node,
      services.heartbeat_agent_v1 (H := documented_defaults)
        scenarios.no_dump scenarios.listening 7000 7001 7002
        scenarios.node_1_heartbeat
      = (app', inl {| event_node_id := node_id (identity node);
                      event_status := ONLINE;
                      event_metrics :=
                        metrics_of scenarios.no_dump 7000
                          (AgentHeartbeatV1Request.metrics
                             scenarios.node_1_heartbeat);
                      event_updated_at := 7001 |})
      ∧ get (services.history app') "node-1" 1
        = [metrics_of scenarios.no_dump 7000
             (AgentHeartbeatV1Request.metrics scenarios.node_1_heartbeat)].
Proof.
  assert (Hbus : bus_ok (services.events scenarios.listening)).
  { apply subscribe_ok, new_bus_ok. }
  assert (Hmax : 0 ≤ _max_samples (services.history scenarios.listening)).
  { vm_compute. discriminate. }
  split; [exact Hbus|].
  destruct (heartbeat_agent_v1_result (H := documented_defaults)
              scenarios.no_dump scenarios.listening 7000 7001 7002
              scenarios.node_1_heartbeat Hbus Hmax)
    as (app' & node & Heq & _ & _ & _ & _ & _ & Hnewest & _).
  exists app', node. split; [exact Heq|]. apply Hnewest.
  vm_compute. reflexivity.
Defined.


(** ** The agent loop *)

Section agent_loop.

Import agent_service.

Local Open Scope Q_scope.

Lemma min_spec (a b : Q) :
  (a <= b ∧ py.min a b = a) ∨ (b < a ∧ py.min a b = b).
Proof.
  unfold py.min. destruct (py.gt a b) eqn:E.
  - apply gt_spec in E. by right.
  - apply gt_false_spec in E. by left.
Qed.

(** What every pass keeps: the delay is between 1 and 30, and it is 1
    while the agent is registered. *)
Lemma pass_keeps (heartbeat_seconds : Q) (st : loop_state)
  (register send_heartbeat : outcome) :
  1 <= retry_delay st <= 30 →
  (registered st = true → retry_delay st == 1) →
  let out := pass heartbeat_seconds st register send_heartbeat in
  1 <= retry_delay out.1 <= 30
  ∧ (registered out.1 = true → retry_delay out.1 == 1)
  ∧ (out.2 = heartbeat_seconds ∨ 1 <= out.2 <= 30).
Proof.
  intros Hd Hreg out. subst out. unfold pass.
  destruct (min_spec (retry_delay st * 2) 30) as [[? Hm]|[? Hm]];
    destruct (min_spec (1 * 2) 30) as [[? Hm1]|[? Hm1]];
    destruct (registered st), register, send_heartbeat; cbn;
    rewrite ?Hm, ?Hm1; repeat split; try done; try lra; auto;
    try (right; lra).
Qed.

(** X23. Whatever the requests of the agent do, the retry delay of
    [run_agent] stays between 1 and 30 seconds and is 1 whenever the
    agent is registered, and every sleep of the loop is either the
    heartbeat interval or a retry delay between 1 and 30 seconds. *)
Theorem run_agent_delay_bounds (heartbeat_seconds : Q)
  (outcomes : list (outcome * outcome)) :
  let out := run_agent heartbeat_seconds outcomes in
  1 <= retry_delay out.1 <= 30
  ∧ (registered out.1 = true → retry_delay out.1 == 1)
  ∧ Forall (λ slept, slept = heartbeat_seconds ∨ 1 <= slept <= 30) out.2.
Proof.
  unfold run_agent.
  assert (Hstart : 1 <= retry_delay start <= 30) by (cbn; lra).
  assert (Hreg : registered start = true → retry_delay start == 1) by done.
  revert Hstart Hreg. generalize start.
  induction outcomes as [|[register send_heartbeat] rest IH];
    intros st Hd Hreg; cbn [passes].
  - cbn [fst snd]. destruct Hd. by repeat split.
  - destruct (pass_keeps heartbeat_seconds st register send_heartbeat Hd Hreg)
      as (Hd' & Hreg' & Hslept).
    destruct (pass heartbeat_seconds st register send_heartbeat)
      as [st' slept].
    cbn [fst snd] in Hd', Hreg', Hslept.
    specialize (IH st' Hd' Hreg').
    destruct (passes heartbeat_seconds st' rest) as [st'' sleeps].
    cbn [fst snd] in IH |- *. destruct IH as (? & ? & ?).
    split; [done|]. split; [done|]. by constructor.
Qed.

Lemma backoff_next (i : nat) (d : Q) :
  d == backoff i → py.min (d * 2) 30 == backoff (S i).
Proof.
  intros Hd. unfold backoff in *.
  assert (Hpow : inject_Z (2 ^ Z.of_nat (S i))
                 == inject_Z (2 ^ Z.of_nat i) * 2).
  { rewrite Nat2Z.inj_succ, Z.pow_succ_r by lia.
    rewrite inject_Z_mult. ring. }
  rewrite Hpow.
  set (p := inject_Z (2 ^ Z.of_nat i)) in *.
  assert (Hp : 1 <= p).
  { subst p. change 1 with (inject_Z 1). rewrite <- Zle_Qle.
    pose proof (Z.pow_pos_nonneg 2 (Z.of_nat i)). lia. }
  destruct (min_spec (d * 2) 30) as [[? ->]|[? ->]];
    destruct (Q.min_spec p 30) as [[? Hm]|[? Hm]]; rewrite Hm in Hd;
    destruct (Q.min_spec (p * 2) 30) as [[? ->]|[? ->]]; lra.
Qed.

Lemma passes_register_raises (heartbeat_seconds : Q)
  (heartbeats : list outcome) :
  ∀ (st : loop_state) (i : nat),
    registered st = false →
    retry_delay st == backoff i →
    let out :=
      passes heartbeat_seconds st ((λ h, (Raises, h)) <$> heartbeats) in
    registered out.1 = false
    ∧ retry_delay out.1 == backoff (i + length heartbeats)
    ∧ Forall2 Qeq out.2 (backoff <$> seq i (length heartbeats)).
Proof.
  induction heartbeats as [|h rest IH]; intros st i Hreg Hd; cbn.
  - rewrite Nat.add_0_r. by repeat split.
  - unfold pass. rewrite Hreg. cbn.
    specialize (IH {| registered := false;
                      retry_delay := py.min (retry_delay st * 2) 30 |}
                  (S i) eq_refl (backoff_next i _ Hd)).
    cbv zeta in IH.
    destruct (passes _ _ _) as [st' sleeps]. cbn [fst snd] in *.
    destruct IH as (? & Hd' & Hs). split; [done|]. split.
    + by rewrite Nat.add_succ_r.
    + by constructor.
Qed.

(** X24. While [register] keeps failing from the start of [run_agent],
    whatever a heartbeat would do, the agent sleeps 1, 2, 4, 8, 16 and
    from then on 30 seconds: the sleep that follows [i] earlier failures
    is [min(2^i, 30)]. *)
Theorem run_agent_backs_off (heartbeat_seconds : Q)
  (heartbeats : list outcome) :
  let out :=
    run_agent heartbeat_seconds ((λ h, (Raises, h)) <$> heartbeats) in
  registered out.1 = false
  ∧ retry_delay out.1 == backoff (length heartbeats)
  ∧ Forall2 Qeq out.2 (backoff <$> seq 0 (length heartbeats)).
Proof.
  apply (passes_register_raises heartbeat_seconds heartbeats start 0);
    [done|by vm_compute].
Qed.

(** X25. While [register] succeeds and the heartbeat after it fails, the
    agent sleeps one second every time: each successful registration
    sets the delay back to 1, so these failures are never backed off. *)
Theorem run_agent_retry_every_second (heartbeat_seconds : Q) (n : nat) :
  let out := run_agent heartbeat_seconds (replicate n (Returns, Raises)) in
  registered out.1 = false ∧ out.2 = replicate n 1.
Proof.
  unfold run_agent.
  assert (Hstart : registered start = false) by done.
  revert Hstart. generalize start.
  induction n as [|n IH]; intros st Hreg; cbn; [done|].
  unfold pass. rewrite Hreg. cbn.
  specialize (IH {| registered := false; retry_delay := py.min (1 * 2) 30 |}
                eq_refl).
  cbv zeta in IH. destruct (passes _ _ _) as [st' sleeps].
  cbn [fst snd] in *. destruct IH as [? ->]. done.
Qed.

End agent_loop.

(** ** Job routes *)

Section job_routes.

(** X26. [transition_job_status_route] answers 200, 404, 409 or 500 and
    nothing else: 404 exactly when [get_job_route] answers 404 for the id,
    500 exactly when RUNNING is asked of a QUEUED job whose number of
    attempts, raised by one, does not fit the 64-bit column of the store,
    and anything but 200 leaves the store as it was.  The job of a 200 has
    the status asked for and is what [get_job_route] answers afterwards,
    and asking for the same status again, without an error text, is
    answered 200 with the same job and changes nothing. *)
Theorem transition_job_status_route_answers (repo : CoordinatorRepository)
  (now : datetime) (job_id : string) (new_status : JobStatus)
  (error : option string) :
  let out := transition_job_status_route repo now job_id new_status error in
  (status_code out.2 = 200 ∨ status_code out.2 = 404
   ∨ status_code out.2 = 409 ∨ status_code out.2 = 500)
  ∧ (status_code out.2 = 404
     ↔ status_code (jobs.get_job_route repo job_id) = 404)
  ∧ (status_code out.2 = 500
     ↔ ∃ row, jobs repo !! job_id = Some row
              ∧ JobRecord.status row = QUEUED ∧ new_status = RUNNING
              ∧ ¬ (- 2 ^ 63 ≤ JobRecord.attempts row + 1 < 2 ^ 63))
  ∧ (status_code out.2 ≠ 200 → out.1 = repo)
  ∧ (∀ code job, out.2 = Response code job →
       code = 200
       ∧ job_status job = new_status
       ∧ jobs.get_job_route out.1 job_id = Response 200 job
       ∧ ∀ again,
           transition_job_status_route out.1 again job_id new_status None
           = (out.1, Response 200 job)).
Proof.
  intros out. subst out.
  unfold transition_job_status_route, jobs.get_job_route, get_job.
  destruct (jobs repo !! job_id) as [row|] eqn:Hrow.
  2:{ rewrite transition_missing by done. cbn.
      split; [auto|]. split; [done|].
      split; [split; [done|intros (? & ? & _); done]|]. split; done. }
  assert (Hagain : ∀ row' : JobRecord.t,
            JobRecord.status row' = new_status →
            ∀ again,
              match
                transition_job_status
                  (with_jobs (<[job_id := row']> (jobs repo)) repo) again
                  job_id new_status None
              with
              | (repo0, Ok job) => (repo0, Response 200 job)
              | (repo0, Err (KeyError _)) =>
                  (repo0,
                   HTTPException 404 ("Job '" +:+ job_id +:+ "' not found"))
              | (repo0, Err (ValueError message)) =>
                  (repo0, HTTPException 409 message)
              | (repo0, Err (IntegrityError _))
              | (repo0, Err (OverflowError _)) =>
                  (repo0, HTTPException 500 "Internal Server Error")
              end
              = (with_jobs (<[job_id := row']> (jobs repo)) repo,
                 Response 200 (_to_job row'))).
  { intros row' Hstatus again.
    rewrite (transition_same _ again _ _ None row'
               (lookup_with_jobs_insert _ _ _) Hstatus).
    unfold with_jobs. cbn. by rewrite insert_insert_eq. }
  destruct (decide (JobRecord.status row = new_status)) as [Heq|Hne].
  - rewrite (transition_same _ now _ _ error _ Hrow Heq). cbv zeta.
    set (row' := match error with
                 | Some _ => _
                 | None => row
                 end).
    assert (Hstatus : JobRecord.status row' = new_status).
    { subst row'. by destruct error. }
    assert (Hno : ¬ ∃ r, Some row = Some r ∧ JobRecord.status r = QUEUED
                         ∧ new_status = RUNNING
                         ∧ ¬ (- 2 ^ 63 ≤ JobRecord.attempts r + 1 < 2 ^ 63)).
    { intros (r & [= <-] & Hq & Hrun & _). congruence. }
    destruct (max_length 2048 error); cbn [fst snd status_code].
    + split; [auto|]. split; [done|]. split; [by split|].
      split; [done|]. intros code job [= <- <-].
      rewrite lookup_with_jobs_insert. repeat split; try done.
      by apply Hagain.
    + split; [auto|]. split; [done|]. split; [by split|]. by split.
  - destruct (decide (new_status
                      ∈ _ALLOWED_JOB_TRANSITIONS (JobRecord.status row)))
      as [Hin|Hout].
    + apply allowed_transitions_spec in Hin.
      rewrite (transition_allowed _ now _ _ error _ Hrow Hne Hin). cbv zeta.
      set (row' := enter_status now new_status error row).
      assert (Hstatus : JobRecord.status row' = new_status).
      { subst row'. unfold enter_status. by destruct new_status. }
      pose proof (fits_INTEGER_spec (JobRecord.attempts row')) as Hfits.
      assert (Hattempts : new_status = RUNNING →
                JobRecord.attempts row' = JobRecord.attempts row + 1).
      { intros ->. subst row'. cbn. by rewrite attempts_or_zero. }
      assert (Hqueued : new_status = RUNNING → JobRecord.status row = QUEUED).
      { intros ->. destruct Hin as [[? _]|[_ [?|?]]]; done. }
      destruct (bool_decide (new_status = RUNNING)) eqn:Hrun;
        [apply bool_decide_eq_true in Hrun
        |apply bool_decide_eq_false in Hrun].
      * destruct (fits_INTEGER (JobRecord.attempts row')) eqn:Hfit;
          cbn [andb negb].
        -- assert (Hno : ¬ ∃ r, Some row = Some r
                           ∧ JobRecord.status r = QUEUED
                           ∧ new_status = RUNNING
                           ∧ ¬ (- 2 ^ 63 ≤ JobRecord.attempts r + 1 < 2 ^ 63)).
           { intros (r & [= <-] & _ & _ & Hover). apply Hover.
             rewrite <- Hattempts by done. by apply Hfits. }
           destruct (max_length 2048 (JobRecord.error row'));
             cbn [fst snd status_code].
           ++ split; [auto|]. split; [done|]. split; [by split|].
              split; [done|]. intros code job [= <- <-].
              rewrite lookup_with_jobs_insert. repeat split; try done.
              by apply Hagain.
           ++ split; [auto|]. split; [done|]. split; [by split|]. by split.
        -- cbn [fst snd status_code INTEGER_overflow].
           split; [auto|]. split; [done|].
           split; [|by split].
           split; [|done]. intros _. exists row. split; [done|].
           split; [by apply Hqueued|]. split; [done|].
           rewrite <- Hattempts by done. intros Hin'%Hfits. congruence.
      * cbn [andb].
        assert (Hno : ¬ ∃ r, Some row = Some r
                        ∧ JobRecord.status r = QUEUED
                        ∧ new_status = RUNNING
                        ∧ ¬ (- 2 ^ 63 ≤ JobRecord.attempts r + 1 < 2 ^ 63)).
        { intros (r & _ & _ & ? & _). done. }
        destruct (max_length 2048 (JobRecord.error row'));
          cbn [fst snd status_code].
        -- split; [auto|]. split; [done|]. split; [by split|].
           split; [done|]. intros code job [= <- <-].
           rewrite lookup_with_jobs_insert. repeat split; try done.
           by apply Hagain.
        -- split; [auto|]. split; [done|]. split; [by split|]. by split.
    + rewrite allowed_transitions_spec in Hout.
      rewrite (transition_conflict _ now _ _ error _ Hrow Hne Hout).
      cbn. split; [auto|]. split; [done|]. split; [|by split].
      split; [done|]. intros (r & [= <-] & Hq & -> & _).
      exfalso. apply Hout. left. by split.
Qed.

(** The job that has been attempted 2^63 − 1 times is answered 500. *)
Example worn_job_internal_server_error :
  (transition_job_status_route (one_job_repository worn_job) 2000 "job-1"
     RUNNING None).2
  = HTTPException 500 "Internal Server Error".
Proof. vm_compute. reflexivity. Qed.

End job_routes.

Section job_listing.

Lemma parse_job_status_code (strip upper : string → string) (raw : string)
  (code : Z) (detail : string) :
  jobs._parse_job_status strip upper raw = inr (code, detail) → code = 422.
Proof.
  unfold jobs._parse_job_status. cbv zeta.
  destruct (_ !! _); [done|]. by intros [= <- _].
Qed.

(** What [create_job_route] stored when it answered with a job. *)
Lemma create_job_route_stored (strip upper : string → string)
  (repo : CoordinatorRepository) (hex : string) (now now' : datetime)
  (payload : jobs.JobCreateRequest) (code : Z) (job : Job) :
  (jobs.create_job_route strip upper repo hex now now' payload).2
  = Response code job →
  ∃ row,
    job = _to_job row
    ∧ JobRecord.status row = QUEUED
    ∧ jobs repo !! id job = None
    ∧ jobs (jobs.create_job_route strip upper repo hex now now' payload).1
      = <[id job := row]> (jobs repo).
Proof.
  unfold jobs.create_job_route.
  destruct (jobs._parse_task_type strip upper (jobs.task_type payload))
    as [task|[c d]]; [|done].
  cbv zeta. destruct (match jobs._pick_node_for_task repo task with
                      | Some node_id => (128 <? String.length node_id)%nat
                      | None => false
                      end); [done|].
  unfold create_job. cbv zeta. cbn [id attempts].
    change (fits_INTEGER 0) with true. cbn [negb].
  destruct (jobs repo !! ("job-" +:+ hex)) as [row|] eqn:Hrow; [done|].
  cbn [fst snd]. intros [= <- <-]. eexists. split; [reflexivity|].
  cbn. by rewrite Hrow.
Qed.

Lemma to_job_inj (a b : JobRecord.t) : _to_job a = _to_job b → a = b.
Proof. destruct a, b. cbn. by intros [= -> -> -> -> -> -> -> -> -> -> ->]. Qed.

Lemma and3_iff (A A' B B' C : Prop) :
  (A ↔ A') → (B ↔ B') → (A ∧ B ∧ C ↔ A' ∧ B' ∧ C).
Proof. tauto. Qed.

(** A filter value that parsed selects a job exactly when the raw text
    parses to the job's value. *)
Lemma filter_parsed {A} (parse : string → A + Z * string) (raw : string)
  (v target : A) :
  parse raw = inl v →
  (∀ s, Some v = Some s → s = target)
  ↔ (∀ r, Some raw = Some r → parse r = inl target).
Proof.
  intros Hparse. split.
  - intros Hv r [= <-]. rewrite Hparse. f_equal. by apply Hv.
  - intros Hr s [= <-]. specialize (Hr raw eq_refl). congruence.
Qed.

(** X27. A job that [create_job_route] has answered with is answered by
    [get_job_route] with 200.  [list_jobs_route] answers 422 exactly when
    a status filter or a task type filter is given that does not parse,
    and 200 otherwise; it then lists the job exactly under the filters it
    passes: a status filter that parses to QUEUED, a task type filter that
    parses to its type, a node filter that names the node it is assigned
    to. *)
Theorem created_job_is_listed (strip upper : string → string)
  (repo : CoordinatorRepository) (hex : string) (now now' : datetime)
  (payload : jobs.JobCreateRequest) (code : Z) (job : Job) :
  (jobs.create_job_route strip upper repo hex now now' payload).2
  = Response code job →
  let repo' :=
    (jobs.create_job_route strip upper repo hex now now' payload).1 in
  jobs.get_job_route repo' (id job) = Response 200 job
  ∧ ∀ status_filter task_type_filter node_filter,
      let unparsed :=
        (∃ raw e, status_filter = Some raw
                  ∧ jobs._parse_job_status strip upper raw = inr e)
        ∨ (∃ raw e, task_type_filter = Some raw
                    ∧ jobs._parse_task_type strip upper raw = inr e) in
      match jobs.list_jobs_route strip upper repo' status_filter
              task_type_filter node_filter with
      | HTTPException c _ => c = 422 ∧ unparsed
      | Response c listed =>
          c = 200
          ∧ ¬ unparsed
          ∧ (job ∈ listed ↔
               (∀ raw, status_filter = Some raw →
                       jobs._parse_job_status strip upper raw = inl QUEUED)
               ∧ (∀ raw, task_type_filter = Some raw →
                         jobs._parse_task_type strip upper raw
                         = inl (type job))
               ∧ (∀ n, node_filter = Some n →
                       assigned_node_id job = Some n))
      end.
Proof.
  intros Hcreated repo'.
  destruct (create_job_route_stored _ _ _ _ _ _ _ _ _ Hcreated)
    as (row & -> & Hqueued & Hfresh & Hjobs).
  fold repo' in Hjobs.
  assert (Hrow : jobs repo' !! JobRecord.id row = Some row).
  { rewrite Hjobs. apply lookup_insert_eq. }
  split.
  { unfold jobs.get_job_route, get_job. cbn [id _to_job]. by rewrite Hrow. }
  intros status_filter task_type_filter node_filter unparsed.
  unfold jobs.list_jobs_route.
  assert (Hlisted : ∀ status task_type,
            _to_job row ∈ list_jobs repo' status task_type node_filter
            ↔ (∀ s, status = Some s → s = QUEUED)
              ∧ (∀ t, task_type = Some t → t = JobRecord.type row)
              ∧ (∀ n, node_filter = Some n →
                      JobRecord.assigned_node_id row = Some n)).
  { intros status task_type.
    destruct (list_jobs_rows repo' status task_type node_filter)
      as (rows & -> & Hrows & _).
    rewrite list_elem_of_fmap. split.
    - intros (row' & ->%to_job_inj & Hin).
      rewrite sorted_by_Permutation in Hin.
      apply Hrows in Hin as (_ & Hs & Ht & Hn).
      repeat split; [|intros t Heq; symmetry; by apply Ht|done].
      intros s Heq. rewrite <- Hqueued. symmetry. by apply Hs.
    - intros (Hs & Ht & Hn). exists row. split; [done|].
      rewrite sorted_by_Permutation. apply Hrows.
      repeat split; [by exists (JobRecord.id row)| |by intros t ->%Ht|done].
      intros s ->%Hs. done. }
  subst unparsed.
  destruct status_filter as [sraw|].
  - destruct (jobs._parse_job_status strip upper sraw) as [s|[c d]] eqn:Hs.
    2:{ split; [by apply parse_job_status_code in Hs|]. left. eauto. }
    destruct task_type_filter as [traw|].
    + destruct (jobs._parse_task_type strip upper traw) as [t|[c d]] eqn:Ht.
      2:{ split; [by apply parse_task_type_code in Ht|]. right. eauto. }
      split; [done|]. split.
      { intros [(raw & e & [= <-] & He)|(raw & e & [= <-] & He)]; congruence. }
      rewrite Hlisted. cbn [type _to_job assigned_node_id].
      apply and3_iff; [by apply filter_parsed|by apply filter_parsed].
    + split; [done|]. split.
      { intros [(raw & e & [= <-] & He)|(raw & e & ? & _)]; congruence. }
      rewrite Hlisted. cbn [type _to_job assigned_node_id].
      apply and3_iff; [by apply filter_parsed|by split].
  - destruct task_type_filter as [traw|].
    + destruct (jobs._parse_task_type strip upper traw) as [t|[c d]] eqn:Ht.
      2:{ split; [by apply parse_task_type_code in Ht|]. right. eauto. }
      split; [done|]. split.
      { intros [(raw & e & ? & _)|(raw & e & [= <-] & He)]; congruence. }
      rewrite Hlisted. cbn [type _to_job assigned_node_id].
      apply and3_iff; [by split|by apply filter_parsed].
    + split; [done|]. split.
      { intros [(raw & e & ? & _)|(raw & e & ? & _)]; congruence. }
      rewrite Hlisted. cbn [type _to_job assigned_node_id].
      apply and3_iff; by split.
Qed.

(** An EMBED job created on the store of two idle nodes. *)
Lemma created_job_is_listed_witness :
  ∃ job,
    (jobs.create_job_route (λ s, s) (λ s, s) two_node_repository
       "0123456789ab" 6000 6001
       {| jobs.task_type := "EMBED"; jobs.payload_ref := None |}).2
    = Response 201 job
    ∧ assigned_node_id job = Some "node-1"
    ∧ jobs.get_job_route
        (jobs.create_job_route (λ s, s) (λ s, s) two_node_repository
           "0123456789ab" 6000 6001
           {| jobs.task_type := "EMBED"; jobs.payload_ref := None |}).1
        (id job)
      = Response 200 job.
Proof.
  set (job := {| id := "job-0123456789ab"; type := EMBEDDINGS;
                 job_status := QUEUED; payload_ref := None;
                 assigned_node_id := Some "node-1"; attempts := 0;
                 job_created_at := 6000; job_updated_at := 6001;
                 started_at := None; completed_at := None;
                 error := None |}).
  assert (Hcreated :
    (jobs.create_job_route (λ s, s) (λ s, s) two_node_repository
       "0123456789ab" 6000 6001
       {| jobs.task_type := "EMBED"; jobs.payload_ref := None |}).2
    = Response 201 job).
  { vm_compute. reflexivity. }
  exists job. split; [exact Hcreated|]. split; [reflexivity|].
  exact (proj1 (created_job_is_listed (λ s, s) (λ s, s) two_node_repository
                  "0123456789ab" 6000 6001
                  {| jobs.task_type := "EMBED"; jobs.payload_ref := None |}
                  201 job Hcreated)).
Defined.

End job_listing.

(** ** Liveness and scheduling; node detail *)

Section liveness.

Lemma eligible_online (node : Node) (task : TaskType) :
  is_node_eligible node task = true → status node = ONLINE.
Proof.
  unfold is_node_eligible.
  assert (Hel : (evaluate_node_eligibility node task).1
                = bool_decide
                    (length (evaluate_node_eligibility node task).2 = 0%nat))
    by reflexivity.
  rewrite Hel, bool_decide_eq_true, length_zero_iff_nil, reasons_as_concat,
    when_concat_nil.
  intros (_ & Honline & _).
  by apply negb_false_iff, bool_decide_eq_true in Honline.
Qed.

Lemma get_nodes_stored (repo : CoordinatorRepository) (node : Node) :
  node ∈ get_nodes repo
  ↔ ∃ key row, nodes repo !! key = Some row ∧ node = _to_node row.
Proof.
  unfold get_nodes.
  rewrite (sorted_by_Permutation node_before), list_elem_of_fmap. split.
  - intros ([key row] & -> & Hin%elem_of_map_to_list). eauto.
  - intros (key & row & Hrow & ->). exists (key, row).
    split; [done|]. by apply elem_of_map_to_list.
Qed.

(** X28. On a store whose rows sit under their own keys, a node that
    [mark_offline_if_stale_nodes] returns as demoted is OFFLINE, eligible
    for no task, and not the node [_pick_node_for_task] picks on the store
    the sweep leaves: no job is assigned to a node that has just been
    found stale. *)
Theorem swept_nodes_are_not_picked (repo : CoordinatorRepository)
  (now stale_seconds : Z) (task : TaskType) (node : Node) :
  store_keyed repo →
  node ∈ (mark_offline_if_stale_nodes repo now stale_seconds).2 →
  status node = OFFLINE
  ∧ is_node_eligible node task = false
  ∧ jobs._pick_node_for_task
      (mark_offline_if_stale_nodes repo now stale_seconds).1 task
    ≠ Some (node_id (identity node)).
Proof.
  intros [Hkeyed _] Hnode.
  destruct (mark_offline_rows repo now stale_seconds)
    as (Hrows & _ & Hchanged).
  cbv zeta in Hrows, Hchanged. rewrite Hchanged in Hnode.
  apply list_elem_of_fmap in Hnode as ([key row] & -> & Hin).
  apply list_elem_of_filter in Hin as [Hstale Hin%elem_of_map_to_list].
  cbn [snd] in *.
  assert (Hoff : ∀ n, status n = OFFLINE → is_node_eligible n task = false).
  { intros n Hn. apply not_true_iff_false. intros Hel%eligible_online.
    congruence. }
  split; [done|]. split; [by apply Hoff|].
  intros Hpick.
  pose proof (pick_node_for_task_eligible
                (mark_offline_if_stale_nodes repo now stale_seconds).1 task)
    as Hchosen.
  rewrite Hpick in Hchosen. destruct Hchosen as (n & Hn & Hid & Heligible).
  apply get_nodes_stored in Hn as (key' & row' & Hrow' & ->).
  rewrite Hrows in Hrow'.
  destruct (nodes repo !! key') as [row''|] eqn:Hrow''; [|done].
  injection Hrow' as <-.
  assert (key' = key) as ->.
  { rewrite <- (Hkeyed _ _ Hrow''), <- (Hkeyed _ _ Hin).
    cbn in Hid. unfold swept in Hid. by destruct (is_stale _ row''). }
  assert (row'' = row) as -> by congruence.
  unfold swept in Heligible. rewrite Hstale in Heligible.
  rewrite Hoff in Heligible; done.
Qed.

(** The sweep of the scenario "stale demotion": node-1 is demoted and not
    picked. *)
Lemma swept_nodes_are_not_picked_witness :
  (mark_offline_if_stale_nodes two_node_repository 500000000 60).2
  = [_to_node (demote 500000000 (seen_row "node-1" ONLINE 380000000))]
  ∧ jobs._pick_node_for_task
      (mark_offline_if_stale_nodes two_node_repository 500000000 60).1
      EMBEDDINGS
    ≠ Some "node-1".
Proof.
  assert (Hkeyed : store_keyed two_node_repository).
  { split; intros key row; unfold two_node_repository; cbn [nodes jobs].
    - intros [[<- <-]|[_ Hl]]%lookup_insert_Some; [done|].
      by apply lookup_singleton_Some in Hl as [<- <-].
    - by rewrite lookup_empty. }
  assert (Hchanged :
    (mark_offline_if_stale_nodes two_node_repository 500000000 60).2
    = [_to_node (demote 500000000 (seen_row "node-1" ONLINE 380000000))]).
  { vm_compute. reflexivity. }
  split; [exact Hchanged|].
  refine (proj2 (proj2 (swept_nodes_are_not_picked two_node_repository
                          500000000 60 EMBEDDINGS
                          (_to_node (demote 500000000
                                       (seen_row "node-1" ONLINE 380000000)))
                          Hkeyed _))).
  rewrite Hchanged. left.
Defined.

End liveness.

Section node_detail.

(** X29. [get_node_detail] answers 422 exactly when [history_limit] is
    outside 1..500, and otherwise 404 exactly when the node is unknown.
    A 200 carries the stored node, and history only when it was asked
    for: then at most [history_limit] samples, the newest ones the buffer
    holds for the node, oldest first. *)
Theorem get_node_detail_answers (repo : CoordinatorRepository)
  (history : MetricsHistoryBuffer) (node_id : string)
  (include_metrics_history : bool) (history_limit : Z) :
  let answer :=
    get_node_detail repo history node_id include_metrics_history
      history_limit in
  let stored := default [] (_samples history !! node_id) in
  (status_code answer = 422 ↔ history_limit < 1 ∨ 500 < history_limit)
  ∧ (status_code answer = 404
     ↔ 1 ≤ history_limit ≤ 500 ∧ get_node repo node_id = None)
  ∧ (∀ code detail, answer = Response code detail →
       code = 200
       ∧ get_node repo node_id = Some (routers.node detail)
       ∧ match metrics_history detail with
         | None => include_metrics_history = false
         | Some samples =>
             include_metrics_history = true
             ∧ samples = lastn (Z.to_nat history_limit) stored
             ∧ samples `suffix_of` stored
             ∧ Z.of_nat (length samples) ≤ history_limit ≤ 500
         end).
Proof.
  intros answer stored. subst answer. unfold get_node_detail.
  destruct (Z.ltb_spec history_limit 1) as [Hlow|Hlow]; cbn [orb].
  { cbn. repeat split; try done; try lia; auto. }
  destruct (Z.ltb_spec 500 history_limit) as [Hhigh|Hhigh].
  { cbn. repeat split; try done; try lia; auto. }
  destruct (get_node repo node_id) as [node|] eqn:Hnode.
  - cbn [status_code]. split; [split; [done|lia]|].
    split; [split; [done|by intros [_ ?]]|].
    intros code detail [= <- <-]. cbn [routers.node metrics_history].
    split; [done|]. split; [done|].
    destruct include_metrics_history; [|done].
    rewrite get_positive_limit by lia. fold stored.
    split; [done|]. split; [done|]. split; [apply lastn_suffix|].
    rewrite length_lastn. lia.
  - cbn [status_code]. split; [split; [done|lia]|].
    split; [split; [intros _; by split|done]|]. done.
Qed.

End node_detail.

(** ** The demo burst *)

Import burst.

Section demo_burst.










End demo_burst.
